(** * DeepDive Assistant: the Deep-Dive pipeline, embedded and verified

    A shallow embedding of the parts of the repository that its
    specification talks about, of the functions around them, and the
    properties proved of them:

    - the fixed-window [RateLimiter] of the backend and the middleware
      around it;
    - [parseGeminiResponse], [validateAndNormalizeResponse],
      [stripCitations], [extractRelatedArticlesFromGrounding], the selection
      of the [/search] handler, the CORS policy, [buildAnalysisPrompt] and
      the [/analyze] handler in [backend/server.js];
    - [extractArticleText] with its length cap and the message listener in
      [extension/content.js];
    - [CacheManager], [SettingsManager], [SummarizerService],
      [ErrorHandler], [getPageText], the calls of the backend,
      [renderMarkdown], [handleInstantSummary] and [handleDeepDiveAnalysis]
      of the popup script.

    A JavaScript string is the list of its UTF-16 code units ([list N]).
    [Date.now()] is an explicit argument, a mutable store is passed in and
    out, a [throw] is the [None] of an [option] or an error value, and what
    the runtime alone defines (the lower-casing of code units outside ASCII,
    the URL parser, the conversion of objects and numbers to strings, the
    methods of arrays called on other objects, the page and the remote
    services) is a parameter.  [JSON.parse], regular expressions, the
    prototype that an assignment to [__proto__] sets, [TextEncoder] and
    SHA-256 are modelled. *)

From Stdlib Require Import ZArith NArith List Bool Lia Ascii String.
From stdpp Require Import gmap list fin_maps.

#[local] Set Warnings "-register-all,-abstract-large-number".
Local Open Scope Z_scope.

(** * The embedding *)

(** ** JavaScript values the code manipulates *)

Module JS.

(** A JavaScript string is the sequence of its UTF-16 code units. *)
Abbreviation jschar := N (only parsing).
Abbreviation jsstring := (list N) (only parsing).

(** An ASCII literal as a JavaScript string. *)
Definition lit (s : string) : jsstring :=
  List.map N_of_ascii (list_ascii_of_string s).

(** The same, with every apostrophe standing for a double quote (to write
    JSON texts). *)
Definition litq (s : string) : jsstring :=
  List.map (fun a => if Ascii.eqb a "'" then 34%N else N_of_ascii a)
    (list_ascii_of_string s).

(** [c] is the ASCII character [a]. *)
Definition isCh (a : ascii) (c : N) : bool := N.eqb c (N_of_ascii a).

Definition LF : N := 10%N.
Definition SP : N := 32%N.

(** ECMAScript WhiteSpace and LineTerminator: what [\s] matches and what
    [trim()] removes. *)
Definition isWhiteSpace (c : N) : bool :=
  ((9 <=? c) && (c <=? 13) || (c =? 32) || (c =? 160) || (c =? 5760)
   || (8192 <=? c) && (c <=? 8202) || (c =? 8232) || (c =? 8233)
   || (c =? 8239) || (c =? 8287) || (c =? 12288) || (c =? 65279))%N.

(** [\d]. *)
Definition isDigit (c : N) : bool := ((48 <=? c) && (c <=? 57))%N.

(** [[\s\S]]: any code unit. *)
Definition anyChar (c : N) : bool := true.

(** [s.trimStart()], [s.trimEnd()], [s.trim()]. *)
Fixpoint trimStart (s : jsstring) : jsstring :=
  match s with
  | c :: s' => if isWhiteSpace c then trimStart s' else s
  | [] => []
  end.

Definition trimEnd (s : jsstring) : jsstring := rev (trimStart (rev s)).

Definition trim (s : jsstring) : jsstring := trimEnd (trimStart s).

(** [s.startsWith(p)]. *)
Fixpoint startsWith (p s : jsstring) : bool :=
  match p, s with
  | [], _ => true
  | a :: p', b :: s' => N.eqb a b && startsWith p' s'
  | _ :: _, [] => false
  end.

(** [s.includes(p)]. *)
Fixpoint includes (p s : jsstring) : bool :=
  startsWith p s || match s with [] => false | _ :: s' => includes p s' end.

(** [s.substring(0, n)] and [s.slice(0, n)] for a natural number [n]. *)
Definition substring0 (n : nat) (s : jsstring) : jsstring := firstn n s.

(** [s.length] and [s.slice(0, n)] on integers ([n >= 0]). *)
Definition len (s : jsstring) : Z := Z.of_nat (length s).

Definition slice0 (n : Z) (s : jsstring) : jsstring := firstn (Z.to_nat n) s.

(** [s.lastIndexOf(c)] for a one-character [c]: the scan keeps the last
    position seen, starting from [-1]. *)
Fixpoint lastIndexFrom (c : N) (s : jsstring) (i found : Z) : Z :=
  match s with
  | [] => found
  | x :: s' => lastIndexFrom c s' (i + 1) (if N.eqb x c then i else found)
  end.

Definition lastIndexOf (c : N) (s : jsstring) : Z :=
  lastIndexFrom c s 0 (-1).

(** *** Regular expressions

    A backtracking matcher in continuation-passing style, as the
    specification of [RegExp] describes it: a pattern takes the continuation
    that matches the rest of the pattern and the input still to read, and
    answers with the first success in priority order. *)

Section Regex.
Context {A : Type}.

Definition cont := jsstring -> option A.

(** One code unit of a class. *)
Definition chr (p : N -> bool) (k : cont) : cont :=
  fun s => match s with
           | c :: s' => if p c then k s' else None
           | [] => None
           end.

(** A literal. *)
Fixpoint str (l : jsstring) (k : cont) : cont :=
  match l with
  | [] => k
  | c :: l' => chr (N.eqb c) (str l' k)
  end.

(** Greedy [p*]: as many as possible first, then fewer. *)
Fixpoint star (p : N -> bool) (k : cont) (s : jsstring) : option A :=
  match s with
  | c :: s' =>
      if p c then
        match star p k s' with
        | Some a => Some a
        | None => k s
        end
      else k s
  | [] => k []
  end.

(** Greedy [p+]. *)
Definition plus (p : N -> bool) (k : cont) : cont := chr p (star p k).

(** Lazy [p*?]: as few as possible first, then more. *)
Fixpoint lazyStar (p : N -> bool) (k : cont) (s : jsstring) : option A :=
  match k s with
  | Some a => Some a
  | None =>
      match s with
      | c :: s' => if p c then lazyStar p k s' else None
      | [] => None
      end
  end.

(** A capturing group around [r]: the continuation also receives what [r]
    consumed. *)
Definition group (r : cont -> cont) (k : jsstring -> cont) : cont :=
  fun s => r (fun s' => k (firstn (length s - length s') s) s') s.

(** The leftmost match: try every start position in turn, the end of the
    input included. *)
Fixpoint search (m : cont) (s : jsstring) : option A :=
  match m s with
  | Some a => Some a
  | None =>
      match s with
      | [] => None
      | _ :: s' => search m s'
      end
  end.

End Regex.

(** [s.replace(/re/g, rep)]: [m] answers with the input left after a match
    of [re] at the current position.  After an empty match the scan copies
    one code unit and moves on. *)
Fixpoint replaceLoop (fuel : nat) (m : jsstring -> option jsstring)
    (rep s : jsstring) : jsstring :=
  match fuel with
  | O => s
  | S f =>
      match m s with
      | Some rest =>
          if (length rest <? length s)%nat then rep ++ replaceLoop f m rep rest
          else match s with
               | [] => rep
               | c :: s' => rep ++ c :: replaceLoop f m rep s'
               end
      | None =>
          match s with
          | [] => []
          | c :: s' => c :: replaceLoop f m rep s'
          end
      end
  end.

Definition replaceAll (m : jsstring -> option jsstring) (rep s : jsstring)
  : jsstring :=
  replaceLoop (S (length s)) m rep s.

(** *** Values *)

(** The values [JSON.parse] builds, [undefined], and the objects the code
    builds from them.  A number is kept as the decimal [m * 10^e] its text
    denotes.  An object is the list of its own properties: [VObj] is an
    object whose prototype is [Object.prototype], as [JSON.parse] and an
    object literal make them, and [VProto proto] one whose prototype an
    assignment to [__proto__] has replaced by [proto], an object, an array
    or [null]. *)
Inductive jsval :=
| VUndefined
| VNull
| VBool (b : bool)
| VNum (m e : Z)
| VStr (s : jsstring)
| VArr (items : list jsval)
| VObj (props : list (jsstring * jsval))
| VProto (proto : jsval) (props : list (jsstring * jsval)).

(** The answers of [typeof] the code compares with. *)
Inductive jstype := TUndefined | TObject | TBoolean | TNumber | TString.

Definition typeof (v : jsval) : jstype :=
  match v with
  | VUndefined => TUndefined
  | VNull | VArr _ | VObj _ | VProto _ _ => TObject
  | VBool _ => TBoolean
  | VNum _ _ => TNumber
  | VStr _ => TString
  end.

Definition isObjectType (v : jsval) : bool :=
  match typeof v with TObject => true | _ => false end.

Definition isString (v : jsval) : bool :=
  match v with VStr _ => true | _ => false end.

Definition isArray (v : jsval) : bool :=
  match v with VArr _ => true | _ => false end.

(** The double nearest to [m * 10^e] is zero: [m] is zero, or the magnitude
    is at most half the least subnormal, [2^-1075]. *)
Definition numIsZero (m e : Z) : bool :=
  (m =? 0) || ((e <? 0) && (Z.abs m * 2 ^ 1075 <=? 10 ^ (- e))).

(** ToBoolean. *)
Definition truthy (v : jsval) : bool :=
  match v with
  | VUndefined | VNull => false
  | VBool b => b
  | VNum m e => negb (numIsZero m e)
  | VStr s => match s with [] => false | _ => true end
  | VArr _ | VObj _ | VProto _ _ => true
  end.

(** [a === b] on strings. *)
Fixpoint eqs (a b : jsstring) : bool :=
  match a, b with
  | [], [] => true
  | x :: a', y :: b' => N.eqb x y && eqs a' b'
  | _, _ => false
  end.

(** The first property named [k]. *)
Fixpoint lookup (k : jsstring) (props : list (jsstring * jsval))
  : option jsval :=
  match props with
  | [] => None
  | (k', v) :: rest => if eqs k k' then Some v else lookup k rest
  end.

(** What a read of [k] finds from [proto] on along the prototype chain,
    for a name [k] that no built-in prototype and no array defines. *)
Fixpoint inheritedFrom (proto : jsval) (k : jsstring) : jsval :=
  match proto with
  | VObj props =>
      match lookup k props with Some x => x | None => VUndefined end
  | VProto proto' props =>
      match lookup k props with Some x => x | None => inheritedFrom proto' k end
  | _ => VUndefined
  end.

(** [v.k] for a property name [k] that no built-in prototype and no array
    defines (every name the code reads is one): [None] is the TypeError of
    reading a property of [null] or [undefined]. *)
Definition getE (v : jsval) (k : jsstring) : option jsval :=
  match v with
  | VUndefined | VNull => None
  | VObj props => Some (match lookup k props with Some x => x | None => VUndefined end)
  | VProto proto props =>
      Some (match lookup k props with
            | Some x => x
            | None => inheritedFrom proto k
            end)
  | _ => Some VUndefined
  end.

(** [v.k] behind a guard [v && ...]: where the guard fails the conjunction
    is false whatever is read, so the read is given the value [undefined]. *)
Definition get (v : jsval) (k : jsstring) : jsval :=
  match getE v k with Some x => x | None => VUndefined end.

(** Define property [k], replacing the value of an existing one in place. *)
Fixpoint setProp (props : list (jsstring * jsval)) (k : jsstring) (v : jsval)
  : list (jsstring * jsval) :=
  match props with
  | [] => [(k, v)]
  | (k', v') :: rest =>
      if eqs k k' then (k', v) :: rest else (k', v') :: setProp rest k v
  end.

(** The string of a value the code knows to be a string. *)
Definition strOf (v : jsval) : jsstring :=
  match v with VStr s => s | _ => [] end.

(** [v === undefined || v === null]. *)
Definition nullish (v : jsval) : bool :=
  match v with VUndefined | VNull => true | _ => false end.

(** [String(v)] and a template literal around [v] return.  They do on a
    primitive.  On an object or an array the conversion of the runtime
    throws when the object has no callable [toString] or [valueOf] to answer
    with a primitive (an object with a property named [toString], for one);
    [objectConverts] stands for that conversion, left open. *)
Definition converts (objectConverts : jsval -> bool) (v : jsval) : bool :=
  match v with
  | VArr _ | VObj _ | VProto _ _ => objectConverts v
  | _ => true
  end.

(** [a.length] of an array. *)
Definition lengthOf {A : Type} (a : list A) : Z := Z.of_nat (length a).

(** *** More of the string and [RegExp] built-ins *)

(** [s.substring(0, n)] for an integer [n]: a negative [n] counts as [0],
    one beyond the length as the length. *)
Definition substringTo (n : Z) (s : jsstring) : jsstring :=
  firstn (Z.to_nat n) s.

(** [parts.join(sep)] on strings. *)
Fixpoint join (sep : jsstring) (parts : list jsstring) : jsstring :=
  match parts with
  | [] => []
  | p :: rest =>
      match rest with
      | [] => p
      | _ :: _ => p ++ sep ++ join sep rest
      end
  end.

(** [re.exec(s)] for a pattern [re] whose [lastIndex] stands at the start of
    [s]: the leftmost match, as the text matched and the input after it. *)
Definition exec (re : @cont (jsstring * jsstring) -> cont) (s : jsstring)
  : option (jsstring * jsstring) :=
  search (group re (fun whole rest => Some (whole, rest))) s.

(** [while ((match = re.exec(s)) !== null) lastMatch = match] for a pattern
    with the [g] flag: each [exec] resumes where the match before it ended.
    [s] is the input from [lastIndex] on; the answer is the [index] of the
    last match.  (On a pattern that matches the empty string the loop of the
    source does not end; the patterns it is used with consume input.) *)
Fixpoint lastExec (fuel : nat) (re : @cont (jsstring * jsstring) -> cont)
    (s : jsstring) (lastIndex : Z) (lastMatch : option Z) : option Z :=
  match fuel with
  | O => lastMatch
  | S f =>
      match exec re s with
      | Some (whole, rest) =>
          let index := lastIndex + (len s - len whole - len rest) in
          lastExec f re rest (index + len whole) (Some index)
      | None => lastMatch
      end
  end.

End JS.

Import JS.

(** ** [JSON.parse]

    The JSON grammar of ECMA-404, read by recursive descent.  The runtime's
    parser is not part of the repository; this one returns what it returns
    on a string: the parsed value, or a [SyntaxError]. *)

Module JSON.

Inductive outcome (A : Type) :=
| Done (a : A)
| SyntaxError
| OutOfFuel.
Arguments Done {A} a.
Arguments SyntaxError {A}.
Arguments OutOfFuel {A}.

(** JSON whitespace: space, tab, line feed, carriage return. *)
Definition isJsonWs (c : N) : bool :=
  ((c =? 32) || (c =? 9) || (c =? 10) || (c =? 13))%N.

Fixpoint skipWs (s : jsstring) : jsstring :=
  match s with
  | c :: s' => if isJsonWs c then skipWs s' else s
  | [] => []
  end.

(** The value of a hexadecimal digit. *)
Definition hexVal (c : N) : option N :=
  (if (48 <=? c) && (c <=? 57) then Some (c - 48)
   else if (65 <=? c) && (c <=? 70) then Some (c - 55)
   else if (97 <=? c) && (c <=? 102) then Some (c - 87)
   else None)%N.

Definition hex4 (a b c d : N) : option N :=
  match hexVal a, hexVal b, hexVal c, hexVal d with
  | Some x, Some y, Some z, Some w => Some (((x * 16 + y) * 16 + z) * 16 + w)%N
  | _, _, _, _ => None
  end.

(** The code unit a one-letter escape stands for. *)
Definition unescape (e : N) : option N :=
  if isCh "034" e then Some 34%N
  else if isCh "\" e then Some 92%N
  else if isCh "/" e then Some 47%N
  else if isCh "b" e then Some 8%N
  else if isCh "f" e then Some 12%N
  else if isCh "n" e then Some 10%N
  else if isCh "r" e then Some 13%N
  else if isCh "t" e then Some 9%N
  else None.

(** A string after its opening quote: the code units up to the closing
    quote, escapes replaced, and the input after it. *)
Fixpoint parseChars (s acc : jsstring) : option (jsstring * jsstring) :=
  match s with
  | [] => None
  | c :: s' =>
      if isCh "034" c then Some (rev acc, s')
      else if isCh "\" c then
        match s' with
        | [] => None
        | e :: s'' =>
            if isCh "u" e then
              match s'' with
              | h1 :: h2 :: h3 :: h4 :: s3 =>
                  match hex4 h1 h2 h3 h4 with
                  | Some u => parseChars s3 (u :: acc)
                  | None => None
                  end
              | _ => None
              end
            else
              match unescape e with
              | Some u => parseChars s'' (u :: acc)
              | None => None
              end
        end
      else if (c <? 32)%N then None
      else parseChars s' (c :: acc)
  end.

(** The longest run of decimal digits, and the input after it. *)
Fixpoint takeDigits (s : jsstring) : jsstring * jsstring :=
  match s with
  | c :: s' =>
      if isDigit c then let (ds, r) := takeDigits s' in (c :: ds, r)
      else ([], s)
  | [] => ([], [])
  end.

(** The number a run of digits denotes. *)
Definition digitsVal (ds : jsstring) : Z :=
  fold_left (fun acc c => acc * 10 + (Z.of_N c - 48)) ds 0.

(** The sign of an exponent, if any. *)
Definition parseExpSign (s : jsstring) : bool * jsstring :=
  match s with
  | x :: s' =>
      if isCh "-" x then (true, s')
      else if isCh "+" x then (false, s')
      else (false, s)
  | [] => (false, s)
  end.

(** The exponent part, if any: its value and the input after it. *)
Definition parseExp (s : jsstring) : option (Z * jsstring) :=
  match s with
  | c :: s' =>
      if isCh "e" c || isCh "E" c then
        let (neg, s1) := parseExpSign s' in
        match takeDigits s1 with
        | ([], _) => None
        | (ds, r) => Some (if neg then - digitsVal ds else digitsVal ds, r)
        end
      else Some (0, s)
  | [] => Some (0, s)
  end.

(** The minus sign of a number, if any. *)
Definition parseSign (s : jsstring) : bool * jsstring :=
  match s with
  | c :: s' => if isCh "-" c then (true, s') else (false, s)
  | [] => (false, s)
  end.

(** The fraction part, if any: its digits and the input after it. *)
Definition parseFrac (r : jsstring) : option (jsstring * jsstring) :=
  match r with
  | c :: r' =>
      if isCh "." c then
        match takeDigits r' with
        | ([], _) => None
        | (fs, r'') => Some (fs, r'')
        end
      else Some ([], r)
  | [] => Some ([], r)
  end.

(** A number: an optional minus sign, an integer part with no leading
    zero, an optional fraction and an optional exponent. *)
Definition parseNumber (s : jsstring) : option (jsval * jsstring) :=
  let (neg, s0) := parseSign s in
  match takeDigits s0 with
  | ([], _) => None
  | (d :: ds, r) =>
      if isCh "0" d && negb (match ds with [] => true | _ => false end)
      then None
      else
        match parseFrac r with
        | None => None
        | Some (fs, r1) =>
            match parseExp r1 with
            | None => None
            | Some (ex, r2) =>
                let m := digitsVal (d :: ds ++ fs) in
                Some (VNum (if neg then - m else m)
                           (ex - Z.of_nat (length fs)), r2)
            end
        end
  end.

Definition ofOption {A : Type} (o : option A) : outcome A :=
  match o with Some a => Done a | None => SyntaxError end.

(** A value, the elements of an array after the first bracket, and the
    members of an object after the first brace. *)
Fixpoint parseValue (fuel : nat) (s : jsstring) : outcome (jsval * jsstring) :=
  match fuel with
  | O => OutOfFuel
  | S f =>
      match skipWs s with
      | [] => SyntaxError
      | c :: r =>
          if isCh "{" c then
            match skipWs r with
            | c2 :: r2 =>
                if isCh "}" c2 then Done (VObj [], r2)
                else parseMembers f (c2 :: r2) []
            | [] => SyntaxError
            end
          else if isCh "[" c then
            match skipWs r with
            | c2 :: r2 =>
                if isCh "]" c2 then Done (VArr [], r2)
                else parseElements f (c2 :: r2) []
            | [] => SyntaxError
            end
          else if isCh "034" c then
            match parseChars r [] with
            | Some (str, r') => Done (VStr str, r')
            | None => SyntaxError
            end
          else if startsWith (lit "true") (c :: r) then
            Done (VBool true, skipn 4 (c :: r))
          else if startsWith (lit "false") (c :: r) then
            Done (VBool false, skipn 5 (c :: r))
          else if startsWith (lit "null") (c :: r) then
            Done (VNull, skipn 4 (c :: r))
          else ofOption (parseNumber (c :: r))
      end
  end
with parseElements (fuel : nat) (s : jsstring) (acc : list jsval)
  : outcome (jsval * jsstring) :=
  match fuel with
  | O => OutOfFuel
  | S f =>
      match parseValue f s with
      | Done (v, r) =>
          match skipWs r with
          | c :: r' =>
              if isCh "," c then parseElements f r' (v :: acc)
              else if isCh "]" c then Done (VArr (rev (v :: acc)), r')
              else SyntaxError
          | [] => SyntaxError
          end
      | SyntaxError => SyntaxError
      | OutOfFuel => OutOfFuel
      end
  end
with parseMembers (fuel : nat) (s : jsstring) (acc : list (jsstring * jsval))
  : outcome (jsval * jsstring) :=
  match fuel with
  | O => OutOfFuel
  | S f =>
      match skipWs s with
      | q :: r =>
          if isCh "034" q then
            match parseChars r [] with
            | Some (k, r1) =>
                match skipWs r1 with
                | colon :: r2 =>
                    if isCh ":" colon then
                      match parseValue f r2 with
                      | Done (v, r3) =>
                          match skipWs r3 with
                          | c :: r4 =>
                              if isCh "," c then
                                parseMembers f r4 (setProp acc k v)
                              else if isCh "}" c then
                                Done (VObj (setProp acc k v), r4)
                              else SyntaxError
                          | [] => SyntaxError
                          end
                      | SyntaxError => SyntaxError
                      | OutOfFuel => OutOfFuel
                      end
                    else SyntaxError
                | [] => SyntaxError
                end
            | None => SyntaxError
            end
          else SyntaxError
      | [] => SyntaxError
      end
  end.

(** Fuel that the descent never exhausts on [s]. *)
Definition fuelFor (s : jsstring) : nat := (2 * length s + 2)%nat.

(** [JSON.parse(text)]: [None] is a thrown [SyntaxError]. *)
Definition parse (text : jsstring) : option jsval :=
  match parseValue (fuelFor text) text with
  | Done (v, r) => match skipWs r with [] => Some v | _ => None end
  | _ => None
  end.

End JSON.

(** ** The rate limiter of the backend ([rate-limiter.js]) *)

Module RateLimiter.

(** One entry of [this.store]. *)
Record record := Rec { count : Z; resetTime : Z }.

(** The [options] argument of the constructor; [None] is an absent field. *)
Record options := Opt { opt_windowMs : option Z; opt_maxRequests : option Z }.

(** A limiter instance. *)
Record t := Limiter {
  windowMs : Z;
  maxRequests : Z;
  store : gmap (list N) record
}.

(** What [check] returns. *)
Record result := Res { allowed : bool; remaining : Z; res_resetTime : Z }.

(** [o || d] on an optional number: [undefined] and [0] are falsy. *)
Definition or_default (o : option Z) (d : Z) : Z :=
  match o with
  | Some v => if v =? 0 then d else v
  | None => d
  end.

(** [constructor(options = {})]. *)
Definition new (o : options) : t :=
  {| windowMs := or_default (opt_windowMs o) 60000;
     maxRequests := or_default (opt_maxRequests o) 10;
     store := ∅ |}.

Definition set_store (l : t) (s : gmap (list N) record) : t :=
  {| windowMs := windowMs l; maxRequests := maxRequests l; store := s |}.

(** [check(identifier)], with [now] the value of [Date.now()]. *)
Definition check (now : Z) (identifier : list N) (l : t) : t * result :=
  let fresh :=
    (set_store l (<[identifier := Rec 1 (now + windowMs l)]> (store l)),
     Res true (maxRequests l - 1) (now + windowMs l)) in
  match store l !! identifier with
  | None => fresh
  | Some r =>
      if resetTime r <=? now then fresh
      else if maxRequests l <=? count r then (l, Res false 0 (resetTime r))
      else
        let r' := Rec (count r + 1) (resetTime r) in
        (set_store l (<[identifier := r']> (store l)),
         Res true (maxRequests l - count r') (resetTime r'))
  end.

(** [cleanup()]: delete every record whose window has expired. *)
Definition cleanup (now : Z) (l : t) : t :=
  set_store l (filter (fun kr => ¬ (resetTime kr.2 <= now)) (store l)).

(** [reset()]. *)
Definition reset (l : t) : t := set_store l ∅.

(** The calls a limiter can receive, each with the clock reading it sees. *)
Inductive op :=
| OpCheck (now : Z) (identifier : list N)
| OpCleanup (now : Z)
| OpReset.

(** One call; a [check] also yields its result. *)
Definition step (l : t) (o : op) : t * option result :=
  match o with
  | OpCheck now i => let (l', r) := check now i l in (l', Some r)
  | OpCleanup now => (cleanup now l, None)
  | OpReset => (reset l, None)
  end.

(** A sequence of calls, with the results of its [check]s in order. *)
Fixpoint run (l : t) (os : list op) : t * list result :=
  match os with
  | [] => (l, [])
  | o :: os' =>
      let (l1, r) := step l o in
      let (l2, rs) := run l1 os' in
      (l2, match r with Some x => x :: rs | None => rs end)
  end.

(** Successive [check]s of one identifier at the given clock readings. *)
Definition checks (l : t) (identifier : list N) (ts : list Z) : t * list result :=
  run l (List.map (fun now => OpCheck now identifier) ts).

(** The record invariant: [1 <= count <= maxRequests]. *)
Definition store_ok (l : t) : Prop :=
  map_Forall (fun _ r => 1 <= count r <= maxRequests l) (store l).

End RateLimiter.

(** ** The middleware around the limiter ([createRateLimitMiddleware]) *)

Module RateLimitMiddleware.

Import RateLimiter.

(** What the middleware reads of a request: the [Origin] header and
    [req.ip]; [None] is [undefined]. *)
Record request := Req { origin : option (list N); ip : option (list N) }.

(** [a || b] on an optional string: [undefined] and the empty string are
    falsy. *)
Definition orElse (a : option (list N)) (b : list N) : list N :=
  match a with
  | Some (c :: s) => c :: s
  | _ => b
  end.

(** [req.headers.origin || req.ip || 'unknown']. *)
Definition identifierOf (req : request) : list N :=
  orElse (origin req) (orElse (ip req) (lit "unknown")).

(** [Math.ceil(ms / 1000)] on an integer number of milliseconds. *)
Definition ceilSeconds (ms : Z) : Z := - ((- ms) / 1000).

(** The headers the middleware sets: [X-RateLimit-Limit],
    [X-RateLimit-Remaining], the time value that [X-RateLimit-Reset] renders
    in ISO form, and [Retry-After] where it is set. *)
Record headers := Headers {
  limitHeader : Z;
  remainingHeader : Z;
  resetHeader : Z;
  retryAfterHeader : option Z
}.

(** How the middleware ends: [next()], or the status 429 with the
    [retryAfter] of its body. *)
Inductive reply :=
| Next
| TooManyRequests (retryAfter : Z).

(** One request through the function that [createRateLimitMiddleware(o)]
    returned.  [l] is the limiter of its closure, [now] the clock as [check]
    reads it, [later] the clock as the computation of [retryAfter] reads
    it. *)
Definition middleware (o : options) (now later : Z) (req : request) (l : t)
  : t * headers * reply :=
  let identifier := identifierOf req in
  let (l', result) := check now identifier l in
  let limit := or_default (opt_maxRequests o) 10 in
  if allowed result then
    (l', Headers limit (remaining result) (res_resetTime result) None, Next)
  else
    let retryAfter := ceilSeconds (res_resetTime result - later) in
    (l',
     Headers limit (remaining result) (res_resetTime result) (Some retryAfter),
     TooManyRequests retryAfter).

(** [createRateLimitMiddleware(options = {})]: the limiter it builds, and
    the middleware over it. *)
Definition createRateLimitMiddleware (o : options)
  : t * (Z -> Z -> request -> t -> t * headers * reply) :=
  (new o, middleware o).

End RateLimitMiddleware.
(** ** The popup script: [CacheManager] *)

(** *** SHA-256 (FIPS 180-4), the digest [crypto.subtle.digest] computes.
    Words are 32-bit integers in [Z]; bytes are integers below 256. *)

Module SHA256.

Definition w32 (x : Z) : Z := x mod 2 ^ 32.

Definition add32 (x y : Z) : Z := w32 (x + y).

Definition rotr (n x : Z) : Z :=
  Z.lor (Z.shiftr x n) (w32 (Z.shiftl x (32 - n))).

Definition not32 (x : Z) : Z := Z.lxor x (2 ^ 32 - 1).

Definition Ch (x y z : Z) : Z :=
  Z.lxor (Z.land x y) (Z.land (not32 x) z).

Definition Maj (x y z : Z) : Z :=
  Z.lxor (Z.lxor (Z.land x y) (Z.land x z)) (Z.land y z).

Definition bigSigma0 (x : Z) : Z :=
  Z.lxor (Z.lxor (rotr 2 x) (rotr 13 x)) (rotr 22 x).

Definition bigSigma1 (x : Z) : Z :=
  Z.lxor (Z.lxor (rotr 6 x) (rotr 11 x)) (rotr 25 x).

Definition smallSigma0 (x : Z) : Z :=
  Z.lxor (Z.lxor (rotr 7 x) (rotr 18 x)) (Z.shiftr x 3).

Definition smallSigma1 (x : Z) : Z :=
  Z.lxor (Z.lxor (rotr 17 x) (rotr 19 x)) (Z.shiftr x 10).

(** The integer [k]-th root of [n], built from its top bit down. *)
Fixpoint rootBits (k : Z) (n : Z) (bits : nat) (r : Z) : Z :=
  match bits with
  | O => r
  | S b =>
      let r' := r + 2 ^ Z.of_nat b in
      rootBits k n b (if r' ^ k <=? n then r' else r)
  end.

Definition isPrime (p : nat) : bool :=
  forallb (fun d => negb (Nat.eqb (p mod d) 0)) (seq 2 (p - 2)).

(** The first [n] primes among the numbers from 2 to 311. *)
Definition primes (n : nat) : list Z :=
  List.map Z.of_nat (firstn n (List.filter isPrime (seq 2 310))).

(** The round constants: the first 32 bits of the fractional parts of the
    cube roots of the first 64 primes. *)
Definition K : list Z :=
  Eval vm_compute in
    List.map (fun p => w32 (rootBits 3 (p * 2 ^ 96) 36 0)) (primes 64).

(** The initial hash value: the same of the square roots of the first 8
    primes. *)
Definition H0 : list Z :=
  Eval vm_compute in
    List.map (fun p => w32 (rootBits 2 (p * 2 ^ 64) 36 0)) (primes 8).

(** Big-endian bytes of a number, [n] of them. *)
Fixpoint bytesBE (n : nat) (x : Z) : list Z :=
  match n with
  | O => []
  | S k => (Z.shiftr x (8 * Z.of_nat k)) mod 256 :: bytesBE k x
  end.

(** The message, a [1] bit, zeros, and the length in bits on 64 bits: a
    multiple of 64 bytes. *)
Definition pad (msg : list Z) : list Z :=
  let len := Z.of_nat (length msg) in
  let zeros := Z.to_nat ((55 - len) mod 64) in
  msg ++ [128] ++ repeat 0 zeros ++ bytesBE 8 (8 * len).

(** Big-endian 32-bit words of a list of bytes. *)
Fixpoint words (bs : list Z) : list Z :=
  match bs with
  | a :: b :: c :: d :: rest =>
      (((a * 256 + b) * 256 + c) * 256 + d) :: words rest
  | _ => []
  end.

(** The message schedule: [W] holds [W_0 .. W_(t-1)]; add [n] more. *)
Fixpoint schedule (n : nat) (W : list Z) : list Z :=
  match n with
  | O => W
  | S k =>
      let t := length W in
      let w i := nth (t - i) W 0 in
      schedule k
        (W ++ [add32 (add32 (smallSigma1 (w 2%nat)) (w 7%nat))
                     (add32 (smallSigma0 (w 15%nat)) (w 16%nat))])
  end.

(** One round on the working variables [a .. h]. *)
Definition round (v : list Z) (kw : Z * Z) : list Z :=
  match v with
  | [a; b; c; d; e; f; g; h] =>
      let t1 := add32 (add32 (add32 h (bigSigma1 e)) (add32 (Ch e f g) kw.1)) kw.2 in
      let t2 := add32 (bigSigma0 a) (Maj a b c) in
      [add32 t1 t2; a; b; c; add32 d t1; e; f; g]
  | _ => v
  end.

(** The compression of one 16-word block into the hash value. *)
Definition compress (H : list Z) (block : list Z) : list Z :=
  let W := schedule 48 block in
  List.map (fun p => add32 p.1 p.2)
    (List.combine H (fold_left round (List.combine K W) H)).

(** The blocks of a list of words, 16 at a time. *)
Fixpoint blocks (fuel : nat) (ws : list Z) : list (list Z) :=
  match fuel, ws with
  | S f, _ :: _ => firstn 16 ws :: blocks f (skipn 16 ws)
  | _, _ => []
  end.

(** The 32 bytes of the digest. *)
Definition digest (msg : list Z) : list Z :=
  let ws := words (pad msg) in
  List.flat_map (bytesBE 4) (fold_left compress (blocks (length ws) ws) H0).

End SHA256.

Module CacheManager.

(** *** [TextEncoder.encode]: UTF-8 of the code points of a string, an
    unpaired surrogate read as U+FFFD. *)

Definition isHigh (c : N) : bool := ((55296 <=? c) && (c <=? 56319))%N.
Definition isLow (c : N) : bool := ((56320 <=? c) && (c <=? 57343))%N.

Definition utf8 (cp : N) : list Z :=
  let z := Z.of_N cp in
  if z <? 128 then [z]
  else if z <? 2048 then [192 + z / 64; 128 + z mod 64]
  else if z <? 65536 then
    [224 + z / 4096; 128 + (z / 64) mod 64; 128 + z mod 64]
  else
    [240 + z / 262144; 128 + (z / 4096) mod 64; 128 + (z / 64) mod 64;
     128 + z mod 64].

Fixpoint encode (s : jsstring) : list Z :=
  match s with
  | [] => []
  | c :: s' =>
      if isHigh c then
        match s' with
        | d :: s'' =>
            if isLow d
            then utf8 (65536 + (c - 55296) * 1024 + (d - 56320))%N ++ encode s''
            else utf8 65533%N ++ encode s'
        | [] => utf8 65533%N
        end
      else if isLow c then utf8 65533%N ++ encode s'
      else utf8 c ++ encode s'
  end.

(** [b.toString(16).padStart(2, '0')]. *)
Definition hexDigit (d : Z) : N :=
  Z.to_N (if d <? 10 then 48 + d else 87 + d).

Definition hexByte (b : Z) : jsstring := [hexDigit (b / 16); hexDigit (b mod 16)].

(** [simpleHash(str)]: the first 16 hexadecimal digits of the SHA-256
    digest of the encoded string. *)
Definition simpleHash (str : jsstring) : jsstring :=
  substring0 16 (List.flat_map hexByte (SHA256.digest (encode str))).

(** [generateCacheKey(url, text)]. *)
Definition generateCacheKey (url text : jsstring) : jsstring :=
  let contentSample := substring0 1000 text in
  url ++ lit ":" ++ simpleHash contentSample.

(** *** The store *)

Section Store.

(** The type of cached values. *)
Context {V : Type}.

Record entry := Entry { value : V; timestamp : Z; ttl : Z }.

(** [get(key)]: [None] is [null]. *)
Definition get (key : jsstring) (storage : gmap (list N) entry)
  : option entry :=
  storage !! key.

(** [set(key, value, ttl = 86400000)] at clock reading [now]; an absent
    [ttl] is [None]. *)
Definition set (now : Z) (key : jsstring) (v : V) (t : option Z)
    (storage : gmap (list N) entry) : gmap (list N) entry :=
  <[key := Entry v now (match t with Some x => x | None => 86400000 end)]>
    storage.

(** [isValid(key)] at clock reading [now]. *)
Definition isValid (now : Z) (key : jsstring) (storage : gmap (list N) entry)
  : bool :=
  match get key storage with
  | None => false
  | Some e => now - timestamp e <? ttl e
  end.

End Store.

Arguments entry V : clear implicits.

End CacheManager.

(** ** backend/server.js *)

Module Server.

Section WithLowerCase.

(** [String.prototype.toLowerCase] maps ASCII capitals to small letters and
    leaves the other ASCII code units alone.  What it does to a code unit
    outside ASCII is a table of the Unicode database, left open here. *)
Variable lowerOther : N -> jsstring.

Definition lowerUnit (c : N) : jsstring :=
  if ((65 <=? c) && (c <=? 90))%N then [(c + 32)%N]
  else if (c <? 128)%N then [c]
  else lowerOther c.

Definition toLowerCase (s : jsstring) : jsstring :=
  List.flat_map lowerUnit s.

(** *** [stripCitations] *)

(** [/\s*\[\d+\]\s*/]: the input left after a match at the current
    position. *)
Definition citationRe : jsstring -> option jsstring :=
  star isWhiteSpace
    (chr (isCh "[") (plus isDigit (chr (isCh "]") (star isWhiteSpace Some)))).

(** [/\s+/]. *)
Definition spacesRe : jsstring -> option jsstring :=
  plus isWhiteSpace Some.

(** [obj.replace(/\s*\[\d+\]\s*/g, ' ').replace(/\s+/g, ' ').trim()]. *)
Definition stripString (s : jsstring) : jsstring :=
  trim (replaceAll spacesRe [SP] (replaceAll citationRe [SP] s)).

Definition PROTO : jsstring := lit "__proto__".

(** [cleaned[key] = value] for each entry in turn, on a fresh object
    [cleaned = {}].  Every key makes an own property but [__proto__]: that
    assignment runs the setter of [Object.prototype], which makes an object,
    an array or [null] the prototype of [cleaned], ignores every other
    value, and creates no own property. *)
Definition assignAll (entries : list (jsstring * jsval)) : jsval :=
  let own := List.filter (fun kv => negb (eqs kv.1 PROTO)) entries in
  match lookup PROTO entries with
  | Some proto => if isObjectType proto then VProto proto own else VObj own
  | None => VObj own
  end.

(** [Object.entries(obj)] lists the own properties of [obj], whatever its
    prototype. *)
Fixpoint stripCitations (obj : jsval) : jsval :=
  match obj with
  | VStr s => VStr (stripString s)
  | VArr items => VArr (List.map stripCitations items)
  | VObj props | VProto _ props =>
      assignAll
        (List.map (fun kv => match kv with
                             | (k, v) => (k, stripCitations v)
                             end) props)
  | _ => obj
  end.

(** *** [validateAndNormalizeResponse] *)

Definition nonBlank (v : jsval) : bool :=
  match trim (strOf v) with [] => false | _ => true end.

Definition suspiciousPatterns : list jsstring :=
  [lit "example.com"; lit "placeholder.com"; lit "yoursite.com";
   lit "website.com"; lit "test.com"; lit "sample.com"].

Definition isSuspicious (article : jsval) : bool :=
  let url := toLowerCase (strOf (get article (lit "url"))) in
  existsb (fun pattern => includes pattern url) suspiciousPatterns.

Definition articleOk (article : jsval) : bool :=
  truthy article && isObjectType article
  && isString (get article (lit "title"))
  && isString (get article (lit "url"))
  && nonBlank (get article (lit "title"))
  && nonBlank (get article (lit "url")).

Definition normArticle (article : jsval) : jsval :=
  VObj [(lit "title", VStr (trim (strOf (get article (lit "title")))));
        (lit "url", VStr (trim (strOf (get article (lit "url")))))].

Definition defOk (def : jsval) : bool :=
  truthy def && isObjectType def
  && isString (get def (lit "term"))
  && isString (get def (lit "definition"))
  && nonBlank (get def (lit "term"))
  && nonBlank (get def (lit "definition")).

Definition normDef (def : jsval) : jsval :=
  VObj [(lit "term", VStr (trim (strOf (get def (lit "term")))));
        (lit "definition", VStr (trim (strOf (get def (lit "definition")))))].

Definition argOk (arg : jsval) : bool := isString arg && nonBlank arg.

Definition normArg (arg : jsval) : jsval := VStr (trim (strOf arg)).

(** The elements of a value that [Array.isArray] accepts. *)
Definition itemsOf (v : jsval) : list jsval :=
  match v with VArr items => items | _ => [] end.

(** The list of normalized arguments under [data.arguments.name]. *)
Definition normArgs (args : jsval) (name : jsstring) : list jsval :=
  if isArray (get args name)
  then firstn 20 (List.map normArg (List.filter argOk (itemsOf (get args name))))
  else [].

(** The record every path of [parseGeminiResponse] builds. *)
Definition mkResult (relatedArticles definitions main counter : list jsval)
  : jsval :=
  VObj [(lit "relatedArticles", VArr relatedArticles);
        (lit "definitions", VArr definitions);
        (lit "arguments",
         VObj [(lit "main", VArr main); (lit "counter", VArr counter)])].

(** [None] is the thrown [Error('Response must be an object')]. *)
Definition validateAndNormalizeResponse (data : jsval) : option jsval :=
  if negb (isObjectType data) || match data with VNull => true | _ => false end
  then None
  else
    let relatedArticles :=
      if isArray (get data (lit "relatedArticles")) then
        List.filter (fun a => negb (isSuspicious a))
          (firstn 10
             (List.map normArticle
                (List.filter articleOk
                   (itemsOf (get data (lit "relatedArticles"))))))
      else [] in
    let definitions :=
      if isArray (get data (lit "definitions")) then
        firstn 20
          (List.map normDef
             (List.filter defOk (itemsOf (get data (lit "definitions")))))
      else [] in
    let args := get data (lit "arguments") in
    let guarded := truthy args && isObjectType args in
    let mainArguments := if guarded then normArgs args (lit "main") else [] in
    let counterArguments :=
      if guarded then normArgs args (lit "counter") else [] in
    Some (mkResult relatedArticles definitions mainArguments counterArguments).

(** *** [parseGeminiResponse] *)

Definition FENCE : jsstring := lit "```".

(** [text.match(/```json\s*\n([\s\S]*?)\n```/)], group 1. *)
Definition jsonCodeBlockMatch (text : jsstring) : option jsstring :=
  search
    (str (lit "```json")
       (star isWhiteSpace
          (chr (N.eqb LF)
             (group (lazyStar anyChar)
                (fun inner => chr (N.eqb LF) (str FENCE (fun _ => Some inner)))))))
    text.

(** [text.match(/```\s*\n([\s\S]*?)\n```/)], group 1. *)
Definition codeBlockMatch (text : jsstring) : option jsstring :=
  search
    (str FENCE
       (star isWhiteSpace
          (chr (N.eqb LF)
             (group (lazyStar anyChar)
                (fun inner => chr (N.eqb LF) (str FENCE (fun _ => Some inner)))))))
    text.

(** [text.match(/\{[\s\S]*\}/)], the whole match. *)
Definition jsonObjectMatch (text : jsstring) : option jsstring :=
  search
    (group (fun k => chr (isCh "{") (star anyChar (chr (isCh "}") k)))
       (fun whole _ => Some whole))
    text.

(** The body of each [try]: parse, validate, strip; [None] when any of
    them throws. *)
Definition tryParse (source : jsstring) : option jsval :=
  match JSON.parse source with
  | Some parsed =>
      match validateAndNormalizeResponse parsed with
      | Some normalized => Some (stripCitations normalized)
      | None => None
      end
  | None => None
  end.

(** A tier: its pattern must match and its [try] must succeed. *)
Definition tier (found : option jsstring) : option jsval :=
  match found with
  | Some source => tryParse source
  | None => None
  end.

(** The first of the four JSON tiers that returns. *)
Definition jsonTiers (text : jsstring) : option jsval :=
  match tier (jsonCodeBlockMatch text) with
  | Some r => Some r
  | None =>
      match tier (codeBlockMatch text) with
      | Some r => Some r
      | None =>
          match tier (jsonObjectMatch text) with
          | Some r => Some r
          | None => tryParse text
          end
      end
  end.

(** The fallback structure around the raw text. *)
Definition fallback (text : jsstring) : jsval :=
  mkResult [] []
    [VStr (substring0 500 text
           ++ (if (500 <? length text)%nat then lit "..." else []))]
    [].

Definition parseGeminiResponse (text : jsstring) : jsval :=
  match jsonTiers text with
  | Some r => r
  | None => fallback text
  end.

(** *** The [/search] handler *)

Definition REDIRECT : jsstring :=
  lit "vertexaisearch.cloud.google.com/grounding-api-redirect".

(** [responseText.match(/\{[\s\S]*\}/)] and what the [try] around
    [JSON.parse] leaves in [jsonArticles]. *)
Definition jsonArticlesOf (responseText : jsstring) : list jsval :=
  match jsonObjectMatch responseText with
  | Some source =>
      match JSON.parse source with
      | Some parsed =>
          match getE parsed (lit "articles") with
          | Some articles =>
              if truthy articles && isArray articles
              then itemsOf (stripCitations articles)
              else []
          | None => []
          end
      | None => []
      end
  | None => []
  end.

(** [v.includes] is the method of arrays: [v] is an array, or an object that
    inherits from one with no property named [includes] before it on the
    prototype chain.  (A property that came out of [JSON.parse] is never a
    function.) *)
Fixpoint hasArrayIncludes (v : jsval) : bool :=
  match v with
  | VArr _ => true
  | VProto proto props =>
      match lookup (lit "includes") props with
      | Some _ => false
      | None => hasArrayIncludes proto
      end
  | _ => false
  end.

(** [Array.prototype.includes.call(o, x)] for an object [o] that is no
    array: the generic algorithm of the runtime over [o.length] and the
    indices of [o], left open; [None] when it throws. *)
Variable arrayIncludes : jsval -> jsstring -> option bool.

(** [article.url && article.url.includes(REDIRECT)] as the filter reads it;
    [None] is a TypeError: [article] is [null], or [url] is a truthy value
    with no [includes] method. *)
Definition isRedirect (article : jsval) : option bool :=
  match getE article (lit "url") with
  | None => None
  | Some url =>
      if truthy url then
        match url with
        | VStr s => Some (includes REDIRECT s)
        | VArr items =>
            Some (existsb (fun x => match x with
                                    | VStr s => eqs s REDIRECT
                                    | _ => false
                                    end) items)
        | VProto _ _ =>
            if hasArrayIncludes url then arrayIncludes url REDIRECT else None
        | _ => None
        end
      else Some false
  end.

(** [array.filter(p)] for a predicate that may throw. *)
Fixpoint filterE (p : jsval -> option bool) (l : list jsval)
  : option (list jsval) :=
  match l with
  | [] => Some []
  | x :: l' =>
      match p x with
      | None => None
      | Some b =>
          match filterE p l' with
          | None => None
          | Some r => Some (if b then x :: r else r)
          end
      end
  end.

Definition nonEmpty {A : Type} (l : list A) : bool :=
  match l with [] => false | _ => true end.

(** The choice of the source tier; [None] when the filter throws. *)
Definition selectArticles (groundedArticles jsonArticles : list jsval)
  : option (list jsval) :=
  match filterE isRedirect (groundedArticles ++ jsonArticles) with
  | None => None
  | Some groundedRedirects =>
      Some (if nonEmpty groundedRedirects then groundedRedirects
            else if nonEmpty groundedArticles then groundedArticles
            else jsonArticles)
  end.

(** [new URL(x)] returns: the URL parser of the runtime, left open. *)
Variable urlConstructs : jsval -> bool.

(** [String(v)] returns, for an object or an array [v]: the conversion of
    the runtime, left open. *)
Variable objectConverts : jsval -> bool.

(** The body of the URL filter: [new URL(article.url)] in a [try] whose
    [catch] writes [article.url] into the template literal of a warning and
    answers [false]; [None] when the [catch] throws in its turn. *)
Definition urlOk (article : jsval) : option bool :=
  match getE article (lit "url") with
  | None => None
  | Some url =>
      if urlConstructs url then Some true
      else if converts objectConverts url then Some false
      else None
  end.

(** One line of the log of the first articles: [article.title] goes into a
    template literal and [article.url] through [substring], which only a
    string has.  [false] when the line throws. *)
Definition logs (article : jsval) : bool :=
  match getE article (lit "title"), getE article (lit "url") with
  | Some title, Some url => converts objectConverts title && isString url
  | _, _ => false
  end.

(** The [articles] the handler hands to [res.json]: the selection, the URL
    filter, the log of the first three.  [None] when one of them throws and
    the handler ends in [next(error)]. *)
Definition searchArticles (groundedArticles jsonArticles : list jsval)
  : option (list jsval) :=
  match selectArticles groundedArticles jsonArticles with
  | None => None
  | Some selected =>
      match filterE urlOk selected with
      | None => None
      | Some articles =>
          if forallb logs (firstn 3 articles) then Some articles else None
      end
  end.

End WithLowerCase.

(** *** [extractRelatedArticlesFromGrounding] *)

(** The grounding metadata of the SDK's response; [None] is an absent
    field. *)
Record webT := Web { uri : option jsstring; title : option jsstring }.
Record chunkT := Chunk { web : option webT }.
Record metadataT := Metadata { groundingChunks : option (list chunkT) }.
Record candidateT := Candidate { groundingMetadata : option metadataT }.
Record responseT := Response { candidates : option (list candidateT) }.

Definition mkArticle (title url : jsstring) : jsval :=
  VObj [(lit "title", VStr title); (lit "url", VStr url)].

(** The loop over the chunks of one candidate; [urls] is the set of URLs
    seen, [articles] the list built so far. *)
Fixpoint addChunks (chunks : list chunkT) (urls : list jsstring)
    (articles : list jsval) : list jsstring * list jsval :=
  match chunks with
  | [] => (urls, articles)
  | c :: rest =>
      match web c with
      | Some w =>
          match uri w with
          | Some (u :: us) =>
              let url := u :: us in
              let t := match title w with
                       | Some (x :: xs) => x :: xs
                       | _ => lit "Related Article"
                       end in
              if existsb (eqs url) urls then addChunks rest urls articles
              else addChunks rest (urls ++ [url]) (articles ++ [mkArticle t url])
          | _ => addChunks rest urls articles
          end
      | None => addChunks rest urls articles
      end
  end.

(** The loop over the candidates, left at the first one that gave
    articles. *)
Fixpoint addCandidates (cs : list candidateT) (urls : list jsstring)
    (articles : list jsval) : list jsval :=
  match cs with
  | [] => articles
  | c :: rest =>
      match groundingMetadata c with
      | Some (Metadata (Some chunks)) =>
          let (urls', articles') := addChunks chunks urls articles in
          if nonEmpty articles' then articles'
          else addCandidates rest urls' articles'
      | _ => addCandidates rest urls articles
      end
  end.

Definition extractRelatedArticlesFromGrounding (geminiResponse : responseT)
  : list jsval :=
  firstn 10
    (addCandidates
       (match candidates geminiResponse with Some cs => cs | None => [] end)
       [] []).

(** The [/search] handler after the call of the model: [response] is the
    reply, [responseText] the text of its first candidate. *)
Definition searchHandler (arrayIncludes : jsval -> jsstring -> option bool)
    (urlConstructs objectConverts : jsval -> bool)
    (response : responseT) (responseText : jsstring) : option (list jsval) :=
  searchArticles arrayIncludes urlConstructs objectConverts
    (extractRelatedArticlesFromGrounding response)
    (jsonArticlesOf responseText).

End Server.

(** ** backend/server.js: CORS, the analysis prompt and the [/analyze]
    handler *)

Module App.

Import Server.

(** *** The [origin] callback of [corsOptions] *)

(** The two variables of [process.env] the callback reads; [None] is an
    unset variable. *)
Record env := Env {
  NODE_ENV : option (list N);
  ALLOWED_EXTENSION_ID : option (list N)
}.

(** [callback(null, true)], or [callback(new Error(message))]. *)
Inductive verdict :=
| Allow
| Deny (message : list N).

Definition EXTENSION : list N := lit "chrome-extension://".

(** [process.env.NODE_ENV === mode]. *)
Definition nodeEnvIs (e : env) (mode : list N) : bool :=
  match NODE_ENV e with
  | Some x => eqs x mode
  | None => false
  end.

(** [origin] is the [Origin] header, [None] when the request has none. *)
Definition corsOrigin (e : env) (origin : option (list N)) : verdict :=
  let absent := match origin with Some (_ :: _) => false | _ => true end in
  if absent || startsWith EXTENSION (match origin with Some o => o | None => [] end)
  then
    match (if nodeEnvIs e (lit "production") then ALLOWED_EXTENSION_ID e
           else None) with
    | Some (c :: id) =>
        let allowedOrigin := EXTENSION ++ c :: id in
        if match origin with Some o => eqs o allowedOrigin | None => false end
        then Allow
        else Deny (lit "Not allowed by CORS - invalid extension ID")
    | _ => Allow
    end
  else if nodeEnvIs e (lit "development") then Allow
  else Deny (lit "Not allowed by CORS").

(** *** [buildAnalysisPrompt] *)

(** The lines of a template literal. *)
Definition lines (ls : list (list N)) : list N := join [LF] ls.

Definition ARTICLE_MAX : Z := 10000.

(** The article as the prompt quotes it. *)
Definition trimmedArticle (article : list N) : list N :=
  if ARTICLE_MAX <? len article
  then slice0 ARTICLE_MAX article ++ lit "..."
  else article.

Definition conceptsText (concepts : list (list N)) : list N :=
  if 0 <? lengthOf concepts
  then join (lit ", ") concepts
  else lit "identify 3-5 key terms from the article".

(** The template up to the article, between the article and the concepts,
    and after the concepts. *)
Definition promptHead : list N :=
  lines [lit "Analyze the following article and extract key information.";
         [];
         lit "ARTICLE CONTENT:";
         []].

Definition promptBody : list N :=
  lines [[];
         [];
         lit "Return ONLY a JSON object with this exact structure:";
         lit "{";
         litq "  'definitions': [";
         litq "    {'term': 'term1', 'definition': 'definition1'},";
         litq "    {'term': 'term2', 'definition': 'definition2'}";
         lit "  ],";
         litq "  'arguments': {";
         litq "    'main': ['argument1', 'argument2'],";
         litq "    'counter': ['counter1', 'counter2']";
         lit "  }";
         lit "}";
         [];
         lit "REQUIREMENTS:";
         lit "- Definitions should focus on: "].

Definition promptTail : list N :=
  lines [[];
         lit "- Identify 3-5 key terms with clear, concise definitions";
         lit "- Extract 2-5 main arguments from the article";
         lit "- Extract 1-3 counter-arguments if present in the article";
         lit "- Base analysis ONLY on the article content provided above";
         lit "- Do NOT include citation numbers or references in your response"].

(** [buildAnalysisPrompt(article, concepts)] on a string and an array of
    strings, which is what the handler passes. *)
Definition buildAnalysisPrompt (article : list N) (concepts : list (list N))
  : list N :=
  promptHead ++ trimmedArticle article ++ promptBody
  ++ conceptsText concepts ++ promptTail.

(** *** The [/analyze] handler *)

Section Analyze.

Variable lowerOther : N -> list N.

(** [model.generateContent(...)] followed by [result.response.text()]: the
    text of the reply to a prompt, or [None] when either throws. *)
Variable generate : list N -> option (list N).

(** How the handler ends: [res.status(status).json(body)], or
    [next(error)]. *)
Inductive reply :=
| Json (status : Z) (body : jsval)
| NextError.

(** The prompt sent to the model, if the handler got that far, and the end
    of the handler. *)
Record outcome := Outcome { prompt : option (list N); sent : reply }.

Definition badRequest (message : list N) : outcome :=
  Outcome None (Json 400 (VObj [(lit "error", VStr message)])).

(** The checks of [concepts]: the message of the first one that fails. *)
Definition conceptsError (concepts : jsval) : option (list N) :=
  match concepts with
  | VUndefined => None
  | VArr items =>
      if 20 <? lengthOf items
      then Some (lit "Too many concepts. Maximum 20 allowed.")
      else if forallb isString items then None
      else Some (lit "Invalid concept type: all concepts must be strings")
  | _ => Some (lit "Invalid field type: concepts must be an array")
  end.

(** The body sent, after the reads of the summary that is logged first:
    [None] when one of them is a read of [undefined] or [null]. *)
Definition responseOf (parsedResponse : jsval) : option jsval :=
  match getE parsedResponse (lit "definitions"),
        getE parsedResponse (lit "arguments") with
  | Some definitions, Some arguments =>
      match getE arguments (lit "main"), getE arguments (lit "counter") with
      | Some main, Some counter =>
          if nullish definitions || nullish main || nullish counter then None
          else Some (VObj [(lit "definitions", definitions);
                           (lit "arguments", arguments)])
      | _, _ => None
      end
  | _, _ => None
  end.

(** The handler on the parsed body of the request. *)
Definition analyzeHandler (body : jsval) : outcome :=
  match getE body (lit "article"), getE body (lit "concepts") with
  | Some article, Some concepts =>
      if negb (truthy article)
      then badRequest (lit "Missing required field: article")
      else if negb (isString article)
      then badRequest (lit "Invalid field type: article must be a string")
      else if len (trim (strOf article)) =? 0
      then badRequest (lit "Article text cannot be empty")
      else if 500000 <? len (strOf article)
      then badRequest
             (lit "Article text is too long. Maximum 500,000 characters allowed.")
      else
        match conceptsError concepts with
        | Some message => badRequest message
        | None =>
            let prompt :=
              buildAnalysisPrompt (strOf article)
                (List.map strOf (itemsOf concepts)) in
            match generate prompt with
            | Some responseText =>
                let parsedResponse := parseGeminiResponse lowerOther responseText in
                match responseOf parsedResponse with
                | Some response => Outcome (Some prompt) (Json 200 response)
                | None => Outcome (Some prompt) NextError
                end
            | None => Outcome (Some prompt) NextError
            end
        end
  | _, _ => Outcome None NextError
  end.

End Analyze.

End App.
(** ** extension/content.js: the length cap of [extractArticleText] *)

Module Content.

Definition MAX_TEXT : Z := 60000.

(** The cap applied to [combined], the text of the winning candidate. *)
Definition capText (combined : jsstring) : jsstring :=
  if MAX_TEXT <? len combined then
    let truncated := slice0 MAX_TEXT combined in
    let lastPeriod := lastIndexOf (N_of_ascii ".") truncated in
    if 1000 <? lastPeriod then slice0 (lastPeriod + 1) truncated else truncated
  else combined.

End Content.

(** ** extension/content.js: [extractArticleText] and the message listener

    The page is what the script reads of it.  The calls of the DOM
    ([querySelectorAll], [cloneNode], [remove]) are taken to return, so the
    [catch] branches around them are not entered. *)

Module ContentScript.

Import Content.

(** What the script reads of an element. *)
Record element := Element {
  (** [el.tagName.toLowerCase()], [''] when there is no tag name. *)
  tagName : list N;
  (** [el.getAttribute('role')]; [None] is [null]. *)
  role : option (list N);
  (** [el.querySelector('h1')] finds an element. *)
  hasH1 : bool;
  (** [clone.innerText || ''] of the clone without the nodes under
      [EXCLUDE_SELECTORS]. *)
  cleanText : list N;
  (** [p.innerText || ''] of each [p] under the element, in order. *)
  paragraphs : list (list N)
}.

(** What the script reads of the page. *)
Record page := Page {
  (** The elements the selectors of [EXTRACTION_SELECTORS] find, each once,
      in the order the first loop collects them. *)
  candidates : list element;
  (** [document.body]. *)
  body : element;
  (** [window.location.href], [document.title || ''], and the
      [innerText || ''] of the first [h1], if there is one. *)
  href : list N;
  title : list N;
  h1 : option (list N)
}.

Definition MIN_TEXT_LENGTH : Z := 100.

Definition textLengthExcludingNoise (el : element) : Z :=
  len (trim (cleanText el)).

(** The [score] and the [len] of [scoreElement(el)]. *)
Definition scoreElement (el : element) : Z * Z :=
  let len := textLengthExcludingNoise el in
  let score := len in
  let tag := tagName el in
  let score := if eqs tag (lit "article") then score + 50000 else score in
  let score :=
    if match role el with Some r => eqs r (lit "article") | None => false end
    then score + 40000 else score in
  let score := if hasH1 el then score + 5000 else score in
  let score := if eqs tag (lit "body") then score - 20000 else score in
  let score := if eqs tag (lit "main") then score - 5000 else score in
  (score, len).

(** The loop that keeps the candidate of the highest score: [best] and
    [bestMetrics] go in and come out. *)
Fixpoint pickBest (els : list element) (best : option element)
    (bestMetrics : Z * Z) : option element * (Z * Z) :=
  match els with
  | [] => (best, bestMetrics)
  | el :: rest =>
      let metrics := scoreElement el in
      if bestMetrics.1 <? metrics.1
      then pickBest rest (Some el) metrics
      else pickBest rest best bestMetrics
  end.

(** The text of the winning candidate before the cap. *)
Definition combinedText (best : element) : list N :=
  let paras :=
    List.filter (fun t => 40 <=? len t) (List.map trim (paragraphs best)) in
  let combined := join [LF; LF] paras in
  if len combined <? MIN_TEXT_LENGTH then trim (cleanText best) else combined.

(** The fallback: the filtered text of [document.body]. *)
Definition bodyFallback (p : page) : list N :=
  let bodyText := trim (cleanText (body p)) in
  if MIN_TEXT_LENGTH <=? len bodyText then bodyText else [].

Definition extractArticleText (p : page) : list N :=
  match pickBest (candidates p) None (0, 0) with
  | (Some best, bestMetrics) =>
      if MIN_TEXT_LENGTH <=? bestMetrics.2
      then capText (combinedText best)
      else bodyFallback p
  | (None, _) => bodyFallback p
  end.

(** The argument of [sendResponse]. *)
Record response := Response {
  success : bool;
  error : option (list N);
  text : list N;
  url : list N;
  res_title : list N;
  heading : list N
}.

(** The listener on a message of type [GET_TEXT]. *)
Definition onGetText (p : page) : response :=
  let text := extractArticleText p in
  let heading := match h1 p with Some t => trim t | None => [] end in
  if len text <? MIN_TEXT_LENGTH then
    Response false (Some (lit "No article content found on this page.")) []
      (href p) (title p) heading
  else Response true None text (href p) (title p) heading.

End ContentScript.
(** ** The popup script: [handleDeepDiveAnalysis] *)

Module Popup.

Import CacheManager.

(** How a promise settles. *)
Inductive settled (A : Type) :=
| Fulfilled (a : A)
| Rejected.
Arguments Fulfilled {A} a.
Arguments Rejected {A}.

(** What one invocation meets outside itself. *)
Record world := World {
  isProcessing : bool;
  (** [getPageText()]: the [text] and the [url]. *)
  pageText : settled (jsstring * jsstring);
  (** [this.preGeneratedSearchQuery] once [waitForSearchQuery()] returns. *)
  searchQuery : option jsstring;
  (** The body of an [ok] reply of [/search]; every other end of the round
      trip rejects. *)
  searchReply : settled jsval;
  (** The same for [/analyze]. *)
  analysisReply : settled jsval;
  (** [Date.now()] when the cache is read, and when it is written. *)
  clockAtRead : Z;
  clockAtWrite : Z
}.

(** What the invocation does, in order. *)
Inductive event :=
| DisplayCached (v : jsval)
| StartSearch
| StartAnalysis
| AwaitedAnalysis
| AwaitedSearch
| CacheSet (key : jsstring) (v : jsval)
| DisplayError.

(** [fetchRelatedArticles(searchQuery)]. *)
Definition fetchRelatedArticles (w : world) : settled jsval :=
  match searchQuery w with
  | Some (_ :: _) =>
      match searchReply w with
      | Fulfilled result =>
          match getE result (lit "articles") with
          | Some articles =>
              Fulfilled (if truthy articles then articles else VArr [])
          | None => Rejected
          end
      | Rejected => Rejected
      end
  | _ => Fulfilled (VArr [])
  end.

(** [fetchAnalysis(text, [])]. *)
Definition fetchAnalysis (w : world) : settled jsval := analysisReply w.

Definition DEEP_DIVE : jsstring := lit ":deep-dive".

(** The object literal cached at the end. *)
Definition combinedResult (relatedArticles definitions arguments : jsval)
  : jsval :=
  VObj [(lit "relatedArticles", relatedArticles);
        (lit "definitions", definitions);
        (lit "arguments", arguments)].

(** The cached value the invocation displays, if any: the entry is valid
    and its value is truthy. *)
Definition cachedValue (w : world) (cacheKey : jsstring)
    (storage : gmap (list N) (entry jsval)) : option jsval :=
  if isValid (clockAtRead w) cacheKey storage then
    match get cacheKey storage with
    | Some cached => if truthy (value cached) then Some (value cached) else None
    | None => None
    end
  else None.

(** One invocation: the store it leaves and what it did. *)
Definition handleDeepDiveAnalysis (w : world)
    (storage : gmap (list N) (entry jsval))
  : gmap (list N) (entry jsval) * list event :=
  if isProcessing w then (storage, [])
  else
    match pageText w with
    | Rejected => (storage, [DisplayError])
    | Fulfilled (text, url) =>
        let cacheKey := generateCacheKey url text ++ DEEP_DIVE in
        match cachedValue w cacheKey storage with
        | Some v => (storage, [DisplayCached v])
        | None =>
            let searchPromise := fetchRelatedArticles w in
            let analysisPromise := fetchAnalysis w in
            let started := [StartSearch; StartAnalysis] in
            match analysisPromise with
            | Rejected => (storage, started ++ [AwaitedAnalysis; DisplayError])
            | Fulfilled analysis =>
                let relatedArticles :=
                  match searchPromise with
                  | Fulfilled articles => articles
                  | Rejected => VArr []
                  end in
                let awaited := started ++ [AwaitedAnalysis; AwaitedSearch] in
                match getE analysis (lit "definitions"),
                      getE analysis (lit "arguments") with
                | Some definitions, Some arguments =>
                    let combined :=
                      combinedResult relatedArticles definitions arguments in
                    (set (clockAtWrite w) cacheKey combined None storage,
                     awaited ++ [CacheSet cacheKey combined])
                | _, _ => (storage, awaited ++ [DisplayError])
                end
            end
        end
    end.

End Popup.

(** ** The popup script: [ErrorHandler] *)

Module ErrorHandler.

(** An [Error] object: its [name] and its [message]. *)
Record error := Error { name : list N; error_message : list N }.

(** An entry of [errorMap], and what [handle] returns (without the
    [originalError] it adds). *)
Record info := Info { message : list N; action : list N; recoverable : bool }.

Definition QuotaExceededError : info :=
  Info (lit "Article is too long for instant summary. Try selecting a shorter section.")
       (lit "truncate") false.

Definition NetworkError : info :=
  Info (lit "Unable to connect to analysis service. Please check your internet connection.")
       (lit "retry") true.

Definition TimeoutError : info :=
  Info (lit "Request timed out. The server took too long to respond.")
       (lit "retry") true.

Definition ConnectionRefusedError : info :=
  Info (lit "Connection refused. The analysis service may be temporarily unavailable.")
       (lit "retry") true.

Definition ServerError : info :=
  Info (lit "Server error occurred. Please try again later.")
       (lit "retry") true.

Definition RateLimitError : info :=
  Info (lit "Rate limit exceeded. Please wait a moment and try again.")
       (lit "retry") true.

Definition TypeError : info :=
  Info (lit "An unexpected error occurred. Please try again.")
       (lit "reload") false.

Definition NoContentError : info :=
  Info (lit "No article content found on this page. Try navigating to a regular website (news article, blog post, or documentation site) to use this feature.")
       (lit "none") false.

Definition APIUnavailableError : info :=
  Info (lit "Summarizer API is not available. Please use Chrome Canary/Beta with AI features enabled.")
       (lit "none") false.

Definition UserActivationError : info :=
  Info (lit "Please click the button again to activate the summarizer.")
       (lit "retry") true.

Definition UnsupportedContextError : info :=
  Info (lit "Summarizer API must be called from the popup window. Please try again.")
       (lit "reload") false.

Definition errorMap : list (list N * info) :=
  [(lit "QuotaExceededError", QuotaExceededError);
   (lit "NetworkError", NetworkError);
   (lit "TimeoutError", TimeoutError);
   (lit "ConnectionRefusedError", ConnectionRefusedError);
   (lit "ServerError", ServerError);
   (lit "RateLimitError", RateLimitError);
   (lit "TypeError", TypeError);
   (lit "NoContentError", NoContentError);
   (lit "APIUnavailableError", APIUnavailableError);
   (lit "UserActivationError", UserActivationError);
   (lit "UnsupportedContextError", UnsupportedContextError)].

(** The own property of [errorMap] named [k]. *)
Fixpoint ownEntry (k : list N) (m : list (list N * info)) : option info :=
  match m with
  | [] => None
  | (k', i) :: rest => if eqs k k' then Some i else ownEntry k rest
  end.

(** The names [errorMap], an object literal, inherits from
    [Object.prototype].  A read of one of them finds a truthy value that is
    no entry. *)
Definition inheritedNames : list (list N) :=
  [lit "constructor"; lit "__defineGetter__"; lit "__defineSetter__";
   lit "hasOwnProperty"; lit "__lookupGetter__"; lit "__lookupSetter__";
   lit "isPrototypeOf"; lit "propertyIsEnumerable"; lit "toString";
   lit "valueOf"; lit "__proto__"; lit "toLocaleString"].

(** [error.message.includes(word)]. *)
Definition mentions (e : error) (word : list N) : bool :=
  includes word (error_message e).

(** [handle(error, context)].  [None] is the object that has an
    [originalError] only, neither [message] nor [action] nor [recoverable]:
    the spread of the inherited value that the name of the error found. *)
Definition handle (e : error) : option info :=
  match ownEntry (name e) errorMap with
  | Some errorInfo => Some errorInfo
  | None =>
      if existsb (eqs (name e)) inheritedNames then None
      else if mentions e (lit "timeout") || mentions e (lit "timed out")
      then Some TimeoutError
      else if mentions e (lit "refused") || mentions e (lit "ECONNREFUSED")
      then Some ConnectionRefusedError
      else if mentions e (lit "rate limit") || mentions e (lit "429")
      then Some RateLimitError
      else if mentions e (lit "500") || mentions e (lit "502")
              || mentions e (lit "503")
      then Some ServerError
      else if mentions e (lit "network") || mentions e (lit "fetch")
      then Some NetworkError
      else
        Some (Info (match error_message e with
                    | [] => lit "An unknown error occurred. Please try again."
                    | c :: m => c :: m
                    end)
                (lit "none") false)
  end.

(** [errorInfo.recoverable] as a condition: [undefined] is falsy. *)
Definition isRecoverable (e : error) : bool :=
  match handle e with
  | Some errorInfo => recoverable errorInfo
  | None => false
  end.

(** *** [withRetry] *)

(** What the wrapper does, in order. *)
Inductive event :=
| Call
| Sleep (ms : Z).

Section Retry.

(** The type of what the wrapped function returns. *)
Context {V : Type}.

(** What the wrapped function does at its calls, the first one numbered
    [0]: it returns a value, or throws. *)
Variable fn : nat -> V + error.

(** How the wrapper ends; [ThrownUndefined] is [throw lastError] with no
    error caught. *)
Inductive outcome :=
| Returned (v : V)
| Thrown (e : error)
| ThrownUndefined.

(** The [for] loop with [n] iterations left to go: what it does, how it
    ends, and the value it leaves in [delay], a variable of the closure that
    the calls of the wrapper share. *)
Fixpoint attempts (n : nat) (attempt : nat) (maxRetries delay : Z)
    (lastError : option error) : list event * outcome * Z :=
  match n with
  | O =>
      ([],
       match lastError with Some e => Thrown e | None => ThrownUndefined end,
       delay)
  | S n' =>
      match fn attempt with
      | inl v => ([Call], Returned v, delay)
      | inr e =>
          if negb (isRecoverable e) || (Z.of_nat attempt =? maxRetries)
          then ([Call], Thrown e, delay)
          else
            let '(events, end_, delay') :=
              attempts n' (S attempt) maxRetries (delay * 2) (Some e) in
            (Call :: Sleep delay :: events, end_, delay')
      end
  end.

(** One call of the function that [withRetry(fn, maxRetries = 3,
    delay = 1000)] returns, for an integer [maxRetries]; [delay] is the
    value of the variable when the call begins. *)
Definition withRetry (maxRetries delay : Z) : list event * outcome * Z :=
  attempts (Z.to_nat (maxRetries + 1)) 0 maxRetries delay None.

End Retry.

Arguments outcome : clear implicits.

End ErrorHandler.
(** ** The popup script: [SummarizerService.truncateToLimit] *)

Module SummarizerService.

(** [[.!?]]. *)
Definition isSentenceEnd (c : N) : bool :=
  isCh "." c || isCh "!" c || isCh "?" c.

(** [/[.!?]\s/g]. *)
Definition sentenceEndings {A : Type} (k : @cont A) : cont :=
  chr isSentenceEnd (chr isWhiteSpace k).

(** [truncateToLimit(text, maxChars = 10000)] for an integer [maxChars]. *)
Definition truncateToLimit (text : list N) (maxChars : Z) : list N :=
  if len text <=? maxChars then text
  else
    let truncated := substringTo maxChars text in
    match lastExec (S (length truncated)) sentenceEndings truncated 0 None with
    | Some index => trim (substringTo (index + 1) text)
    | None =>
        let lastSpace := lastIndexOf SP truncated in
        if 0 <? lastSpace then trim (substringTo lastSpace text)
        else trim truncated
    end.

(** What [checkAvailability()] returns; [None] is a property the object
    lacks. *)
Record availabilityInfo := Availability {
  available : bool;
  reason : list N;
  needsDownload : option bool
}.

(** [checkAvailability()]: [present] is ['Summarizer' in self], and
    [availability] how [Summarizer.availability()] ends, with a state or
    with the error thrown. *)
Definition checkAvailability (present : bool)
    (availability : ErrorHandler.error + list N) : availabilityInfo :=
  if negb present then
    Availability false
      (lit "API not found. Please use Chrome Canary/Beta with AI features enabled.")
      None
  else
    match availability with
    | inr state =>
        Availability (negb (eqs state (lit "unavailable"))) state
          (Some (eqs state (lit "downloadable")))
    | inl e =>
        Availability false
          (lit "Error checking availability: " ++ ErrorHandler.error_message e)
          None
    end.

(** [summarize(text, context, onProgress)]: [created] is the error of
    [Summarizer.create] when [initialize] fails, and [api] how the
    [summarize] of the API ends on the text handed to it. *)
Definition summarize (text : list N) (created : option ErrorHandler.error)
    (api : list N -> ErrorHandler.error + list N)
  : ErrorHandler.error + list N :=
  match created with
  | Some e =>
      inl (ErrorHandler.Error (lit "Error")
             (lit "Failed to initialize summarizer: "
              ++ ErrorHandler.error_message e))
  | None =>
      let textToSummarize := truncateToLimit text 10000 in
      match api textToSummarize with
      | inr summary => inr summary
      | inl e =>
          inl (ErrorHandler.Error (lit "Error")
                 (lit "Summarization failed: " ++ ErrorHandler.error_message e))
      end
  end.

End SummarizerService.
(** ** The popup script: [SettingsManager] *)

Module SettingsManager.

(** [chrome.storage.sync]: the values stored, by key. *)
Abbreviation storage := (gmap (list N) jsval) (only parsing).

Definition MODE : list N := lit "queryGenerationMode".

(** [this.defaults] of the popup script. *)
Definition defaults : list (list N * jsval) :=
  [(MODE, VStr (lit "immediate"))].

(** [get(key)], for a key that no prototype defines:
    [result[key] ?? this.defaults[key]]. *)
Definition get (key : list N) (st : storage) : jsval :=
  let stored := match st !! key with Some v => v | None => VUndefined end in
  if nullish stored
  then match lookup key defaults with Some d => d | None => VUndefined end
  else stored.

(** [set(key, value)]. *)
Definition set (key : list N) (value : jsval) (st : storage) : storage :=
  <[key := value]> st.

(** [getAll()]: the stored values over the defaults. *)
Definition getAll (st : storage) : storage :=
  st ∪ list_to_map defaults.

(** What [handleSettingsChange()] stores for the state of the checkbox. *)
Definition saveMode (checked : bool) (st : storage) : storage :=
  set MODE (VStr (if checked then lit "immediate" else lit "on-demand")) st.

(** The state that [init()] gives the checkbox. *)
Definition loadMode (st : storage) : bool :=
  match get MODE st with
  | VStr mode => eqs mode (lit "immediate")
  | _ => false
  end.

End SettingsManager.
(** ** The popup script: [getPageText] and the calls of the backend *)

Module DeepDiveAssistant.

Import ErrorHandler.

(** How a promise ends; [Pending] is one that never settles. *)
Inductive promise (A : Type) :=
| Resolved (a : A)
| RejectedWith (e : error)
| Pending.
Arguments Resolved {A} a.
Arguments RejectedWith {A} e.
Arguments Pending {A}.

(** *** [getPageText] *)

(** A tab as [chrome.tabs.query] reports it: its [url], [None] when the
    extension may not read it. *)
Record tab := Tab { tab_url : option (list N) }.

(** What the callback of [chrome.tabs.sendMessage] finds:
    [chrome.runtime.lastError] with its message, or the response of the
    content script, [None] when there is none. *)
Inductive delivery :=
| LastError (message : list N)
| Delivered (response : option ContentScript.response).

Definition restrictedProtocols : list (list N) :=
  [lit "chrome:"; lit "chrome-extension:"; lit "edge:"; lit "about:";
   lit "moz-extension:"; lit "safari-extension:"].

(** [new Error(message)] with its [name] set to [NoContentError]. *)
Definition noContent (message : list N) : error :=
  Error (lit "NoContentError") message.

(** [tabs] is the answer of [chrome.tabs.query], [None] when it is
    [undefined]; [send] gives what comes back from the content script of the
    active tab.  A tab without [url] makes the callback throw, and the
    promise is never settled. *)
Definition getPageText (tabs : option (list tab)) (send : delivery)
  : promise ContentScript.response :=
  match tabs with
  | Some (activeTab :: _) =>
      match tab_url activeTab with
      | None => Pending
      | Some url =>
          if existsb (fun protocol => startsWith protocol url) restrictedProtocols
          then
            RejectedWith
              (noContent
                 (lit "This extension cannot analyze Chrome internal pages or extension pages. Please navigate to a regular website (like a news article, blog post, or documentation site) to use this feature."))
          else
            match send with
            | LastError message => RejectedWith (Error (lit "Error") message)
            | Delivered None =>
                RejectedWith
                  (noContent (lit "No article content found on this page."))
            | Delivered (Some response) =>
                match ContentScript.text response with
                | [] =>
                    RejectedWith
                      (noContent (lit "No article content found on this page."))
                | _ :: _ =>
                    if len (trim (ContentScript.text response)) <? 100
                    then
                      RejectedWith
                        (noContent
                           (lit "Article content is too short to analyze."))
                    else Resolved response
                end
            end
      end
  | _ => RejectedWith (Error (lit "Error") (lit "No active tab found"))
  end.

(** *** [fetchAnalysis] and [fetchRelatedArticles] *)

(** A response of [fetch]: its status, and how [response.json()] ends, with
    the parsed body or with the error it rejects with. *)
Record httpResponse := Http { status : Z; json : error + jsval }.

(** [response.ok]: a status from 200 to 299. *)
Definition ok (r : httpResponse) : bool :=
  (200 <=? status r) && (status r <=? 299).

(** How [fetch] ends: it rejects, or resolves with a response. *)
Inductive fetched :=
| Failed (e : error)
| Replied (r : httpResponse).

Section Fetch.

(** [String(v)] for a value that is not a string, a conversion of the
    runtime left open. *)
Variable stringOfOther : jsval -> list N.

Definition toStr (v : jsval) : list N :=
  match v with
  | VStr s => s
  | _ => stringOfOther v
  end.

(** [String(v)] returns, for an object or an array [v]: the conversion of
    the runtime, left open. *)
Variable objectConverts : jsval -> bool.

(** The message of the [TypeError] of a conversion that throws. *)
Variable cannotConvert : list N.

(** [new Error(message)] and [error.name = name] after it: the constructor
    converts [message] to a string, and where the conversion throws, its
    [TypeError] is what is thrown. *)
Definition newError (name : list N) (message : jsval) : error :=
  if converts objectConverts message then Error name (toStr message)
  else Error (lit "TypeError") cannotConvert.

(** The message of the [TypeError] the runtime throws on a read of a
    property of [null]. *)
Variable readOfNull : list N -> list N.

(** [response.json().catch(() => ({}))]. *)
Definition errorDataOf (r : httpResponse) : jsval :=
  match json r with
  | inr v => v
  | inl _ => VObj []
  end.

(** [fetchAnalysis(text, concepts)], on how its [fetch] ends. *)
Definition fetchAnalysis (f : fetched) : promise jsval :=
  match f with
  | Failed e => RejectedWith e
  | Replied response =>
      if negb (ok response) then
        let errorData := errorDataOf response in
        match getE errorData (lit "error"), getE errorData (lit "message") with
        | Some e1, Some e2 =>
            let errorMessage :=
              if truthy e1 then e1
              else if truthy e2 then e2
              else VStr (lit "Analysis failed: "
                         ++ toStr (VNum (status response) 0)) in
            RejectedWith
              (newError
                 (if status response =? 429 then lit "RateLimitError"
                  else if 500 <=? status response then lit "ServerError"
                  else lit "NetworkError")
                 errorMessage)
        | _, _ =>
            RejectedWith (Error (lit "TypeError") (readOfNull (lit "error")))
        end
      else
        match json response with
        | inr v => Resolved v
        | inl e => RejectedWith e
        end
  end.

(** [fetchRelatedArticles(searchQuery)], on how its [fetch] ends; [None] is
    a query that is [null]. *)
Definition fetchRelatedArticles (searchQuery : option (list N)) (f : fetched)
  : promise jsval :=
  match searchQuery with
  | Some (_ :: _) =>
      match f with
      | Failed e => RejectedWith e
      | Replied response =>
          if negb (ok response) then
            let errorData := errorDataOf response in
            match getE errorData (lit "error") with
            | Some e1 =>
                RejectedWith
                  (newError (lit "Error")
                     (if truthy e1 then e1
                      else VStr (lit "Search failed: "
                                 ++ toStr (VNum (status response) 0))))
            | None =>
                RejectedWith (Error (lit "TypeError") (readOfNull (lit "error")))
            end
          else
            match json response with
            | inr result =>
                match getE result (lit "articles") with
                | Some articles =>
                    Resolved (if truthy articles then articles else VArr [])
                | None =>
                    RejectedWith
                      (Error (lit "TypeError") (readOfNull (lit "articles")))
                end
            | inl e => RejectedWith e
            end
      end
  | _ => Resolved (VArr [])
  end.

End Fetch.

End DeepDiveAssistant.
(** ** The popup script: [handleInstantSummary] *)

Module InstantSummary.

Import ErrorHandler SummarizerService DeepDiveAssistant.

(** What one invocation meets outside itself. *)
Record world := World {
  isProcessing : bool;
  (** ['Summarizer' in self], and how [Summarizer.availability()] ends. *)
  summarizerPresent : bool;
  availability : error + list N;
  (** [navigator.userActivation?.isActive || false]. *)
  userActivation : bool;
  (** What [getPageText] meets. *)
  tabs : option (list tab);
  sent : delivery;
  (** How [Summarizer.create] and the [summarize] of the API end. *)
  created : option error;
  api : list N -> error + list N;
  (** The message of the [TypeError] of [renderMarkdown] on a cached value
      that is no string. *)
  notRenderable : jsval -> list N;
  (** [Date.now()] when the cache is read, and when it is written. *)
  clockAtRead : Z;
  clockAtWrite : Z
}.

(** What the invocation does, in order; [DisplayError] carries what
    [handle] returned. *)
Inductive event :=
| ShowLoading
| HideLoading
| DisplayCached (summary : list N)
| Summarize (input : list N)
| CacheSet (key : list N) (v : jsval)
| DisplaySummary (summary : list N)
| DisplayError (errorInfo : option info).

(** The [catch] and the [finally] after the events so far. *)
Definition caught (storage : gmap (list N) (CacheManager.entry jsval))
    (events : list event) (e : error)
  : gmap (list N) (CacheManager.entry jsval) * list event * bool :=
  (storage, events ++ [DisplayError (handle e); HideLoading], true).

(** One invocation: the store it leaves, what it did, and whether it came
    to its end. *)
Definition handleInstantSummary (w : world)
    (storage : gmap (list N) (CacheManager.entry jsval))
  : gmap (list N) (CacheManager.entry jsval) * list event * bool :=
  if isProcessing w then (storage, [], true)
  else
    let availability := checkAvailability (summarizerPresent w) (availability w) in
    if negb (available availability) then
      caught storage [ShowLoading]
        (Error (lit "APIUnavailableError") (reason availability))
    else if negb (userActivation w) then
      caught storage [ShowLoading]
        (Error (lit "UserActivationError")
           (lit "User activation required. Please click the button again."))
    else
      match getPageText (tabs w) (sent w) with
      | Pending => (storage, [ShowLoading], false)
      | RejectedWith e => caught storage [ShowLoading] e
      | Resolved page =>
          let text := ContentScript.text page in
          let url := ContentScript.url page in
          let cacheKey := CacheManager.generateCacheKey url text in
          if CacheManager.isValid (clockAtRead w) cacheKey storage then
            match CacheManager.get cacheKey storage with
            | Some cached =>
                match CacheManager.value cached with
                | VStr summary =>
                    (storage,
                     [ShowLoading; DisplayCached summary; HideLoading;
                      HideLoading],
                     true)
                | v =>
                    caught storage [ShowLoading]
                      (Error (lit "TypeError") (notRenderable w v))
                end
            | None =>
                caught storage [ShowLoading]
                  (Error (lit "TypeError") (notRenderable w VNull))
            end
          else
            let called :=
              match created w with
              | Some _ => []
              | None => [Summarize (truncateToLimit text 10000)]
              end in
            match summarize text (created w) (api w) with
            | inl e => caught storage (ShowLoading :: called) e
            | inr summary =>
                (CacheManager.set (clockAtWrite w) cacheKey (VStr summary) None
                   storage,
                 ShowLoading :: called
                 ++ [CacheSet cacheKey (VStr summary); DisplaySummary summary;
                     HideLoading],
                 true)
            end
      end.

End InstantSummary.
(** ** The popup script: [renderMarkdown] *)

Module Render.

(** [.] without the [s] flag: any code unit but a line terminator. *)
Definition dot (c : N) : bool :=
  negb ((c =? 10) || (c =? 13) || (c =? 8232) || (c =? 8233))%N.

(** [s.replace(/re/g, rep)] where the replacement depends on the match: [m]
    answers, for a match at the current position, with the text to put in
    its place and the input left.  After an empty match the scan copies one
    code unit and moves on. *)
Fixpoint replaceEach (fuel : nat) (m : list N -> option (list N * list N))
    (s : list N) : list N :=
  match fuel with
  | O => s
  | S f =>
      match m s with
      | Some (rep, rest) =>
          if (length rest <? length s)%nat then rep ++ replaceEach f m rest
          else match s with
               | [] => rep
               | c :: s' => rep ++ c :: replaceEach f m s'
               end
      | None =>
          match s with
          | [] => []
          | c :: s' => c :: replaceEach f m s'
          end
      end
  end.

(** [/\*\*(.+?)\*\*/] with the replacement [<strong>$1</strong>]. *)
Definition boldRe : list N -> option (list N * list N) :=
  str (lit "**")
    (group (fun k => chr dot (lazyStar dot k))
       (fun inner =>
          str (lit "**")
            (fun rest =>
               Some (lit "<strong>" ++ inner ++ lit "</strong>", rest)))).

(** [/\*(.+?)\*/] with the replacement [<em>$1</em>]. *)
Definition italicRe : list N -> option (list N * list N) :=
  str (lit "*")
    (group (fun k => chr dot (lazyStar dot k))
       (fun inner =>
          str (lit "*")
            (fun rest => Some (lit "<em>" ++ inner ++ lit "</em>", rest)))).

(** [s.split('\n')]: [line] is the line read so far. *)
Fixpoint splitFrom (s : list N) (line : list N) : list (list N) :=
  match s with
  | [] => [line]
  | c :: s' =>
      if (c =? 10)%N then line :: splitFrom s' [] else splitFrom s' (line ++ [c])
  end.

Definition split (s : list N) : list (list N) := splitFrom s [].

(** [[-*]]. *)
Definition isBullet (c : N) : bool := isCh "-" c || isCh "*" c.

(** [$]: the end of the input. *)
Definition atEnd {A : Type} (a : A) : @cont A :=
  fun s => match s with [] => Some a | _ :: _ => None end.

(** [line.match(/^[\s]*[-*]\s+(.+)$/)], group 1: anchored at the start of
    the line. *)
Definition bulletMatch (line : list N) : option (list N) :=
  star isWhiteSpace
    (chr isBullet
       (plus isWhiteSpace
          (group (plus dot) (fun item => atEnd item))))
    line.

Definition UL : list N := lit "<ul>".
Definition UL_END : list N := lit "</ul>".

Definition li (item : list N) : list N := lit "<li>" ++ item ++ lit "</li>".
Definition p (line : list N) : list N := lit "<p>" ++ line ++ lit "</p>".

(** The loop over the lines, and the closing of a list left open:
    what it pushes on [processedLines]. *)
Fixpoint processLines (lines : list (list N)) (inList : bool)
  : list (list N) :=
  match lines with
  | [] => if inList then [UL_END] else []
  | line :: rest =>
      match bulletMatch line with
      | Some item =>
          (if inList then [] else [UL]) ++ li item :: processLines rest true
      | None =>
          (if inList then [UL_END] else [])
          ++ match trim line with
             | [] => []
             | _ :: _ => [p line]
             end
          ++ processLines rest false
      end
  end.

Definition renderMarkdown (text : list N) : list N :=
  let html := replaceEach (S (length text)) boldRe text in
  let html := replaceEach (S (length html)) italicRe html in
  join [LF] (processLines (split html) false).

End Render.
(** * Specification vocabulary

    The predicates and sample data the statements below are written
    with. *)

(** ** The rate limiter *)

Section RateLimiterVocabulary.
Import RateLimiter.

(** A limiter built by [new o], in any later state of its store. *)
Definition configured (o : options) (l : t) : Prop :=
  windowMs l = windowMs (new o) /\ maxRequests l = maxRequests (new o).

End RateLimiterVocabulary.

(** ** The fingerprint cache *)

Section CacheVocabulary.
Import CacheManager.

(** The [ttl] an entry gets. *)
Definition ttlOf (t : option Z) : Z :=
  match t with Some x => x | None => 86400000 end.

(** A call of [set]: clock reading, key, value, [ttl] argument. *)
Definition setCall (V : Type) : Type := Z * list N * V * option Z.

(** A history of [set] calls. *)
Definition sets {V : Type} (calls : list (setCall V))
    (storage : gmap (list N) (entry V)) : gmap (list N) (entry V) :=
  fold_left (fun st c => match c with
                         | (now, key, v, t) => set now key v t st
                         end) calls storage.

(** A lower-case hexadecimal digit. *)
Definition isLowerHex (c : N) : bool :=
  ((48 <=? c) && (c <=? 57) || (97 <=? c) && (c <=? 102))%N.

End CacheVocabulary.

(** ** The length cap *)

Section ContentVocabulary.

(** The sentence boundary the cap looks for. *)
Definition PERIOD : N := N_of_ascii ".".

(** [i] is the last position of [c] in [s]. *)
Definition isLastIndex (c : N) (s : list N) (i : Z) : Prop :=
  0 <= i /\ s !! Z.to_nat i = Some c /\
  forall j, (Z.to_nat i < j)%nat -> s !! j <> Some c.

End ContentVocabulary.

(** ** The orchestrator *)

Section PopupVocabulary.
Import CacheManager Popup.

(** [e] occurs in [events] after both promises have been awaited. *)
Definition afterBothSettled (e : event) (events : list event) : Prop :=
  exists before after,
    events = before ++ e :: after /\
    In AwaitedAnalysis before /\ In AwaitedSearch before.

(** The invocation writes nothing. *)
Definition writesNothing (events : list event) : Prop :=
  forall key v, ~ In (CacheSet key v) events.

(** The key under which the invocation caches. *)
Definition deepDiveKey (w : world) : option (list N) :=
  match pageText w with
  | Fulfilled (text, url) => Some (generateCacheKey url text ++ DEEP_DIVE)
  | Rejected => None
  end.

(** A cache miss, the search call refused, the analysis returned. *)
Definition sampleWorld : Popup.world :=
  World false
    (Fulfilled (lit "Some article text.", lit "https://a.org/p"))
    (Some (lit "query")) Rejected
    (Fulfilled
       (VObj [(lit "definitions", VArr []); (lit "arguments", VObj [])]))
    10 20.

End PopupVocabulary.

(** A path of the invocation that leaves the store alone. *)
Ltac quiet :=
  solve [ simpl; repeat split; intros; simpl in *;
          repeat match goal with
                 | H : _ \/ _ |- _ => destruct H
                 | H : False |- _ => destruct H
                 | H : Some _ = Some _ |- _ => injection H as H; subst
                 | |- ~ _ => intro
                 end;
          try done; try congruence ].

(** ** Patterns and citation markers *)

Section PatternVocabulary.

(** A match of [m] consumes a prefix of the input that is not empty. *)
Definition consuming (m : list N -> option (list N)) : Prop :=
  forall s rest, m s = Some rest -> exists x, x <> [] /\ s = x ++ rest.

(** The input after its longest prefix of code units of class [p]. *)
Fixpoint skipRun (p : N -> bool) (s : list N) : list N :=
  match s with
  | c :: s' => if p c then skipRun p s' else s
  | [] => []
  end.

(** A citation marker: a bracket, one or more digits, a bracket. *)
Definition marker (ds : list N) : list N :=
  [N_of_ascii "["] ++ ds ++ [N_of_ascii "]"].

(** [s] contains a citation marker. *)
Definition hasMarker (s : list N) : Prop :=
  exists pre ds post,
    ds <> [] /\ forallb isDigit ds = true /\ s = pre ++ marker ds ++ post.

(** Every whitespace of [s] is a space followed by a code unit that is not
    whitespace ([strict]), or by one or by the end of [s]. *)
Fixpoint spaced (strict : bool) (s : list N) : bool :=
  match s with
  | [] => true
  | c :: s' =>
      (if isWhiteSpace c then
         N.eqb c SP
         && match s' with
            | d :: _ => negb (isWhiteSpace d)
            | [] => negb strict
            end
       else true)
      && spaced strict s'
  end.

(** [s] is trimmed, and its whitespace is single spaces between other code
    units. *)
Definition wsCollapsed (s : list N) : bool :=
  match s with c :: _ => negb (isWhiteSpace c) | [] => true end
  && spaced true s.

(** What [stripCitations] promises of a string: no citation marker,
    whitespace collapsed to single spaces, both ends trimmed. *)
Definition clean (s : list N) : Prop :=
  ~ hasMarker s /\ wsCollapsed s = true.

End PatternVocabulary.

(** ** Values *)

Section ValueVocabulary.

(** Induction on values, through the lists they nest. *)
Fixpoint jsval_nested_ind (P : jsval -> Prop)
    (Hundef : P VUndefined) (Hnull : P VNull)
    (Hbool : forall b, P (VBool b)) (Hnum : forall m e, P (VNum m e))
    (Hstr : forall s, P (VStr s))
    (Harr : forall items, Forall P items -> P (VArr items))
    (Hobj : forall props, Forall (fun kv => P kv.2) props -> P (VObj props))
    (Hproto : forall proto props,
        P proto -> Forall (fun kv => P kv.2) props -> P (VProto proto props))
    (v : jsval) {struct v} : P v :=
  let rec :=
    jsval_nested_ind P Hundef Hnull Hbool Hnum Hstr Harr Hobj Hproto in
  match v with
  | VUndefined => Hundef
  | VNull => Hnull
  | VBool b => Hbool b
  | VNum m e => Hnum m e
  | VStr s => Hstr s
  | VArr items =>
      Harr items
        ((fix all (l : list jsval) : Forall P l :=
            match l with
            | [] => @List.Forall_nil _ P
            | x :: l' => @List.Forall_cons _ P x l' (rec x) (all l')
            end) items)
  | VObj props =>
      Hobj props
        ((fix all (l : list (list N * jsval)) : Forall (fun kv => P kv.2) l :=
            match l with
            | [] => @List.Forall_nil _ _
            | (k, x) :: l' =>
                @List.Forall_cons _ (fun kv => P kv.2) (k, x) l' (rec x) (all l')
            end) props)
  | VProto proto props =>
      Hproto proto props (rec proto)
        ((fix all (l : list (list N * jsval)) : Forall (fun kv => P kv.2) l :=
            match l with
            | [] => @List.Forall_nil _ _
            | (k, x) :: l' =>
                @List.Forall_cons _ (fun kv => P kv.2) (k, x) l' (rec x) (all l')
            end) props)
  end.

(** Every string of [v], at any depth, satisfies [P]: the strings of its
    own properties and those of its prototype. *)
Fixpoint allStrings (P : list N -> Prop) (v : jsval) : Prop :=
  match v with
  | VStr s => P s
  | VArr items =>
      (fix all (l : list jsval) : Prop :=
         match l with
         | [] => True
         | x :: l' => allStrings P x /\ all l'
         end) items
  | VObj props =>
      (fix all (l : list (list N * jsval)) : Prop :=
         match l with
         | [] => True
         | (_, x) :: l' => allStrings P x /\ all l'
         end) props
  | VProto proto props =>
      allStrings P proto /\
      (fix all (l : list (list N * jsval)) : Prop :=
         match l with
         | [] => True
         | (_, x) :: l' => allStrings P x /\ all l'
         end) props
  | _ => True
  end.

End ValueVocabulary.

(** ** Results of the normalizer and of the search *)

Section ResultVocabulary.
Import Server.

(** The shapes of the entries of a result, with [P] holding of their
    strings. *)
Definition isArgument (P : list N -> Prop) (v : jsval) : Prop :=
  exists s, v = VStr s /\ P s.

Definition isDefinition (P : list N -> Prop) (v : jsval) : Prop :=
  exists term definition,
    v = VObj [(lit "term", VStr term); (lit "definition", VStr definition)]
    /\ P term /\ P definition.

Definition isArticle (P : list N -> Prop) (v : jsval) : Prop :=
  exists title url, v = mkArticle title url /\ P title /\ P url.

(** A structurally valid result: the four lists, their entries of the
    right shape, within the caps. *)
Definition wellFormed (P : list N -> Prop) (r : jsval) : Prop :=
  exists relatedArticles definitions main counter,
    r = mkResult relatedArticles definitions main counter /\
    Forall (isArticle P) relatedArticles /\ (length relatedArticles <= 10)%nat /\
    Forall (isDefinition P) definitions /\ (length definitions <= 20)%nat /\
    Forall (isArgument P) main /\ (length main <= 20)%nat /\
    Forall (isArgument P) counter /\ (length counter <= 20)%nat.

(** Trimmed and not empty: what validation leaves in a string. *)
Definition trimmedNonEmpty (s : list N) : Prop := trim s = s /\ s <> [].

(** Trimmed. *)
Definition trimmed (s : list N) : Prop := trim s = s.

(** The URL of an article, and the related articles of a result. *)
Definition urlOf (article : jsval) : list N := strOf (get article (lit "url")).

Definition relatedOf (r : jsval) : list jsval :=
  itemsOf (get r (lit "relatedArticles")).

(** A grounding article: a title and a URL that is not empty. *)
Definition isGrounded (a : jsval) : Prop :=
  exists t u, a = mkArticle t u /\ u <> [].

(** The runtime, as the [/search] handler meets it. *)
Variable arrayIncludes : jsval -> list N -> option bool.
Variable urlConstructs objectConverts : jsval -> bool.

(** The URL of [a] has the search-redirect shape. *)
Definition redirectShaped (a : jsval) : bool :=
  match isRedirect arrayIncludes a with Some true => true | _ => false end.

(** The three tiers of the selection: the entries with a redirect-shaped
    URL, of both sources, if there is one; else the grounding articles, if
    there is one; else the entries of the free-text JSON. *)
Definition selection (grounded json : list jsval) : list jsval :=
  if existsb redirectShaped (grounded ++ json)
  then List.filter redirectShaped grounded ++ List.filter redirectShaped json
  else if nonEmpty grounded then grounded else json.

(** The URL of [a] constructs. *)
Definition urlKept (a : jsval) : bool :=
  match urlOk urlConstructs objectConverts a with
  | Some true => true
  | _ => false
  end.

(** An entry with a title and a URL that are strings. *)
Definition plainEntry (a : jsval) : Prop :=
  exists title url,
    getE a (lit "title") = Some (VStr title) /\
    getE a (lit "url") = Some (VStr url).

(** A reply of the model with a fenced JSON block. *)
Definition sampleReply : list N :=
  lit "Sure! ```json" ++ [LF]
  ++ litq "{'definitions':[],'arguments':{'main':['x [2]  y'],'counter':[]}}"
  ++ [LF] ++ lit "```".

(** Two articles: the one on [latest.com] goes, the other stays. *)
Definition sampleArticles : jsval :=
  VObj [(lit "relatedArticles",
         VArr [Server.mkArticle (lit "News") (lit "https://latest.com/news");
               Server.mkArticle (lit "Paper") (lit "https://journal.org/p1")])].

(** Grounding yields one plain article; the text holds one article with a
    redirect URL. *)
Definition plainGrounding : responseT :=
  Response (Some [Candidate (Some (Metadata (Some
    [Chunk (Some (Web (Some (lit "https://journal.org/p1"))
                      (Some (lit "Paper"))))])))]).

Definition redirectUrl : list N :=
  lit "https://vertexaisearch.cloud.google.com/grounding-api-redirect/abc".

Definition redirectText : list N :=
  litq "Here: {'articles':[{'title':'Found','url':'"
  ++ redirectUrl ++ litq "'}]}".

(** The example reply of the specification. *)
Definition specReply : list N :=
  lit "Sure! ```json" ++ [LF]
  ++ litq "{'definitions':[],'arguments':{'main':['x'],'counter':[]}}"
  ++ [LF] ++ lit "```".

(** The loop invariant of the grounding extractor: [urls] is the list of
    the URLs of [articles], without repetition. *)
Definition urlsOf (urls : list (list N)) (articles : list jsval) : Prop :=
  urls = List.map urlOf articles /\ NoDup urls.

End ResultVocabulary.

(** ** The clock of the limiter *)

Section ClockVocabulary.
Import RateLimiter.

Definition isCleanup (o : op) : bool :=
  match o with OpCleanup _ => true | _ => false end.

(** The clock reading a call sees, if it reads the clock. *)
Definition clockOf (o : op) : option Z :=
  match o with
  | OpCheck now _ => Some now
  | OpCleanup now => Some now
  | OpReset => None
  end.

(** Along [os] the clock starts at [t] or later and never goes back. *)
Fixpoint clockFrom (t : Z) (os : list op) : Prop :=
  match os with
  | [] => True
  | o :: os' =>
      match clockOf o with
      | Some now => t <= now /\ clockFrom now os'
      | None => clockFrom t os'
      end
  end.

(** [l1] is [l2] after sweeps: the two agree but for records of [l2] that
    had expired by [t] and that [l1] lacks. *)
Definition swept (t : Z) (l1 l2 : RateLimiter.t) : Prop :=
  windowMs l1 = windowMs l2 /\ maxRequests l1 = maxRequests l2 /\
  forall i,
    store l1 !! i = store l2 !! i \/
    (store l1 !! i = None /\
     exists r, store l2 !! i = Some r /\ resetTime r <= t).

End ClockVocabulary.

Section MiddlewareVocabulary.
Import RateLimiter RateLimitMiddleware.

(** Successive requests through the middleware, each with its two clock
    readings: the limiter they leave and the replies in order. *)
Fixpoint serve (o : options) (l : RateLimiter.t)
    (reqs : list (Z * Z * request)) : RateLimiter.t * list reply :=
  match reqs with
  | [] => (l, [])
  | (now, later, req) :: rest =>
      let '(l1, _, r) := middleware o now later req l in
      let (l2, rs) := serve o l1 rest in
      (l2, r :: rs)
  end.

End MiddlewareVocabulary.

(** ** The [/analyze] endpoint *)

Section AnalyzeVocabulary.
Import Server App.

(** The body of a request passes the checks of the handler, with this
    article and these concepts. *)
Definition acceptable (body : jsval) (article : list N)
    (concepts : list (list N)) : Prop :=
  getE body (lit "article") = Some (VStr article) /\
  trim article <> [] /\ len article <= 500000 /\
  ((getE body (lit "concepts") = Some VUndefined /\ concepts = []) \/
   exists items,
     getE body (lit "concepts") = Some (VArr items) /\
     (length items <= 20)%nat /\
     Forall (fun c => isString c = true) items /\
     concepts = List.map strOf items).

(** The body of a reply: [definitions] and [arguments], nothing else. *)
Definition analysisBody (P : list N -> Prop) (body : jsval) : Prop :=
  exists definitions main counter,
    body = VObj [(lit "definitions", VArr definitions);
                 (lit "arguments",
                  VObj [(lit "main", VArr main); (lit "counter", VArr counter)])]
    /\ Forall (isDefinition P) definitions /\ (length definitions <= 20)%nat
    /\ Forall (isArgument P) main /\ (length main <= 20)%nat
    /\ Forall (isArgument P) counter /\ (length counter <= 20)%nat.

(** A request with an article of two sentences and one concept. *)
Definition sampleRequest : jsval :=
  VObj [(lit "article", VStr (lit "Rates rose. Markets fell."));
        (lit "concepts", VArr [VStr (lit "inflation")])].

End AnalyzeVocabulary.

(** ** Errors and retries *)

Section ErrorVocabulary.
Import ErrorHandler.

(** What holds of every entry of the table of errors and of the default:
    a message, one of the four actions, [recoverable] with [retry] only. *)
Definition sound (i : info) : Prop :=
  message i <> [] /\
  (recoverable i = true <-> action i = lit "retry") /\
  In (action i) [lit "retry"; lit "reload"; lit "truncate"; lit "none"].

End ErrorVocabulary.

Section RetryVocabulary.
Import ErrorHandler.

Context {V : Type}.

(** The first [k] rounds of the wrapper: a call and a sleep each, the
    sleeps doubling from [delay]. *)
Fixpoint rounds (k : nat) (delay : Z) : list event :=
  match k with
  | O => []
  | S k' => Call :: Sleep delay :: rounds k' (delay * 2)
  end.

(** The call numbered [attempt] ends the retries by itself: it returns, or
    throws an error that is not recoverable. *)
Definition stops (fn : nat -> V + error) (attempt : nat) : bool :=
  match fn attempt with
  | inl _ => true
  | inr e => negb (isRecoverable e)
  end.

(** The wrapper ends as a call did. *)
Definition endOf (r : V + error) : outcome V :=
  match r with
  | inl v => Returned v
  | inr e => Thrown e
  end.

(** A function that fails twice on a timeout and then returns [7]. *)
Definition flaky (attempt : nat) : nat + error :=
  match attempt with
  | 0%nat | 1%nat => inr (Error (lit "Error") (lit "request timed out"))
  | _ => inl 7%nat
  end.

End RetryVocabulary.

(** ** Sentence boundaries *)

Section SentenceVocabulary.
Import SummarizerService.

(** A sentence ends at position [n] of [s]: one of [. ! ?] there, and
    whitespace after it. *)
Definition isEndAt (s : list N) (n : nat) : bool :=
  match drop n s with
  | c :: d :: _ => isSentenceEnd c && isWhiteSpace d
  | _ => false
  end.

(** The position of the last sentence end of [s], counted from [i], by one
    scan; [found] when there is none. *)
Fixpoint scanEnds (s : list N) (i : Z) (found : option Z) : option Z :=
  match s with
  | [] => found
  | c :: s' =>
      scanEnds s' (i + 1)
        match s' with
        | d :: _ => if isSentenceEnd c && isWhiteSpace d then Some i else found
        | [] => found
        end
  end.

(** [n] is the position of the last sentence end of [s]. *)
Definition isLastEnd (s : list N) (n : nat) : Prop :=
  isEndAt s n = true /\ forall m, (n < m)%nat -> isEndAt s m = false.

End SentenceVocabulary.

(** ** Values that a second pass leaves alone *)

Section TidyVocabulary.
Import Server.

(** Every string of [v] is one that [stripString] leaves as it is, and
    every object of [v] has the prototype of an object literal and no
    property named [__proto__]. *)
Fixpoint tidy (v : jsval) : Prop :=
  match v with
  | VStr s => stripString s = s
  | VArr items =>
      (fix all (l : list jsval) : Prop :=
         match l with
         | [] => True
         | x :: l' => tidy x /\ all l'
         end) items
  | VObj props =>
      (fix all (l : list (list N * jsval)) : Prop :=
         match l with
         | [] => True
         | (k, x) :: l' => (eqs k PROTO = false /\ tidy x) /\ all l'
         end) props
  | VProto _ _ => False
  | _ => True
  end.

(** No object of [v], reached through arrays and own properties other than
    [__proto__], has an own property named [__proto__] whose value is an
    object, an array or [null]. *)
Fixpoint protoFree (v : jsval) : Prop :=
  match v with
  | VArr items =>
      (fix all (l : list jsval) : Prop :=
         match l with
         | [] => True
         | x :: l' => protoFree x /\ all l'
         end) items
  | VObj props | VProto _ props =>
      match lookup PROTO props with
      | Some proto => isObjectType proto = false
      | None => True
      end /\
      (fix all (l : list (list N * jsval)) : Prop :=
         match l with
         | [] => True
         | (k, x) :: l' => (eqs k PROTO = false -> protoFree x) /\ all l'
         end) props
  | _ => True
  end.

(** An entry that validation leaves as it is. *)
Definition kept (ok : jsval -> bool) (norm : jsval -> jsval) (x : jsval)
  : Prop :=
  ok x = true /\ norm x = x.

End TidyVocabulary.

(** ** A click on Instant Summary *)

Section InstantVocabulary.
Import ErrorHandler DeepDiveAssistant InstantSummary.

(** The text of a page, above the minimum length. *)
Definition samplePageText : list N :=
  lit "Interest rates rose again this week. Markets fell on the news, and analysts expect the trend to last until the end of the year.".

(** The API is there, the page answers, the summarizer returns. *)
Definition sampleClick : InstantSummary.world :=
  InstantSummary.World false true (inr (lit "available")) true
    (Some [Tab (Some (lit "https://a.org/p"))])
    (Delivered
       (Some (ContentScript.Response true None samplePageText
                (lit "https://a.org/p") (lit "Rates") (lit "Rates"))))
    None (fun _ => inr (lit "Rates rose; markets fell."))
    (fun _ => []) 10 20.

End InstantVocabulary.

(** ** The shape of rendered markdown *)

Section RenderVocabulary.
Import Render.

(** What the renderer writes: a paragraph, or a list of items. *)
Inductive block :=
| Para (line : list N)
| Bullets (items : list (list N)).

(** The lines of a block. *)
Definition blockLines (b : block) : list (list N) :=
  match b with
  | Para line => [p line]
  | Bullets items => UL :: List.map li items ++ [UL_END]
  end.

(** A block as the renderer writes it: a paragraph holds a line that is not
    blank; a list has an item, and every item is a text without line
    terminator that is not empty. *)
Definition wellBlock (b : block) : Prop :=
  match b with
  | Para line => trim line <> [] /\ Forall (fun c => c <> LF) line
  | Bullets items =>
      items <> [] /\
      Forall (fun i => i <> [] /\ forallb dot i = true) items
  end.

End RenderVocabulary.
(** * Properties *)

(** ** The rate limiter *)

Section RateLimiterFacts.
Import RateLimiter.

Lemma check_config now i l :
  windowMs (check now i l).1 = windowMs l /\
  maxRequests (check now i l).1 = maxRequests l.
Proof.
  unfold check. destruct (store l !! i) as [r|]; simpl; [|done].
  destruct (resetTime r <=? now); simpl; [done|].
  destruct (maxRequests l <=? count r); simpl; done.
Qed.

Lemma step_config l o :
  windowMs (step l o).1 = windowMs l /\ maxRequests (step l o).1 = maxRequests l.
Proof.
  destruct o as [now i|now|]; simpl; try done.
  pose proof (check_config now i l) as H.
  destruct (check now i l); exact H.
Qed.

Lemma run_config os : forall l,
  windowMs (run l os).1 = windowMs l /\ maxRequests (run l os).1 = maxRequests l.
Proof.
  induction os as [|o os IH]; intros l; simpl; [done|].
  pose proof (step_config l o) as Hs.
  destruct (step l o) as [l1 r]; simpl in Hs.
  specialize (IH l1). destruct (run l1 os) as [l2 rs]; simpl in *.
  destruct IH, Hs. split; congruence.
Qed.

(** [check] when the identifier has no record, or an expired one. *)
Lemma check_opens now i l :
  (forall r, store l !! i = Some r -> resetTime r <= now) ->
  check now i l =
    (set_store l (<[i := Rec 1 (now + windowMs l)]> (store l)),
     Res true (maxRequests l - 1) (now + windowMs l)).
Proof.
  intros H. unfold check. destruct (store l !! i) as [r|] eqn:E; [|done].
  specialize (H r eq_refl). destruct (Z.leb_spec (resetTime r) now); [done|lia].
Qed.

(** [check] inside an active window, below the limit. *)
Lemma check_counts now i l k R :
  store l !! i = Some (Rec k R) -> now < R -> k < maxRequests l ->
  check now i l =
    (set_store l (<[i := Rec (k + 1) R]> (store l)),
     Res true (maxRequests l - (k + 1)) R).
Proof.
  intros E Hn Hk. unfold check. rewrite E. simpl.
  destruct (Z.leb_spec R now); [lia|].
  destruct (Z.leb_spec (maxRequests l) k); [lia|done].
Qed.

(** [check] inside an active window, at the limit. *)
Lemma check_rejects now i l k R :
  store l !! i = Some (Rec k R) -> now < R -> maxRequests l <= k ->
  check now i l = (l, Res false 0 R).
Proof.
  intros E Hn Hk. unfold check. rewrite E. simpl.
  destruct (Z.leb_spec R now); [lia|].
  destruct (Z.leb_spec (maxRequests l) k); [done|lia].
Qed.

Lemma checks_cons l i now ts :
  checks l i (now :: ts) =
    (( checks (check now i l).1 i ts).1,
     (check now i l).2 :: (checks (check now i l).1 i ts).2).
Proof.
  unfold checks. simpl. destruct (check now i l) as [l1 r]. simpl.
  destruct (run l1 _) as [l2 rs]. done.
Qed.

(** Inside the window of a record with count [k], the next
    [maxRequests - k] calls are allowed and the one after is rejected. *)
Lemma checks_in_window (n : nat) : forall l i k R ts,
  store l !! i = Some (Rec k R) ->
  maxRequests l = k + Z.of_nat n ->
  length ts = S n ->
  Forall (fun now => now < R) ts ->
  List.map allowed (checks l i ts).2 = repeat true n ++ [false] /\
  store (checks l i ts).1 !! i = Some (Rec (maxRequests l) R) /\
  windowMs (checks l i ts).1 = windowMs l /\
  maxRequests (checks l i ts).1 = maxRequests l.
Proof.
  induction n as [|n IH]; intros l i k R ts E HN Hlen Hts.
  - destruct ts as [|now [|? ?]]; simpl in Hlen; try lia.
    apply Forall_cons in Hts as [Hnow _].
    rewrite checks_cons, (check_rejects now i l k R) by (done || lia).
    unfold checks; simpl. rewrite E. repeat split; try done.
    do 2 f_equal. lia.
  - destruct ts as [|now ts]; simpl in Hlen; [lia|].
    apply Forall_cons in Hts as [Hnow Hts].
    rewrite checks_cons, (check_counts now i l k R) by (done || lia).
    simpl.
    set (l1 := set_store l _).
    destruct (IH l1 i (k + 1) R ts) as (Ha & Hs & Hw & Hm); try done.
    + unfold l1; simpl. apply lookup_insert_eq.
    + unfold l1; simpl. lia.
    + lia.
    + rewrite Ha, Hs, Hw, Hm. done.
Qed.

Lemma check_ok now i l :
  1 <= maxRequests l -> store_ok l ->
  store_ok (check now i l).1 /\
  (allowed (check now i l).2 = true ->
   exists r, store (check now i l).1 !! i = Some r /\
     remaining (check now i l).2 = maxRequests (check now i l).1 - count r /\
     0 <= remaining (check now i l).2).
Proof.
  intros HN Hok.
  assert (Hfresh : forall R,
    store_ok (set_store l (<[i := Rec 1 R]> (store l)))).
  { intros R. unfold store_ok. simpl. apply map_Forall_insert_2; [simpl; lia|done]. }
  unfold check. destruct (store l !! i) as [r|] eqn:E.
  - destruct (Z.leb_spec (resetTime r) now).
    + split; [apply Hfresh|]. simpl. intros _. eexists. rewrite lookup_insert_eq.
      split; [done|]. simpl. lia.
    + pose proof (Hok i r E) as Hr. simpl in Hr.
      destruct (Z.leb_spec (maxRequests l) (count r)); simpl.
      * split; [done|]. discriminate.
      * split.
        -- unfold store_ok. simpl. apply map_Forall_insert_2; [simpl; lia|done].
        -- intros _. eexists. rewrite lookup_insert_eq. split; [done|]. simpl. lia.
  - split; [apply Hfresh|]. simpl. intros _. eexists. rewrite lookup_insert_eq.
    split; [done|]. simpl. lia.
Qed.

Lemma step_ok l o :
  1 <= maxRequests l -> store_ok l -> store_ok (step l o).1.
Proof.
  intros HN Hok. destruct o as [now i|now|]; simpl.
  - pose proof (check_ok now i l HN Hok) as [H _].
    destruct (check now i l). exact H.
  - unfold store_ok, cleanup. simpl. intros k r Hk.
    apply map_lookup_filter_Some in Hk as [Hk _]. exact (Hok k r Hk).
  - unfold store_ok, reset. simpl. apply map_Forall_empty.
Qed.

Lemma run_ok os : forall l,
  1 <= maxRequests l -> store_ok l -> store_ok (run l os).1.
Proof.
  induction os as [|o os IH]; intros l HN Hok; simpl; [done|].
  pose proof (step_ok l o HN Hok) as H1.
  pose proof (step_config l o) as [_ Hm].
  destruct (step l o) as [l1 r]. simpl in *.
  specialize (IH l1). destruct (run l1 os) as [l2 rs]. simpl in *.
  apply IH; [lia|done].
Qed.

Lemma new_max o N :
  opt_maxRequests o = Some N -> 1 <= N -> maxRequests (new o) = N.
Proof.
  intros Ho HN. unfold new. simpl. rewrite Ho. simpl.
  destruct (Z.eqb_spec N 0); [lia|done].
Qed.

(** C4, as stated, at [maxRequests = 0]: the constructor replaces the falsy
    [0] by the default [10], and the first call of a window is allowed
    whatever the limit, so the [(0+1)]th call is not rejected. *)
Lemma check_window_zero_limit :
  opt_maxRequests (Opt None (Some 0)) = Some 0 /\
  List.map allowed (checks (new (Opt None (Some 0))) (lit "origin") [0]).2
    = [true] /\
  [true] <> repeat true (Z.to_nat 0) ++ [false].
Proof. repeat split. discriminate. Qed.

(** C4 (amended to [1 <= N]): for a limiter configured with
    [maxRequests = N >= 1], a call at [t0] that opens a window (no record, or
    an expired one) followed by [N] further calls before the window's reset
    time, [N + 1] calls in all, is allowed [N] times and then rejected; the
    first [check] at or after the reset time is allowed again and leaves the
    record with [count = 1] and a new window. *)
Theorem check_fixed_window (o : options) (n : Z) (l : t) (i : list N)
    (t0 : Z) (ts : list Z) :
  opt_maxRequests o = Some n -> 1 <= n ->
  configured o l ->
  (forall r, store l !! i = Some r -> resetTime r <= t0) ->
  length ts = Z.to_nat n ->
  Forall (fun now => now < t0 + windowMs l) ts ->
  List.map allowed (checks l i (t0 :: ts)).2
    = repeat true (Z.to_nat n) ++ [false] /\
  forall now, t0 + windowMs l <= now ->
    allowed (check now i (checks l i (t0 :: ts)).1).2 = true /\
    store (check now i (checks l i (t0 :: ts)).1).1 !! i
      = Some (Rec 1 (now + windowMs l)).
Proof.
  intros Ho HN [Hw Hm] Hopen Hlen Hts.
  rewrite (new_max o n Ho HN) in Hm.
  rewrite checks_cons, (check_opens t0 i l Hopen). simpl.
  set (l1 := set_store l _).
  destruct (checks_in_window (Z.to_nat n - 1) l1 i 1 (t0 + windowMs l) ts)
    as (Ha & Hs & Hw1 & Hm1).
  - unfold l1; simpl. apply lookup_insert_eq.
  - unfold l1; simpl. lia.
  - lia.
  - done.
  - split.
    + rewrite Ha. replace (Z.to_nat n) with (S (Z.to_nat n - 1)) at 2 by lia.
      done.
    + intros now Hnow. set (l2 := (checks l1 i ts).1) in *.
      rewrite (check_opens now i l2).
      * simpl. rewrite lookup_insert_eq, Hw1. done.
      * intros r Hr. rewrite Hs in Hr. injection Hr as <-. simpl. lia.
Qed.

(** A limiter of two requests per minute: calls at 0, 1 and 2 ms. *)
Lemma check_fixed_window_witness :
  List.map allowed
    (checks (new (Opt None (Some 2))) (lit "origin") [0; 1; 2]).2
    = [true; true; false] /\
  forall now, 0 + 60000 <= now ->
    allowed (check now (lit "origin")
      (checks (new (Opt None (Some 2))) (lit "origin") [0; 1; 2]).1).2 = true /\
    store (check now (lit "origin")
      (checks (new (Opt None (Some 2))) (lit "origin") [0; 1; 2]).1).1
      !! lit "origin" = Some (Rec 1 (now + 60000)).
Proof.
  apply (check_fixed_window (Opt None (Some 2)) 2 (new (Opt None (Some 2)))
           (lit "origin") 0 [1; 2]).
  - reflexivity.
  - lia.
  - split; reflexivity.
  - intros r Hr. simpl in Hr. rewrite lookup_empty in Hr. discriminate.
  - reflexivity.
  - repeat constructor.
Defined.

Lemma run_results_ok os : forall l,
  1 <= maxRequests l -> store_ok l ->
  Forall (fun r => allowed r = true -> 0 <= remaining r < maxRequests l)
    (run l os).2.
Proof.
  induction os as [|o os IH]; intros l HN Hok; simpl; [constructor|].
  pose proof (step_ok l o HN Hok) as H1.
  pose proof (step_config l o) as [_ Hm].
  assert (Hr : match (step l o).2 with
               | Some r => allowed r = true -> 0 <= remaining r < maxRequests l
               | None => True
               end).
  { destruct o as [now i|now|]; simpl; try done.
    pose proof (check_ok now i l HN Hok) as [Hs Hres].
    pose proof (check_config now i l) as [_ Hc].
    destruct (check now i l) as [l' r]. simpl in *.
    intros Ha. destruct (Hres Ha) as (rec & Hrec & Hrem & Hpos).
    specialize (Hs i rec Hrec). simpl in Hs. lia. }
  destruct (step l o) as [l1 r]. simpl in *.
  specialize (IH l1). destruct (run l1 os) as [l2 rs]. simpl in *.
  rewrite Hm in IH. specialize (IH HN H1).
  destruct r as [r|]; [by constructor|done].
Qed.

(** C10: for a limiter configured with [maxRequests >= 1], after any
    sequence of [check], [cleanup] and [reset] calls every record of the
    store has [1 <= count <= maxRequests]; every [check] of the sequence
    that answered [allowed = true] reported a [remaining] between [0] and
    [maxRequests - 1]; and a [check] made then that answers
    [allowed = true] reports [remaining = maxRequests - count >= 0] for
    the count it leaves in the record. *)
Theorem limiter_invariant (o : options) (N : Z) (os : list op) :
  opt_maxRequests o = Some N -> 1 <= N ->
  store_ok (run (new o) os).1 /\
  Forall (fun r => allowed r = true -> 0 <= remaining r < N)
    (run (new o) os).2 /\
  forall now i,
    allowed (check now i (run (new o) os).1).2 = true ->
    exists r,
      store (check now i (run (new o) os).1).1 !! i = Some r /\
      remaining (check now i (run (new o) os).1).2
        = maxRequests (check now i (run (new o) os).1).1 - count r /\
      0 <= remaining (check now i (run (new o) os).1).2.
Proof.
  intros Ho HN.
  pose proof (new_max o N Ho HN) as Hm.
  pose proof (run_config os (new o)) as [_ Hm'].
  assert (Hempty : store_ok (new o)).
  { unfold store_ok. simpl. apply map_Forall_empty. }
  assert (Hok : store_ok (run (new o) os).1) by (apply run_ok; [lia|done]).
  split; [done|]. split.
  - rewrite <- Hm. apply run_results_ok; [lia|done].
  - intros now i. apply check_ok; [lia|done].
Qed.

(** Three requests per window; two origins, a sweep and a reset. *)
Lemma limiter_invariant_witness :
  store_ok (run (new (Opt None (Some 3)))
    [OpCheck 0 (lit "a"); OpCheck 1 (lit "a"); OpCheck 2 (lit "b");
     OpCleanup 70000; OpCheck 70001 (lit "a"); OpReset]).1.
Proof.
  refine (proj1 (limiter_invariant (Opt None (Some 3)) 3
    [OpCheck 0 (lit "a"); OpCheck 1 (lit "a"); OpCheck 2 (lit "b");
     OpCleanup 70000; OpCheck 70001 (lit "a"); OpReset] _ _));
  [reflexivity | lia].
Defined.

End RateLimiterFacts.
(** ** The fingerprint cache *)

Section CacheFacts.
Import CacheManager.

Context {V : Type}.

Lemma sets_other calls : forall storage other,
  Forall (fun c : setCall V => c.1.1.2 <> other) calls ->
  sets calls storage !! other = storage !! other.
Proof.
  induction calls as [|[[[now key] v] t] calls IH]; intros storage other H;
    simpl; [done|].
  apply Forall_cons in H as [Hk H]. simpl in Hk.
  rewrite IH by done. unfold set. by rewrite lookup_insert_ne.
Qed.

(** C5: after [set(key, value, ttl)] at time [now], a [get(key)] finds the
    entry with the value written, and [isValid(key)] is true as long as the
    age [later - now] of the entry is below [ttl]; once the age exceeds
    [ttl], [isValid(key)] is false; and [isValid] is false for a key that no
    [set] ever wrote. *)
Theorem cache_round_trip (storage : gmap (list N) (entry V)) (key : list N)
    (v : V) (t : option Z) (now later : Z) :
  (later - now < ttlOf t ->
     get key (set now key v t storage) = Some (Entry v now (ttlOf t)) /\
     isValid later key (set now key v t storage) = true) /\
  (ttlOf t < later - now ->
     isValid later key (set now key v t storage) = false) /\
  (forall calls other,
     Forall (fun c : setCall V => c.1.1.2 <> other) calls ->
     isValid later other (sets calls ∅) = false).
Proof.
  unfold isValid, get, set, ttlOf. repeat split.
  - by rewrite lookup_insert_eq.
  - rewrite lookup_insert_eq. simpl. lia.
  - intros H. rewrite lookup_insert_eq. simpl. lia.
  - intros calls other H. rewrite sets_other by done.
    by rewrite lookup_empty.
Qed.

End CacheFacts.

(** A summary cached for an hour, read half an hour later. *)
Lemma cache_round_trip_witness :
  CacheManager.get (lit "k")
    (CacheManager.set 0 (lit "k") 7%nat (Some 3600000) ∅)
    = Some (CacheManager.Entry 7%nat 0 3600000) /\
  CacheManager.isValid 1800000 (lit "k")
    (CacheManager.set 0 (lit "k") 7%nat (Some 3600000) ∅) = true.
Proof.
  refine (proj1 (cache_round_trip (∅ : gmap (list N) (CacheManager.entry nat))
                   (lit "k") 7%nat (Some 3600000) 0 1800000) _).
  simpl. lia.
Defined.

Section CacheKeyFacts.
Import CacheManager.

Lemma round_length v kw : length v = 8%nat -> length (SHA256.round v kw) = 8%nat.
Proof.
  intros H. do 9 (destruct v as [|? v]; try discriminate). reflexivity.
Qed.

Lemma rounds_length kws : forall v,
  length v = 8%nat -> length (fold_left SHA256.round kws v) = 8%nat.
Proof.
  induction kws as [|kw kws IH]; intros v H; simpl; [done|].
  apply IH, round_length, H.
Qed.

Lemma compress_length H b :
  length H = 8%nat -> length (SHA256.compress H b) = 8%nat.
Proof.
  intros HH. unfold SHA256.compress.
  rewrite length_map, length_combine, rounds_length by done. lia.
Qed.

Lemma compress_all_length bs : forall H,
  length H = 8%nat -> length (fold_left SHA256.compress bs H) = 8%nat.
Proof.
  induction bs as [|b bs IH]; intros H HH; simpl; [done|].
  apply IH, compress_length, HH.
Qed.

Lemma bytesBE_range n : forall x, Forall (fun b => 0 <= b < 256) (SHA256.bytesBE n x).
Proof.
  induction n as [|n IH]; intros x; simpl; constructor; [|apply IH].
  apply Z.mod_pos_bound. lia.
Qed.

Lemma flat_map_length_const {A B} (f : A -> list B) k l :
  (forall a, length (f a) = k) -> length (List.flat_map f l) = (k * length l)%nat.
Proof.
  intros Hf. induction l as [|a l IH]; simpl; [lia|].
  rewrite length_app, Hf, IH. lia.
Qed.

Lemma bytesBE_length n x : length (SHA256.bytesBE n x) = n.
Proof. induction n; simpl; congruence. Qed.

Lemma digest_length msg : length (SHA256.digest msg) = 32%nat.
Proof.
  unfold SHA256.digest.
  rewrite (flat_map_length_const _ 4%nat) by (intros; apply bytesBE_length).
  rewrite compress_all_length by reflexivity. reflexivity.
Qed.

Lemma digest_range msg : Forall (fun b => 0 <= b < 256) (SHA256.digest msg).
Proof.
  unfold SHA256.digest. apply Forall_flat_map, Forall_forall.
  intros x _. apply bytesBE_range.
Qed.

Lemma hexDigit_lower d : 0 <= d < 16 -> isLowerHex (hexDigit d) = true.
Proof.
  intros H. unfold hexDigit, isLowerHex.
  destruct (Z.ltb_spec d 10).
  - apply orb_true_intro; left. apply andb_true_intro; split; apply N.leb_le; lia.
  - apply orb_true_intro; right. apply andb_true_intro; split; apply N.leb_le; lia.
Qed.

Lemma simpleHash_shape str :
  length (simpleHash str) = 16%nat /\
  Forall (fun c => isLowerHex c = true) (simpleHash str).
Proof.
  unfold simpleHash, substring0. split.
  - rewrite length_firstn, (flat_map_length_const _ 2%nat) by reflexivity.
    rewrite digest_length. reflexivity.
  - apply Forall_take, Forall_flat_map.
    eapply Forall_impl; [apply digest_range|].
    intros b Hb. cbv beta in Hb. simpl. repeat constructor; apply hexDigit_lower.
    + pose proof (Z.div_pos b 16). pose proof (Z.div_lt_upper_bound b 16 16). lia.
    + apply Z.mod_pos_bound. lia.
Qed.

(** The key depends on the text through the encoding of its sample only. *)
Lemma key_of_encoding url t1 t2 :
  encode (substring0 1000 t1) = encode (substring0 1000 t2) ->
  generateCacheKey url t1 = generateCacheKey url t2.
Proof. unfold generateCacheKey, simpleHash. intros ->. reflexivity. Qed.

(** C3, as stated, fails: two texts that differ in their first code unit,
    each an unpaired surrogate, are encoded to the same bytes and get the
    same key. *)
Lemma cache_key_surrogate_collision :
  substring0 1000 [55296%N] <> substring0 1000 [56320%N] /\
  generateCacheKey (lit "https://news.test/a") [55296%N]
    = generateCacheKey (lit "https://news.test/a") [56320%N].
Proof. split; [discriminate | apply key_of_encoding; reflexivity]. Qed.

(** C3 (amended): [generateCacheKey] is a function of the URL and of the
    UTF-8 encoding of the first 1,000 code units of the text: texts that
    agree on their first 1,000 code units, or only on the encoding of these,
    get the same key; the key is the URL, a colon and 16 lower-case
    hexadecimal digits.  (That texts with different leading content get
    different keys is not promised.) *)
Theorem cache_key_deterministic (url t1 t2 : list N) :
  (substring0 1000 t1 = substring0 1000 t2 ->
     generateCacheKey url t1 = generateCacheKey url t2) /\
  (encode (substring0 1000 t1) = encode (substring0 1000 t2) ->
     generateCacheKey url t1 = generateCacheKey url t2) /\
  exists h,
    generateCacheKey url t1 = url ++ lit ":" ++ h /\
    length h = 16%nat /\ Forall (fun c => isLowerHex c = true) h.
Proof.
  repeat split.
  - intros H. apply key_of_encoding. by rewrite H.
  - apply key_of_encoding.
  - exists (simpleHash (substring0 1000 t1)).
    split; [reflexivity | apply simpleHash_shape].
Qed.

(** Two texts that differ after their first 1,000 code units. *)
Lemma cache_key_deterministic_witness :
  generateCacheKey (lit "u") (repeat 97%N 1000 ++ lit "x")
    = generateCacheKey (lit "u") (repeat 97%N 1000 ++ lit "yz").
Proof.
  refine (proj1 (cache_key_deterministic (lit "u")
                   (repeat 97%N 1000 ++ lit "x")
                   (repeat 97%N 1000 ++ lit "yz")) _).
  vm_compute. reflexivity.
Defined.

End CacheKeyFacts.

(** ** The length cap of the extraction *)

Section ContentFacts.
Import Content.

Lemma lastIndexFrom_spec c s : forall i found,
  0 <= i -> found < i ->
  let k := lastIndexFrom c s i found in
  (k = found /\ forall j, s !! j <> Some c) \/
  (i <= k /\ s !! Z.to_nat (k - i) = Some c /\
   forall j, (Z.to_nat (k - i) < j)%nat -> s !! j <> Some c).
Proof.
  induction s as [|x s IH]; intros i found Hi Hf; simpl.
  - left. split; [done|]. intros j. by rewrite lookup_nil.
  - destruct (N.eqb_spec x c) as [->|Hne].
    + destruct (IH (i + 1) i) as [[-> Hno]|(Hk & Hc & Hlast)]; try lia.
      * right. rewrite Z.sub_diag. split; [lia|]. split; [done|].
        intros [|j] ?; [lia|]. apply Hno.
      * right. split; [lia|].
        replace (Z.to_nat (lastIndexFrom c s (i + 1) i - i))
          with (S (Z.to_nat (lastIndexFrom c s (i + 1) i - (i + 1)))) by lia.
        split; [done|]. intros [|j] ?; [lia|]. apply Hlast. lia.
    + destruct (IH (i + 1) found) as [[-> Hno]|(Hk & Hc & Hlast)]; try lia.
      * left. split; [done|]. intros [|j]; simpl; [congruence|apply Hno].
      * right. split; [lia|].
        replace (Z.to_nat (lastIndexFrom c s (i + 1) found - i))
          with (S (Z.to_nat (lastIndexFrom c s (i + 1) found - (i + 1)))) by lia.
        split; [done|]. intros [|j] ?; [lia|]. apply Hlast. lia.
Qed.

(** [lastIndexOf] answers [-1] when [c] does not occur, and its last
    position otherwise. *)
Lemma lastIndexOf_spec c s :
  (lastIndexOf c s = -1 /\ forall j, s !! j <> Some c) \/
  isLastIndex c s (lastIndexOf c s).
Proof.
  unfold lastIndexOf, isLastIndex.
  destruct (lastIndexFrom_spec c s 0 (-1)) as [H|(Hk & Hc & Hl)]; try lia.
  - by left.
  - right. rewrite Z.sub_0_r in *. done.
Qed.

Lemma isLastIndex_unique c s i j :
  isLastIndex c s i -> isLastIndex c s j -> i = j.
Proof.
  intros (Hi & Hci & Hli) (Hj & Hcj & Hlj).
  destruct (Z.lt_trichotomy i j) as [H|[H|H]]; [|done|].
  - exfalso. apply (Hli (Z.to_nat j)); [lia|done].
  - exfalso. apply (Hlj (Z.to_nat i)); [lia|done].
Qed.

Lemma lastIndexOf_last c s i : isLastIndex c s i -> lastIndexOf c s = i.
Proof.
  intros H. destruct (lastIndexOf_spec c s) as [[_ Hno]|H'].
  - destruct H as (_ & Hc & _). by apply Hno in Hc.
  - eapply isLastIndex_unique; eauto.
Qed.

(** C8, as stated, fails: a text of 60,001 characters whose only period is
    at position 2,000 is cut back to that period, far below the 48,000
    watermark of the claim, instead of being left at the cap. *)
Lemma cap_trims_below_watermark :
  MAX_TEXT <
    len (repeat 97%N 2000 ++ [PERIOD] ++ repeat 97%N (Z.to_nat 58000)) /\
  lastIndexOf PERIOD
    (slice0 MAX_TEXT
       (repeat 97%N 2000 ++ [PERIOD] ++ repeat 97%N (Z.to_nat 58000)))
    = 2000 /\
  capText (repeat 97%N 2000 ++ [PERIOD] ++ repeat 97%N (Z.to_nat 58000))
    = repeat 97%N 2000 ++ [PERIOD] /\
  len (capText
         (repeat 97%N 2000 ++ [PERIOD] ++ repeat 97%N (Z.to_nat 58000)))
    <= 48000.
Proof. vm_compute. repeat split; try reflexivity; discriminate. Qed.

(** C8 (amended to the threshold of the code): a text of at most 60,000
    characters is returned as it is.  A longer one is cut to its first
    60,000 characters; if the last period of that prefix is at a position
    above 1,000, the output is the prefix up to and including that period,
    and so ends with it; if the prefix has no period above position 1,000,
    the output is the prefix. *)
Theorem capText_spec (combined : list N) :
  (len combined <= MAX_TEXT -> capText combined = combined) /\
  (MAX_TEXT < len combined ->
   forall i, isLastIndex PERIOD (slice0 MAX_TEXT combined) i -> 1000 < i ->
     capText combined = slice0 (i + 1) combined /\
     last (capText combined) = Some PERIOD) /\
  (MAX_TEXT < len combined ->
   (forall i, (1000 < i)%nat -> slice0 MAX_TEXT combined !! i <> Some PERIOD) ->
   capText combined = slice0 MAX_TEXT combined).
Proof.
  unfold capText. fold PERIOD. split; [|split].
  - intros H. destruct (Z.ltb_spec MAX_TEXT (len combined)); [lia|done].
  - intros Hlen i Hi H1000.
    destruct (Z.ltb_spec MAX_TEXT (len combined)); [|lia].
    rewrite (lastIndexOf_last _ _ _ Hi).
    destruct (Z.ltb_spec 1000 i); [|lia].
    destruct Hi as (_ & Hi & _).
    pose proof (lookup_lt_Some _ _ _ Hi) as Hlt.
    unfold slice0 in *. rewrite length_take in Hlt. rewrite take_take.
    replace (Nat.min (Z.to_nat (i + 1)) (Z.to_nat MAX_TEXT))
      with (S (Z.to_nat i)) by lia.
    replace (Z.to_nat (i + 1)) with (S (Z.to_nat i)) by lia.
    split; [done|].
    rewrite lookup_take_lt in Hi by lia.
    rewrite (take_S_r _ _ _ Hi). apply last_snoc.
  - intros Hlen Hno.
    destruct (Z.ltb_spec MAX_TEXT (len combined)); [|lia].
    destruct (Z.ltb_spec 1000 (lastIndexOf PERIOD (slice0 MAX_TEXT combined)));
      [|done].
    destruct (lastIndexOf_spec PERIOD (slice0 MAX_TEXT combined))
      as [[E _]|(_ & E & _)]; [lia|].
    apply Hno in E; [done|lia].
Qed.

(** A string of one repeated code unit holds no other. *)
Lemma repeat_lacks (a c : N) n j :
  a <> c -> repeat a n !! j <> Some c.
Proof.
  intros Hne H. apply list_elem_of_lookup_2, list_elem_of_In in H.
  apply repeat_spec in H. congruence.
Qed.

(** The last period of the first sample text. *)
Lemma sample_last_period :
  isLastIndex PERIOD
    (slice0 MAX_TEXT
       (repeat 97%N 2000 ++ [PERIOD] ++ repeat 97%N (Z.to_nat 58000)))
    2000.
Proof.
  destruct (lastIndexOf_spec PERIOD
              (slice0 MAX_TEXT
                 (repeat 97%N 2000 ++ [PERIOD]
                  ++ repeat 97%N (Z.to_nat 58000))))
    as [[E _]|H].
  - vm_compute in E. discriminate E.
  - replace 2000 with
      (lastIndexOf PERIOD
         (slice0 MAX_TEXT
            (repeat 97%N 2000 ++ [PERIOD] ++ repeat 97%N (Z.to_nat 58000))))
      by (vm_compute; reflexivity).
    exact H.
Qed.

(** The second sample text has no period. *)
Lemma sample_no_period i :
  slice0 MAX_TEXT (repeat 97%N (Z.to_nat 60001)) !! i <> Some PERIOD.
Proof.
  unfold slice0. intros H. apply lookup_take_Some in H as [H _].
  by apply repeat_lacks in H.
Qed.

End ContentFacts.

(** Three texts: one under the cap; one of 60,001 characters with its only
    period at position 2,000, cut after that period; one of 60,001
    characters without period, cut at the cap. *)
Lemma capText_spec_witness :
  Content.capText (lit "Short text.") = lit "Short text." /\
  (Content.capText
     (repeat 97%N 2000 ++ [PERIOD] ++ repeat 97%N (Z.to_nat 58000))
   = slice0 (2000 + 1)
       (repeat 97%N 2000 ++ [PERIOD] ++ repeat 97%N (Z.to_nat 58000)) /\
   last (Content.capText
           (repeat 97%N 2000 ++ [PERIOD] ++ repeat 97%N (Z.to_nat 58000)))
   = Some PERIOD) /\
  Content.capText (repeat 97%N (Z.to_nat 60001))
  = slice0 Content.MAX_TEXT (repeat 97%N (Z.to_nat 60001)).
Proof.
  split; [|split].
  - refine (proj1 (capText_spec (lit "Short text.")) _).
    vm_compute. intros H. discriminate H.
  - refine (proj1 (proj2 (capText_spec
              (repeat 97%N 2000 ++ [PERIOD] ++ repeat 97%N (Z.to_nat 58000))))
              _ 2000 sample_last_period _).
    + vm_compute. reflexivity.
    + lia.
  - refine (proj2 (proj2 (capText_spec (repeat 97%N (Z.to_nat 60001))))
              _ (fun i _ => sample_no_period i)).
    vm_compute. reflexivity.
Defined.

(** ** The Deep-Dive orchestrator *)

Section PopupFacts.
Import CacheManager Popup.

(** C2: an invocation writes the cache at most once, after it has awaited
    both remote calls.  If the analysis call fails the store is left as it
    was and nothing is written.  If the invocation reaches its remote calls,
    the search call fails and the analysis call returns an object, the store
    gets under the deep-dive key, with the default [ttl], the combined result
    whose [relatedArticles] is the empty list and whose [definitions] and
    [arguments] are those of the analysis. *)
Theorem deep_dive_cache_write (w : world)
    (storage : gmap (list N) (entry jsval)) :
  (forall key v,
     In (CacheSet key v) (handleDeepDiveAnalysis w storage).2 ->
     afterBothSettled (CacheSet key v) (handleDeepDiveAnalysis w storage).2 /\
     (handleDeepDiveAnalysis w storage).1
       = set (clockAtWrite w) key v None storage) /\
  (writesNothing (handleDeepDiveAnalysis w storage).2 ->
     (handleDeepDiveAnalysis w storage).1 = storage) /\
  (analysisReply w = Rejected ->
     (handleDeepDiveAnalysis w storage).1 = storage /\
     writesNothing (handleDeepDiveAnalysis w storage).2) /\
  (forall key analysis definitions arguments,
     isProcessing w = false ->
     deepDiveKey w = Some key ->
     cachedValue w key storage = None ->
     fetchRelatedArticles w = Rejected ->
     analysisReply w = Fulfilled analysis ->
     getE analysis (lit "definitions") = Some definitions ->
     getE analysis (lit "arguments") = Some arguments ->
     (handleDeepDiveAnalysis w storage).1 !! key
       = Some (Entry (VObj [(lit "relatedArticles", VArr []);
                            (lit "definitions", definitions);
                            (lit "arguments", arguments)])
                 (clockAtWrite w) 86400000) /\
     In (CacheSet key (VObj [(lit "relatedArticles", VArr []);
                             (lit "definitions", definitions);
                             (lit "arguments", arguments)]))
        (handleDeepDiveAnalysis w storage).2).
Proof.
  unfold handleDeepDiveAnalysis, deepDiveKey, fetchAnalysis, writesNothing.
  destruct (isProcessing w) eqn:Hp; [quiet|].
  destruct (pageText w) as [[text url]|] eqn:Hpage; [|quiet].
  set (cacheKey := generateCacheKey url text ++ DEEP_DIVE).
  destruct (cachedValue w cacheKey storage) as [cv|] eqn:Hc; [quiet|].
  destruct (analysisReply w) as [analysis|] eqn:Ha; [|quiet].
  destruct (getE analysis (lit "definitions")) as [d|] eqn:Hd; [|quiet].
  destruct (getE analysis (lit "arguments")) as [args|] eqn:Hargs; [|quiet].
  split; [|split; [|split]].
  - intros key v Hin. simpl in Hin.
    destruct Hin as [H|[H|[H|[H|[H|H]]]]]; try done.
    injection H as <- <-. split; [|done].
    eexists [StartSearch; StartAnalysis; AwaitedAnalysis; AwaitedSearch], [].
    simpl. tauto.
  - intros Hno. exfalso. eapply Hno. simpl. do 4 right. left. reflexivity.
  - discriminate.
  - intros key a d' args' _ [= <-] _ Hs [= <-] Hd' Ha'.
    rewrite Hs. simpl. unfold set. rewrite lookup_insert_eq.
    rewrite Hd in Hd'. rewrite Hargs in Ha'.
    injection Hd' as <-. injection Ha' as <-. split; [done|]. tauto.
Qed.

End PopupFacts.

Lemma deep_dive_cache_write_witness :
  (Popup.handleDeepDiveAnalysis sampleWorld ∅).1
    !! (CacheManager.generateCacheKey (lit "https://a.org/p")
          (lit "Some article text.") ++ Popup.DEEP_DIVE)
    = Some (CacheManager.Entry
              (VObj [(lit "relatedArticles", VArr []);
                     (lit "definitions", VArr []);
                     (lit "arguments", VObj [])]) 20 86400000).
Proof.
  refine (proj1 (proj2 (proj2 (proj2 (deep_dive_cache_write sampleWorld ∅)))
            _ (VObj [(lit "definitions", VArr []); (lit "arguments", VObj [])])
            (VArr []) (VObj []) _ _ _ _ _ _ _));
  first [ unfold Popup.cachedValue, CacheManager.isValid, CacheManager.get;
          rewrite lookup_empty; reflexivity
        | reflexivity ].
Defined.

(** ** Strings and patterns *)

Section StringFacts.

Lemma eqs_eq a : forall b, eqs a b = true <-> a = b.
Proof.
  induction a as [|x a IH]; intros [|y b]; simpl; try done.
  rewrite andb_true_iff, N.eqb_eq, IH. naive_solver.
Qed.

Lemma startsWith_spec p : forall s,
  startsWith p s = true <-> exists b, s = p ++ b.
Proof.
  induction p as [|x p IH]; intros s; simpl.
  - split; [eauto|done].
  - destruct s as [|y s]; [naive_solver|].
    rewrite andb_true_iff, N.eqb_eq, IH. naive_solver.
Qed.

(** [includes] finds exactly the substrings. *)
Lemma includes_spec p s :
  includes p s = true <-> exists a b, s = a ++ p ++ b.
Proof.
  induction s as [|y s IH]; simpl.
  - rewrite orb_false_r, startsWith_spec. split.
    + intros [b ->]. by exists [], b.
    + intros (a & b & H). destruct a; [by exists b|done].
  - rewrite orb_true_iff, startsWith_spec, IH. split.
    + intros [[b ->]|(a & b & ->)]; [by exists [], b|by exists (y :: a), b].
    + intros (a & b & H). destruct a as [|x a]; [left; by exists b|].
      right. injection H as -> ->. by exists a, b.
Qed.

(** [trimStart] drops a run of whitespace. *)
Lemma trimStart_split s :
  exists w, s = w ++ trimStart s /\ forallb isWhiteSpace w = true.
Proof.
  induction s as [|c s (w & IH & Hw)]; simpl; [by exists []|].
  destruct (isWhiteSpace c) eqn:E.
  - exists (c :: w). simpl. rewrite E, Hw. split; [by f_equal|done].
  - by exists [].
Qed.

Lemma trimStart_head s :
  match trimStart s with c :: _ => isWhiteSpace c = false | [] => True end.
Proof.
  induction s as [|c s IH]; simpl; [done|].
  destruct (isWhiteSpace c) eqn:E; [done|]. done.
Qed.

Lemma trimStart_id s :
  match s with c :: _ => isWhiteSpace c = false | [] => True end ->
  trimStart s = s.
Proof. destruct s as [|c s]; simpl; [done|]. by intros ->. Qed.

Lemma trimEnd_split s :
  exists w, s = trimEnd s ++ w /\ forallb isWhiteSpace w = true.
Proof.
  unfold trimEnd. destruct (trimStart_split (rev s)) as (w & H & Hw).
  exists (rev w). split.
  - rewrite <- (rev_involutive s), H at 1. by rewrite rev_app_distr.
  - rewrite forallb_forall in *. intros x Hx. apply Hw. by apply in_rev.
Qed.

Lemma trimEnd_last s :
  match last (trimEnd s) with Some c => isWhiteSpace c = false | None => True end.
Proof.
  unfold trimEnd. pose proof (trimStart_head (rev s)) as H.
  destruct (trimStart (rev s)) as [|c r]; simpl; [done|].
  by rewrite last_snoc.
Qed.

(** What [trim] returns is a substring of its argument, between two runs
    of whitespace. *)
Lemma trim_split s :
  exists a b, s = a ++ trim s ++ b /\
    forallb isWhiteSpace a = true /\ forallb isWhiteSpace b = true.
Proof.
  unfold trim. destruct (trimStart_split s) as (a & Ha & Hwa).
  destruct (trimEnd_split (trimStart s)) as (b & Hb & Hwb).
  exists a, b. split; [|done]. by rewrite <- Hb.
Qed.

End StringFacts.

(** ** [JSON.parse]: the descent never runs out of fuel *)

Section JsonFacts.
Import JSON.

Lemma skipWs_length s : (length (skipWs s) <= length s)%nat.
Proof.
  induction s as [|c s IH]; simpl; [lia|].
  destruct (isJsonWs c); simpl; lia.
Qed.

Lemma parseChars_length_upto n : forall s acc str r,
  (length s <= n)%nat ->
  parseChars s acc = Some (str, r) -> (length r < length s)%nat.
Proof.
  induction n as [|n IH]; intros s acc str r Hn.
  { destruct s; [done|simpl in Hn; lia]. }
  destruct s as [|c s]; simpl; [done|]. simpl in Hn.
  destruct (isCh "034" c); [intros [= _ <-]; lia|].
  destruct (isCh "\" c).
  - destruct s as [|e s]; [done|].
    destruct (isCh "u" e).
    + destruct s as [|h1 [|h2 [|h3 [|h4 s]]]]; try done.
      destruct (hex4 h1 h2 h3 h4); [|done].
      intros H%IH; simpl in *; lia.
    + destruct (unescape e); [|done]. intros H%IH; simpl in *; lia.
  - destruct (c <? 32)%N; [done|]. intros H%IH; simpl in *; lia.
Qed.

Lemma parseChars_length s acc str r :
  parseChars s acc = Some (str, r) -> (length r < length s)%nat.
Proof. by apply (parseChars_length_upto (length s)). Qed.

Lemma takeDigits_length s :
  (length (takeDigits s).1 + length (takeDigits s).2 = length s)%nat.
Proof.
  induction s as [|c s IH]; simpl; [done|].
  destruct (isDigit c); [|simpl; lia].
  destruct (takeDigits s) as [ds r]. simpl in *. lia.
Qed.

Lemma parseExp_length s ex r :
  parseExp s = Some (ex, r) -> (length r <= length s)%nat.
Proof.
  unfold parseExp. destruct s as [|c s]; [intros [= _ <-]; lia|].
  destruct (isCh "e" c || isCh "E" c); [|intros [= _ <-]; lia].
  assert (Hp : (length (parseExpSign s).2 <= length s)%nat).
  { unfold parseExpSign. destruct s as [|x s'']; simpl; [lia|].
    destruct (isCh "-" x); simpl; [lia|]. destruct (isCh "+" x); simpl; lia. }
  destruct (parseExpSign s) as [neg s1]. simpl in Hp.
  pose proof (takeDigits_length s1) as Hd.
  destruct (takeDigits s1) as [[|d ds] r']; [done|].
  intros [= _ <-]. simpl in *. lia.
Qed.

Lemma parseFrac_length r0 fs r1 :
  parseFrac r0 = Some (fs, r1) -> (length r1 <= length r0)%nat.
Proof.
  unfold parseFrac. destruct r0 as [|c r']; [intros [= _ <-]; lia|].
  destruct (isCh "." c); [|intros [= _ <-]; lia].
  pose proof (takeDigits_length r') as Hd'.
  destruct (takeDigits r') as [[|f fs'] r'']; [done|].
  intros [= _ <-]. simpl in *. lia.
Qed.

Lemma parseNumber_length s v r :
  parseNumber s = Some (v, r) -> (length r < length s)%nat.
Proof.
  unfold parseNumber.
  assert (Hp : (length (parseSign s).2 <= length s)%nat).
  { unfold parseSign. destruct s as [|c s']; simpl; [lia|].
    destruct (isCh "-" c); simpl; lia. }
  destruct (parseSign s) as [neg s0]. simpl in Hp.
  pose proof (takeDigits_length s0) as Hd.
  destruct (takeDigits s0) as [[|d ds] r0]; [done|]. simpl in Hd.
  destruct (isCh "0" d && _); [done|].
  destruct (parseFrac r0) as [[fs r1]|] eqn:E; [|done].
  apply parseFrac_length in E.
  destruct (parseExp r1) as [[ex r2]|] eqn:Ee; [|done].
  apply parseExp_length in Ee. intros [= _ <-]. lia.
Qed.

#[local] Arguments startsWith : simpl never.
#[local] Arguments parseNumber : simpl never.
#[local] Arguments parseChars : simpl never.
#[local] Arguments skipWs : simpl never.
#[local] Arguments isCh : simpl never.
#[local] Arguments lit : simpl never.

(** Every parser consumes input. *)
Lemma parse_consumes n :
  (forall s v r, parseValue n s = Done (v, r) -> (length r < length s)%nat) /\
  (forall s acc v r,
     parseElements n s acc = Done (v, r) -> (length r < length s)%nat) /\
  (forall s acc v r,
     parseMembers n s acc = Done (v, r) -> (length r < length s)%nat).
Proof.
  induction n as [|n (IHv & IHe & IHm)]; [repeat split; intros; discriminate|].
  split; [|split].
  - intros s v r. simpl. pose proof (skipWs_length s) as Hs.
    destruct (skipWs s) as [|c t]; [done|]. simpl in Hs.
    destruct (isCh "{" c).
    { pose proof (skipWs_length t) as Ht.
      destruct (skipWs t) as [|c2 r2]; [done|]. simpl in Ht.
      destruct (isCh "}" c2); [intros [= _ <-]; lia|].
      intros H%IHm. simpl in H. lia. }
    destruct (isCh "[" c).
    { pose proof (skipWs_length t) as Ht.
      destruct (skipWs t) as [|c2 r2]; [done|]. simpl in Ht.
      destruct (isCh "]" c2); [intros [= _ <-]; lia|].
      intros H%IHe. simpl in H. lia. }
    destruct (isCh "034" c).
    { destruct (parseChars t []) as [[str r']|] eqn:E; [|done].
      apply parseChars_length in E. intros [= _ <-]. lia. }
    destruct (startsWith (lit "true") (c :: t)).
    { intros [= _ <-]. simpl. rewrite length_drop. lia. }
    destruct (startsWith (lit "false") (c :: t)).
    { intros [= _ <-]. simpl. rewrite length_drop. lia. }
    destruct (startsWith (lit "null") (c :: t)).
    { intros [= _ <-]. simpl. rewrite length_drop. lia. }
    destruct (parseNumber (c :: t)) as [[v' r']|] eqn:E; [|done].
    apply parseNumber_length in E. intros [= _ <-]. simpl in *. lia.
  - intros s acc v r. simpl.
    destruct (parseValue n s) as [[v' r']| |] eqn:E; try done.
    apply IHv in E. pose proof (skipWs_length r') as Hs.
    destruct (skipWs r') as [|c t]; [done|]. simpl in Hs.
    destruct (isCh "," c); [intros H%IHe; lia|].
    destruct (isCh "]" c); [|done]. intros [= _ <-]. lia.
  - intros s acc v r. simpl. pose proof (skipWs_length s) as Hs.
    destruct (skipWs s) as [|q t]; [done|]. simpl in Hs.
    destruct (isCh "034" q); [|done].
    destruct (parseChars t []) as [[k r1]|] eqn:Ek; [|done].
    apply parseChars_length in Ek. pose proof (skipWs_length r1) as Hs1.
    destruct (skipWs r1) as [|colon r2]; [done|]. simpl in Hs1.
    destruct (isCh ":" colon); [|done].
    destruct (parseValue n r2) as [[v' r3]| |] eqn:E; try done.
    apply IHv in E. pose proof (skipWs_length r3) as Hs3.
    destruct (skipWs r3) as [|c r4]; [done|]. simpl in Hs3.
    destruct (isCh "," c); [intros H%IHm; lia|].
    destruct (isCh "}" c); [|done]. intros [= _ <-]. lia.
Qed.

(** With fuel above twice the length of the input, no parser stops for
    want of fuel. *)
Lemma parse_fuel n :
  (forall s, (2 * length s < n)%nat -> parseValue n s <> OutOfFuel) /\
  (forall s acc, (2 * length s + 1 < n)%nat ->
     parseElements n s acc <> OutOfFuel) /\
  (forall s acc, (2 * length s + 1 < n)%nat ->
     parseMembers n s acc <> OutOfFuel).
Proof.
  induction n as [|n (IHv & IHe & IHm)]; [repeat split; intros; lia|].
  destruct (parse_consumes n) as (Cv & Ce & Cm).
  split; [|split].
  - intros s Hn. simpl. pose proof (skipWs_length s) as Hs.
    destruct (skipWs s) as [|c t]; [done|]. simpl in Hs.
    destruct (isCh "{" c).
    { pose proof (skipWs_length t) as Ht.
      destruct (skipWs t) as [|c2 r2]; [done|]. simpl in Ht.
      destruct (isCh "}" c2); [done|]. apply IHm. simpl. lia. }
    destruct (isCh "[" c).
    { pose proof (skipWs_length t) as Ht.
      destruct (skipWs t) as [|c2 r2]; [done|]. simpl in Ht.
      destruct (isCh "]" c2); [done|]. apply IHe. simpl. lia. }
    destruct (isCh "034" c); [by destruct (parseChars t []) as [[]|]|].
    destruct (startsWith _ _); [done|].
    destruct (startsWith _ _); [done|].
    destruct (startsWith _ _); [done|].
    by destruct (parseNumber _) as [[]|].
  - intros s acc Hn. simpl.
    destruct (parseValue n s) as [[v' r']| |] eqn:E; [|done|].
    + apply Cv in E. pose proof (skipWs_length r') as Hs.
      destruct (skipWs r') as [|c t]; [done|]. simpl in Hs.
      destruct (isCh "," c); [apply IHe; lia|].
      by destruct (isCh "]" c).
    + exfalso. revert E. apply IHv. lia.
  - intros s acc Hn. simpl. pose proof (skipWs_length s) as Hs.
    destruct (skipWs s) as [|q t]; [done|]. simpl in Hs.
    destruct (isCh "034" q); [|done].
    destruct (parseChars t []) as [[k r1]|] eqn:Ek; [|done].
    apply parseChars_length in Ek. pose proof (skipWs_length r1) as Hs1.
    destruct (skipWs r1) as [|colon r2]; [done|]. simpl in Hs1.
    destruct (isCh ":" colon); [|done].
    destruct (parseValue n r2) as [[v' r3]| |] eqn:E; [|done|].
    + apply Cv in E. pose proof (skipWs_length r3) as Hs3.
      destruct (skipWs r3) as [|c r4]; [done|]. simpl in Hs3.
      destruct (isCh "," c); [apply IHm; lia|].
      by destruct (isCh "}" c).
    + exfalso. revert E. apply IHv. lia.
Qed.

(** [JSON.parse] answers from the grammar alone: the fuel it starts with
    is enough for every input. *)
Lemma parse_never_out_of_fuel text :
  parseValue (fuelFor text) text <> OutOfFuel.
Proof. apply parse_fuel. unfold fuelFor. lia. Qed.

End JsonFacts.

(** ** The scan of [replace(/re/g, ' ')] *)

Section ReplaceFacts.

Variable m : list N -> option (list N).

(** The fuel of [replaceAll] is never used up: more fuel changes nothing. *)
Lemma replaceLoop_fuel rep : forall n n' s,
  (length s < n)%nat -> (length s < n')%nat ->
  replaceLoop n m rep s = replaceLoop n' m rep s.
Proof.
  induction n as [|n IH]; intros n' s Hn Hn'; [lia|].
  destruct n' as [|n']; [lia|]. simpl.
  destruct (m s) as [rest|].
  - destruct (Nat.ltb_spec (length rest) (length s)).
    + f_equal. apply IH; lia.
    + destruct s as [|c s']; [done|]. simpl in *.
      do 2 f_equal. apply IH; lia.
  - destruct s as [|c s']; [done|]. simpl in *. f_equal. apply IH; lia.
Qed.

(** The scan, unfolded once. *)
Lemma replaceAll_unfold rep s :
  replaceAll m rep s =
    match m s with
    | Some rest =>
        if (length rest <? length s)%nat then rep ++ replaceAll m rep rest
        else match s with
             | [] => rep
             | c :: s' => rep ++ c :: replaceAll m rep s'
             end
    | None =>
        match s with
        | [] => []
        | c :: s' => c :: replaceAll m rep s'
        end
    end.
Proof.
  unfold replaceAll at 1. simpl.
  destruct (m s) as [rest|].
  - destruct (Nat.ltb_spec (length rest) (length s)).
    + f_equal. apply replaceLoop_fuel; lia.
    + destruct s as [|c s']; [done|]. reflexivity.
  - destruct s as [|c s']; [done|]. reflexivity.
Qed.

(** A code unit of the output other than the space written for a match was
    copied from a position where the pattern does not match. *)
Lemma replaced_head d u s :
  replaceAll m [SP] s = d :: u -> d <> SP ->
  exists s', s = d :: s' /\ m s = None /\ u = replaceAll m [SP] s'.
Proof.
  rewrite replaceAll_unfold. intros H Hd.
  destruct (m s) as [rest|].
  - destruct (length rest <? length s)%nat; [simpl in H; congruence|].
    destruct s; simpl in H; congruence.
  - destruct s as [|c s']; [done|]. injection H as <- <-. eauto.
Qed.

(** The same for a block of such code units. *)
Lemma replaced_block p : forall u s,
  replaceAll m [SP] s = p ++ u -> Forall (fun c => c <> SP) p ->
  exists s', s = p ++ s' /\ u = replaceAll m [SP] s' /\
    (p <> [] -> m s = None).
Proof.
  induction p as [|d p IH]; intros u s H Hp; simpl in *.
  { exists s. done. }
  apply Forall_cons in Hp as [Hd Hp].
  destruct (replaced_head _ _ _ H Hd) as (s' & -> & Hm & Hu).
  destruct (IH u s' (eq_sym Hu) Hp) as (s'' & -> & Hu' & _).
  exists s''. split; [done|]. split; [done|]. intros _. exact Hm.
Qed.

(** A block of the output free of spaces stands in the input, at a
    position where the pattern does not match. *)
Lemma replaced_find p pre : forall post s,
  consuming m ->
  replaceAll m [SP] s = pre ++ p ++ post -> Forall (fun c => c <> SP) p ->
  exists a b, s = a ++ p ++ b /\ (p <> [] -> m (p ++ b) = None).
Proof.
  intros post s Hcons. revert s.
  induction pre as [|c pre IH]; intros s H Hp; simpl in H.
  - destruct (replaced_block _ _ _ H Hp) as (s' & -> & _ & Hm).
    by exists [], s'.
  - assert (Htail : exists x t, s = x ++ t /\
                      replaceAll m [SP] t = pre ++ p ++ post).
    { rewrite replaceAll_unfold in H. destruct (m s) as [rest|] eqn:E.
      - destruct (Hcons _ _ E) as (x & Hx & ->).
        destruct (Nat.ltb_spec (length rest) (length (x ++ rest))) as [_|Hl].
        + injection H as _ H. eauto.
        + rewrite length_app in Hl. destruct x; [done|simpl in Hl; lia].
      - destruct s as [|d s']; [done|]. injection H as _ H.
        by exists [d], s'. }
    destruct Htail as (x & t & -> & Ht).
    destruct (IH t Ht Hp) as (a & b & -> & Hm).
    exists (x ++ a), b. by rewrite <- app_assoc.
Qed.

End ReplaceFacts.

(** ** The two patterns of [stripCitations] *)

Section PatternFacts.
Import Server.

Lemma trimStart_skipRun s : trimStart s = skipRun isWhiteSpace s.
Proof. induction s as [|c s IH]; simpl; [done|]. by rewrite IH. Qed.

Lemma skipRun_split p s :
  exists w, s = w ++ skipRun p s /\ forallb p w = true.
Proof.
  induction s as [|c s (w & IH & Hw)]; simpl; [by exists []|].
  destruct (p c) eqn:E; [|by exists []].
  exists (c :: w). simpl. rewrite E, Hw. split; [by f_equal|done].
Qed.

Lemma skipRun_stop p c s : p c = false -> skipRun p (c :: s) = c :: s.
Proof. simpl. by intros ->. Qed.

Lemma skipRun_app p w s :
  forallb p w = true -> skipRun p (w ++ s) = skipRun p s.
Proof.
  induction w as [|c w IH]; simpl; [done|].
  intros [-> H]%andb_true_iff. by apply IH.
Qed.

(** Greedy [p*] before a continuation that refuses every [p]: no
    backtracking, the whole run is consumed. *)
Lemma star_commit {A} (p : N -> bool) (k : list N -> option A) :
  (forall c s, p c = true -> k (c :: s) = None) ->
  forall s, star p k s = k (skipRun p s).
Proof.
  intros Hk. induction s as [|c s IH]; simpl; [done|].
  destruct (p c) eqn:Hp; [|done]. rewrite IH.
  destruct (k (skipRun p s)) eqn:Ek; [done|]. by apply Hk.
Qed.

Lemma star_Some (p : N -> bool) s : star p Some s = Some (skipRun p s).
Proof.
  induction s as [|c s IH]; simpl; [done|].
  destruct (p c); [|done]. by rewrite IH.
Qed.

Lemma ws_not_bracket c : isWhiteSpace c = true -> isCh "[" c = false.
Proof.
  intros H. unfold isCh. destruct (N.eqb_spec c (N_of_ascii "[")) as [->|]; [|done].
  discriminate H.
Qed.

Lemma digit_not_bracket c : isDigit c = true -> isCh "]" c = false.
Proof.
  intros H. unfold isCh. destruct (N.eqb_spec c (N_of_ascii "]")) as [->|]; [|done].
  discriminate H.
Qed.

(** [citationRe] without its continuations: whitespace, a bracket, digits,
    a bracket, whitespace. *)
Lemma citationRe_eq s :
  citationRe s =
    match skipRun isWhiteSpace s with
    | b :: d :: t =>
        if isCh "[" b && isDigit d then
          match skipRun isDigit t with
          | e :: v => if isCh "]" e then Some (skipRun isWhiteSpace v) else None
          | [] => None
          end
        else None
    | _ => None
    end.
Proof.
  unfold citationRe. rewrite star_commit.
  2:{ intros c s' Hc. simpl. by rewrite ws_not_bracket. }
  destruct (skipRun isWhiteSpace s) as [|b [|d t]]; simpl; [done|by destruct (isCh "[" b)|].
  destruct (isCh "[" b); [|done]. simpl.
  destruct (isDigit d); [|done].
  rewrite star_commit.
  2:{ intros c s' Hc. simpl. by rewrite digit_not_bracket. }
  destruct (skipRun isDigit t) as [|e v]; simpl; [done|].
  destruct (isCh "]" e); [|done]. apply star_Some.
Qed.

Lemma spacesRe_eq s :
  spacesRe s =
    match s with
    | c :: s' => if isWhiteSpace c then Some (skipRun isWhiteSpace s') else None
    | [] => None
    end.
Proof.
  unfold spacesRe, plus. destruct s as [|c s']; simpl; [done|].
  destruct (isWhiteSpace c); [|done]. apply star_Some.
Qed.

Lemma citationRe_consuming : consuming citationRe.
Proof.
  intros s rest. rewrite citationRe_eq.
  destruct (skipRun_split isWhiteSpace s) as (w & Hs & _).
  destruct (skipRun isWhiteSpace s) as [|b [|d t]]; try done.
  destruct (isCh "[" b && isDigit d); [|done].
  destruct (skipRun_split isDigit t) as (ds & Ht & _).
  destruct (skipRun isDigit t) as [|e v]; [done|].
  destruct (isCh "]" e); [|done].
  destruct (skipRun_split isWhiteSpace v) as (w' & Hv & _).
  intros [= <-]. exists (w ++ b :: d :: ds ++ e :: w'). split.
  - by destruct w.
  - rewrite Hs, Ht. rewrite <- app_assoc. simpl. rewrite <- app_assoc.
    simpl. by rewrite <- Hv.
Qed.

Lemma spacesRe_consuming : consuming spacesRe.
Proof.
  intros s rest. rewrite spacesRe_eq. destruct s as [|c s']; [done|].
  destruct (isWhiteSpace c); [|done].
  destruct (skipRun_split isWhiteSpace s') as (w & Hs & _).
  intros [= <-]. exists (c :: w). split; [done|]. simpl. by f_equal.
Qed.

(** The pattern matches wherever a marker starts. *)
Lemma citationRe_marker ds post :
  ds <> [] -> forallb isDigit ds = true ->
  citationRe (marker ds ++ post) <> None.
Proof.
  intros Hne Hds. rewrite citationRe_eq. unfold marker. simpl.
  destruct ds as [|d ds]; [done|]. simpl in *.
  apply andb_true_iff in Hds as [Hd Hds]. rewrite Hd. simpl.
  rewrite <- app_assoc, skipRun_app by done. simpl. done.
Qed.

Lemma marker_no_space ds :
  forallb isDigit ds = true -> Forall (fun c => c <> SP) (marker ds).
Proof.
  intros H. unfold marker. apply Forall_app. split; [by repeat constructor|].
  apply Forall_app. split; [|by repeat constructor].
  apply Forall_forall. intros c Hc%list_elem_of_In. rewrite forallb_forall in H.
  apply H in Hc. by intros ->.
Qed.

Lemma hasMarker_within a s b : hasMarker s -> hasMarker (a ++ s ++ b).
Proof.
  intros (pre & ds & post & Hne & Hds & ->).
  exists (a ++ pre), ds, (post ++ b). split; [done|]. split; [done|].
  by rewrite <- !app_assoc.
Qed.

(** No marker is left by the first replacement. *)
Lemma citations_removed s : ~ hasMarker (replaceAll citationRe [SP] s).
Proof.
  intros (pre & ds & post & Hne & Hds & H).
  destruct (replaced_find citationRe (marker ds) pre post s
              citationRe_consuming H (marker_no_space ds Hds))
    as (a & b & _ & Hm).
  apply (citationRe_marker ds b Hne Hds). apply Hm. by destruct ds.
Qed.

(** The second replacement brings none back. *)
Lemma spaces_keep_markers s :
  hasMarker (replaceAll spacesRe [SP] s) -> hasMarker s.
Proof.
  intros (pre & ds & post & Hne & Hds & H).
  destruct (replaced_find spacesRe (marker ds) pre post s
              spacesRe_consuming H (marker_no_space ds Hds))
    as (a & b & -> & _).
  by exists a, ds, b.
Qed.

(** [stripString] leaves no citation marker. *)
Lemma stripString_no_marker s : ~ hasMarker (stripString s).
Proof.
  unfold stripString. intros H.
  destruct (trim_split (replaceAll spacesRe [SP] (replaceAll citationRe [SP] s)))
    as (a & b & E & _).
  apply (citations_removed s), spaces_keep_markers.
  rewrite E. by apply hasMarker_within.
Qed.

End PatternFacts.

(** ** Whitespace after [stripCitations] *)

Section CollapseFacts.
Import Server.

(** The second replacement, unfolded once. *)
Lemma collapse_unfold s :
  replaceAll spacesRe [SP] s =
    match s with
    | [] => []
    | c :: s' =>
        if isWhiteSpace c
        then SP :: replaceAll spacesRe [SP] (skipRun isWhiteSpace s')
        else c :: replaceAll spacesRe [SP] s'
    end.
Proof.
  rewrite replaceAll_unfold, spacesRe_eq. destruct s as [|c s']; [done|].
  destruct (isWhiteSpace c); [|done].
  destruct (skipRun_split isWhiteSpace s') as (w & Hs & _).
  destruct (Nat.ltb_spec (length (skipRun isWhiteSpace s')) (length (c :: s')));
    [done|].
  apply (f_equal length) in Hs. rewrite length_app in Hs.
  simpl in *. lia.
Qed.

Lemma skipRun_head p s :
  match skipRun p s with c :: _ => p c = false | [] => True end.
Proof.
  induction s as [|c s IH]; simpl; [done|].
  destruct (p c) eqn:E; done.
Qed.

Lemma collapse_head s :
  match s with c :: _ => isWhiteSpace c = false | [] => True end ->
  match replaceAll spacesRe [SP] s with
  | c :: _ => isWhiteSpace c = false
  | [] => True
  end.
Proof.
  rewrite collapse_unfold. destruct s as [|c s']; [done|].
  intros H. rewrite H. exact H.
Qed.

Lemma collapse_spaced_upto n : forall s,
  (length s <= n)%nat -> spaced false (replaceAll spacesRe [SP] s) = true.
Proof.
  induction n as [|n IH]; intros s Hn.
  - destruct s; [done|simpl in Hn; lia].
  - rewrite collapse_unfold. destruct s as [|c s']; [done|]. simpl in Hn.
    destruct (isWhiteSpace c) eqn:E.
    + destruct (skipRun_split isWhiteSpace s') as (w & Hs & _).
      assert (Hl : (length (skipRun isWhiteSpace s') <= n)%nat).
      { apply (f_equal length) in Hs. rewrite length_app in Hs. lia. }
      pose proof (collapse_head _ (skipRun_head isWhiteSpace s')) as Hh.
      simpl. rewrite (IH _ Hl).
      destruct (replaceAll spacesRe [SP] (skipRun isWhiteSpace s')); [done|].
      by rewrite Hh.
    + simpl. rewrite E. apply IH. lia.
Qed.

Lemma collapse_spaced s : spaced false (replaceAll spacesRe [SP] s) = true.
Proof. by apply (collapse_spaced_upto (length s)). Qed.

Lemma spaced_suffix strict a s : spaced strict (a ++ s) = true -> spaced strict s = true.
Proof.
  induction a as [|c a IH]; simpl; [done|].
  intros [_ H]%andb_true_iff. by apply IH.
Qed.

(** A prefix that ends outside whitespace is strictly spaced. *)
Lemma spaced_prefix b : forall t,
  spaced false (t ++ b) = true ->
  match last t with Some c => isWhiteSpace c = false | None => True end ->
  spaced true t = true.
Proof.
  induction t as [|c t IH]; simpl; [done|].
  intros [Hc Ht]%andb_true_iff Hlast.
  rewrite IH; [|done|by destruct t].
  rewrite andb_true_r. destruct (isWhiteSpace c) eqn:E; [|done].
  destruct t as [|d t]; simpl in *; [congruence|done].
Qed.

Lemma trimEnd_head u :
  match u with c :: _ => isWhiteSpace c = false | [] => True end ->
  match trimEnd u with c :: _ => isWhiteSpace c = false | [] => True end.
Proof.
  destruct (trimEnd_split u) as (w & Hu & _). intros H.
  destruct (trimEnd u) as [|c r]; [done|]. by rewrite Hu in H.
Qed.

(** What [trim] returns starts and ends outside whitespace. *)
Lemma trim_ends s :
  match trim s with c :: _ => isWhiteSpace c = false | [] => True end /\
  match last (trim s) with Some c => isWhiteSpace c = false | None => True end.
Proof.
  unfold trim. split; [apply trimEnd_head, trimStart_head|apply trimEnd_last].
Qed.

Lemma trimEnd_id t :
  match last t with Some c => isWhiteSpace c = false | None => True end ->
  trimEnd t = t.
Proof.
  intros H. unfold trimEnd. rewrite trimStart_id; [apply rev_involutive|].
  destruct t as [|c t] using rev_ind; [done|].
  rewrite rev_app_distr. simpl. by rewrite last_snoc in H.
Qed.

(** [trim] is idempotent: its result is trimmed. *)
Lemma trim_idem s : trim (trim s) = trim s.
Proof.
  destruct (trim_ends s) as [Hh Hl]. unfold trim at 1.
  rewrite (trimStart_id _ Hh). by apply trimEnd_id.
Qed.

(** After [stripString], whitespace is collapsed and the ends trimmed. *)
Lemma stripString_collapsed s : wsCollapsed (stripString s) = true.
Proof.
  unfold stripString, wsCollapsed.
  set (u := replaceAll spacesRe [SP] (replaceAll citationRe [SP] s)).
  destruct (trim_ends u) as [Hh Hl].
  destruct (trim_split u) as (a & b & Hu & _).
  apply andb_true_iff. split.
  - destruct (trim u); [done|]. by rewrite Hh.
  - apply (spaced_prefix b); [|done].
    apply (spaced_suffix false a). rewrite <- Hu. apply collapse_spaced.
Qed.

Lemma stripString_trimmed s : trim (stripString s) = stripString s.
Proof. unfold stripString. apply trim_idem. Qed.

End CollapseFacts.

(** ** The response normalizer *)

Section ValueFacts.

Lemma allStrings_arr P items :
  allStrings P (VArr items) <-> Forall (allStrings P) items.
Proof.
  simpl. induction items as [|x l IH]; [split; constructor|].
  rewrite Forall_cons, IH. done.
Qed.

Lemma allStrings_obj P props :
  allStrings P (VObj props) <-> Forall (fun kv => allStrings P kv.2) props.
Proof.
  simpl. induction props as [|[k x] l IH]; [split; constructor|].
  rewrite Forall_cons, IH. done.
Qed.

Lemma allStrings_proto P proto props :
  allStrings P (VProto proto props) <->
  allStrings P proto /\ Forall (fun kv => allStrings P kv.2) props.
Proof.
  simpl. apply and_iff_compat_l.
  induction props as [|[k x] l IH]; [split; constructor|].
  rewrite Forall_cons, IH. done.
Qed.

Lemma lookup_In k props v :
  lookup k props = Some v -> exists k', In (k', v) props.
Proof.
  induction props as [|[k' x] l IH]; simpl; [done|].
  destruct (eqs k k'); [intros [= ->]; eauto|].
  intros [k'' H]%IH. eauto.
Qed.

End ValueFacts.

Section StripFacts.
Import Server.

Lemma stripString_clean s : clean (stripString s).
Proof. split; [apply stripString_no_marker|apply stripString_collapsed]. Qed.

(** The own properties that [assignAll] defines are entries it was
    given. *)
Lemma own_Forall (Q : list N * jsval -> Prop) entries :
  Forall Q entries ->
  Forall Q (List.filter (fun kv => negb (eqs kv.1 PROTO)) entries).
Proof.
  intros H. apply Forall_forall. intros kv Hkv%list_elem_of_In%filter_In.
  rewrite Forall_forall in H. apply H, list_elem_of_In, Hkv.
Qed.

Lemma assignAll_allStrings P entries :
  Forall (fun kv => allStrings P kv.2) entries ->
  allStrings P (assignAll entries).
Proof.
  intros H. pose proof (own_Forall _ _ H) as Hown. unfold assignAll.
  destruct (lookup PROTO entries) as [proto|] eqn:E;
    [|by apply allStrings_obj].
  destruct (isObjectType proto); [|by apply allStrings_obj].
  apply allStrings_proto. split; [|done].
  apply lookup_In in E as [k' Hk].
  rewrite Forall_forall in H. apply (H (k', proto)), list_elem_of_In, Hk.
Qed.

(** Every string of what [stripCitations] returns is clean. *)
Lemma stripCitations_clean v : allStrings clean (stripCitations v).
Proof.
  induction v as [| | | | s | items IH | props IH | proto props _ IH]
    using jsval_nested_ind; try exact I.
  - apply stripString_clean.
  - change (allStrings clean (VArr (List.map stripCitations items))).
    apply allStrings_arr. apply Forall_map. exact IH.
  - change (allStrings clean
              (assignAll
                 (List.map (fun kv => match kv with
                                      | (k, x) => (k, stripCitations x)
                                      end) props))).
    apply assignAll_allStrings.
    apply Forall_map. eapply Forall_impl; [exact IH|].
    intros [k x] H. exact H.
  - change (allStrings clean
              (assignAll
                 (List.map (fun kv => match kv with
                                      | (k, x) => (k, stripCitations x)
                                      end) props))).
    apply assignAll_allStrings.
    apply Forall_map. eapply Forall_impl; [exact IH|].
    intros [k x] H. exact H.
Qed.

End StripFacts.

Section NormalizerFacts.
Import Server.

Variable lowerOther : N -> list N.

Lemma nonBlank_trim v :
  nonBlank v = true -> trimmedNonEmpty (trim (strOf v)).
Proof.
  unfold nonBlank, trimmedNonEmpty. intros H. split; [apply trim_idem|].
  by destruct (trim (strOf v)).
Qed.

Lemma normArg_ok arg : argOk arg = true -> isArgument trimmedNonEmpty (normArg arg).
Proof.
  unfold argOk. intros [_ H]%andb_true_iff. eexists. split; [reflexivity|].
  by apply nonBlank_trim.
Qed.

Lemma normDef_ok def : defOk def = true -> isDefinition trimmedNonEmpty (normDef def).
Proof.
  unfold defOk. rewrite !andb_true_iff. intros [[_ H1] H2].
  eexists _, _. split; [reflexivity|]. split; by apply nonBlank_trim.
Qed.

Lemma normArticle_ok a : articleOk a = true -> isArticle trimmedNonEmpty (normArticle a).
Proof.
  unfold articleOk. rewrite !andb_true_iff. intros [[_ H1] H2].
  eexists _, _. split; [reflexivity|]. split; by apply nonBlank_trim.
Qed.

Lemma Forall_map_filter {A B} (Q : B -> Prop) (f : A -> B) (p : A -> bool) l :
  (forall x, p x = true -> Q (f x)) -> Forall Q (List.map f (List.filter p l)).
Proof.
  intros H. apply Forall_map, Forall_forall.
  intros x Hx%list_elem_of_In%filter_In. apply H, Hx.
Qed.

Lemma Forall_filter_keep {A} (Q : A -> Prop) (p : A -> bool) l :
  Forall Q l -> Forall Q (List.filter p l).
Proof.
  rewrite !Forall_forall. intros H x Hx%list_elem_of_In%filter_In.
  apply H, list_elem_of_In, Hx.
Qed.

Lemma normArgs_ok args name :
  Forall (isArgument trimmedNonEmpty) (normArgs args name) /\
  (length (normArgs args name) <= 20)%nat.
Proof.
  unfold normArgs. destruct (isArray (get args name)).
  - split; [|rewrite length_take; lia].
    apply Forall_take, Forall_map_filter, normArg_ok.
  - split; [constructor|simpl; lia].
Qed.

(** What validation returns is well formed, its strings trimmed and not
    empty. *)
Lemma validate_wellFormed data v :
  validateAndNormalizeResponse lowerOther data = Some v ->
  wellFormed trimmedNonEmpty v.
Proof.
  unfold validateAndNormalizeResponse.
  destruct (_ || _); [done|]. intros [= <-].
  eexists _, _, _, _. split; [reflexivity|].
  split; [|split; [|split; [|split]]].
  - destruct (isArray _); [|constructor].
    apply Forall_filter_keep, Forall_take, Forall_map_filter, normArticle_ok.
  - destruct (isArray _); [|simpl; lia].
    etransitivity; [apply List.filter_length_le|]. rewrite length_take. lia.
  - destruct (isArray _); [|constructor].
    apply Forall_take, Forall_map_filter, normDef_ok.
  - destruct (isArray _); [|simpl; lia]. rewrite length_take. lia.
  - destruct (truthy _ && _).
    + pose proof (normArgs_ok (get data (lit "arguments")) (lit "main")).
      pose proof (normArgs_ok (get data (lit "arguments")) (lit "counter")).
      tauto.
    + repeat split; try constructor; simpl; lia.
Qed.

Lemma strip_mkResult ra ds ms cs :
  stripCitations (mkResult ra ds ms cs) =
    mkResult (List.map stripCitations ra) (List.map stripCitations ds)
      (List.map stripCitations ms) (List.map stripCitations cs).
Proof. reflexivity. Qed.

Lemma strip_argument P v :
  isArgument P v -> isArgument trimmed (stripCitations v).
Proof.
  intros (s & -> & _). eexists. split; [reflexivity|].
  apply stripString_trimmed.
Qed.

Lemma strip_definition P v :
  isDefinition P v -> isDefinition trimmed (stripCitations v).
Proof.
  intros (t & d & -> & _). eexists _, _. split; [reflexivity|].
  split; apply stripString_trimmed.
Qed.

Lemma strip_article P v :
  isArticle P v -> isArticle trimmed (stripCitations v).
Proof.
  intros (t & u & -> & _). eexists _, _. split; [reflexivity|].
  split; apply stripString_trimmed.
Qed.

(** [stripCitations] keeps a result well formed and its strings
    trimmed. *)
Lemma strip_wellFormed P r :
  wellFormed P r -> wellFormed trimmed (stripCitations r).
Proof.
  intros (ra & ds & ms & cs & -> & Hra & Lra & Hds & Lds & Hms & Lms & Hcs & Lcs).
  rewrite strip_mkResult. eexists _, _, _, _. split; [reflexivity|].
  rewrite !length_map.
  repeat split; try done; apply Forall_map;
    (eapply Forall_impl; [eassumption|]); intros x;
    [apply strip_article|apply strip_definition
    |apply strip_argument|apply strip_argument].
Qed.

Lemma tryParse_wellFormed source r :
  tryParse lowerOther source = Some r ->
  wellFormed trimmed r /\ allStrings clean r.
Proof.
  unfold tryParse. destruct (JSON.parse source) as [parsed|]; [|done].
  destruct (validateAndNormalizeResponse lowerOther parsed) as [v|] eqn:E; [|done].
  intros [= <-]. split; [|apply stripCitations_clean].
  eapply strip_wellFormed, validate_wellFormed, E.
Qed.

(** What a JSON tier returns went through [stripCitations]. *)
Lemma jsonTiers_wellFormed text r :
  jsonTiers lowerOther text = Some r ->
  wellFormed trimmed r /\ allStrings clean r.
Proof.
  unfold jsonTiers, tier.
  destruct (jsonCodeBlockMatch text) as [s1|];
    [destruct (tryParse lowerOther s1) eqn:E1;
       [intros [= <-]; by apply (tryParse_wellFormed s1)|]|];
  (destruct (codeBlockMatch text) as [s2|];
    [destruct (tryParse lowerOther s2) eqn:E2;
       [intros [= <-]; by apply (tryParse_wellFormed s2)|]|]);
  (destruct (jsonObjectMatch text) as [s3|];
    [destruct (tryParse lowerOther s3) eqn:E3;
       [intros [= <-]; by apply (tryParse_wellFormed s3)|]|]);
  apply tryParse_wellFormed.
Qed.

Lemma fallback_wellFormed text : wellFormed (fun _ => True) (fallback text).
Proof.
  eexists _, _, _, _. split; [reflexivity|].
  repeat split; try constructor; simpl; try lia.
  - by eexists.
  - constructor.
Qed.

Lemma wellFormed_weaken (P Q : list N -> Prop) r :
  (forall s, P s -> Q s) -> wellFormed P r -> wellFormed Q r.
Proof.
  intros HPQ (ra & ds & ms & cs & -> & Hra & Lra & Hds & Lds & Hms & Lms & Hcs & Lcs).
  eexists _, _, _, _. split; [reflexivity|].
  repeat split; try done.
  - eapply Forall_impl; [exact Hra|]. intros x (t & u & -> & ? & ?).
    eexists _, _. eauto.
  - eapply Forall_impl; [exact Hds|]. intros x (t & u & -> & ? & ?).
    eexists _, _. eauto.
  - eapply Forall_impl; [exact Hms|]. intros x (t & -> & ?). eexists. eauto.
  - eapply Forall_impl; [exact Hcs|]. intros x (t & -> & ?). eexists. eauto.
Qed.

End NormalizerFacts.

Section NormalizerClaims.
Import Server.

Variable lowerOther : N -> list N.

(** C1, as stated, fails on the empty input: no tier parses it, and the
    fallback hands back the raw text, here an empty string, as the main
    argument. *)
Lemma fallback_empty_argument :
  (forall lo, parseGeminiResponse lo [] = mkResult [] [] [VStr []] []) /\
  ~ isArgument trimmedNonEmpty (VStr []).
Proof.
  split; [intros lo; vm_compute; reflexivity|].
  intros (s & [= <-] & _ & H). done.
Qed.

(** C1 (amended): [parseGeminiResponse] is a total function of its input;
    every [throw] inside it is caught by the [try] of its tier.  Its
    result is always a record of [relatedArticles], [definitions] (at most
    20 pairs of strings [term], [definition]) and [arguments] with [main]
    and [counter] (at most 20 strings each).  When a JSON tier succeeds the
    strings are trimmed.  When every tier fails the result has no
    definition, no counter-argument, and one main argument: the first 500
    code units of the raw text, as they are, followed by three dots when
    the text is longer. *)
Theorem parse_wellFormed (text : list N) :
  wellFormed (fun _ => True) (parseGeminiResponse lowerOther text) /\
  (forall r, jsonTiers lowerOther text = Some r ->
     parseGeminiResponse lowerOther text = r /\ wellFormed trimmed r) /\
  (jsonTiers lowerOther text = None ->
     parseGeminiResponse lowerOther text =
       mkResult [] []
         [VStr (substring0 500 text
                ++ (if (500 <? length text)%nat then lit "..." else []))]
         []).
Proof.
  unfold parseGeminiResponse.
  destruct (jsonTiers lowerOther text) as [r|] eqn:E.
  - destruct (jsonTiers_wellFormed lowerOther text r E) as [Hw _].
    split; [|split; [|done]].
    + by apply (wellFormed_weaken trimmed).
    + intros r' [= <-]. done.
  - split; [apply fallback_wellFormed|]. split; [done|]. reflexivity.
Qed.

(** C7, as stated, fails on the fallback path: a reply that is not JSON
    comes back as it is, citation marker included. *)
Lemma fallback_keeps_marker :
  (forall lo, parseGeminiResponse lo (lit "see [1]")
              = mkResult [] [] [VStr (lit "see [1]")] []) /\
  hasMarker (lit "see [1]").
Proof.
  split; [intros lo; vm_compute; reflexivity|].
  exists (lit "see "), (lit "1"), []. done.
Qed.

(** C7 (amended): in what [stripCitations] returns, and so in every result
    of a JSON tier of [parseGeminiResponse], no string at any depth holds a
    citation marker, whitespace is collapsed to single spaces and the ends
    are trimmed.  When every tier fails the fallback returns the raw text
    without this pass. *)
Theorem citations_stripped (text : list N) :
  (forall v, allStrings clean (stripCitations v)) /\
  (forall r, jsonTiers lowerOther text = Some r ->
     parseGeminiResponse lowerOther text = r /\ allStrings clean r) /\
  (jsonTiers lowerOther text = None ->
     parseGeminiResponse lowerOther text = fallback text).
Proof.
  split; [apply stripCitations_clean|].
  unfold parseGeminiResponse.
  destruct (jsonTiers lowerOther text) as [r|] eqn:E; [|done].
  destruct (jsonTiers_wellFormed lowerOther text r E) as [_ Hc].
  split; [|done]. intros r' [= <-]. done.
Qed.

End NormalizerClaims.

(** The fenced reply: one main argument, its marker gone. *)
Lemma parse_wellFormed_witness :
  wellFormed trimmed (Server.mkResult [] [] [VStr (lit "x y")] []).
Proof.
  refine (proj2 (proj1 (proj2 (parse_wellFormed (fun c => [c]) sampleReply))
                   _ _)).
  vm_compute. reflexivity.
Defined.

Lemma citations_stripped_witness :
  allStrings clean (Server.mkResult [] [] [VStr (lit "x y")] []).
Proof.
  refine (proj2 (proj1 (proj2 (citations_stripped (fun c => [c]) sampleReply))
                   _ _)).
  vm_compute. reflexivity.
Defined.

(** ** Related articles *)

Section UrlFacts.
Import Server.

Variable lowerOther : N -> list N.

Lemma toLowerCase_app a b :
  toLowerCase lowerOther (a ++ b)
    = toLowerCase lowerOther a ++ toLowerCase lowerOther b.
Proof. apply flat_map_app. Qed.

(** The patterns are lower-case ASCII: [toLowerCase] leaves them alone, and
    they hold no space. *)
Lemma pattern_plain p :
  In p suspiciousPatterns ->
  toLowerCase lowerOther p = p /\ Forall (fun c => c <> SP) p.
Proof.
  intros H. simpl in H.
  repeat (destruct H as [<-|H];
          [split; [reflexivity|repeat constructor; discriminate]|]).
  destruct H.
Qed.

(** A pattern in a URL is still there once the URL is lower-cased. *)
Lemma includes_lower p s :
  In p suspiciousPatterns ->
  includes p s = true -> includes p (toLowerCase lowerOther s) = true.
Proof.
  intros Hp (a & b & ->)%includes_spec. apply includes_spec.
  rewrite !toLowerCase_app, (proj1 (pattern_plain p Hp)). eauto.
Qed.

(** A block without spaces in a stripped string was in the string. *)
Lemma includes_stripped p s :
  Forall (fun c => c <> SP) p ->
  includes p (stripString s) = true -> includes p s = true.
Proof.
  intros Hp (a & b & E)%includes_spec. apply includes_spec.
  unfold stripString in E.
  destruct (trim_split (replaceAll spacesRe [SP] (replaceAll citationRe [SP] s)))
    as (a0 & b0 & E0 & _).
  rewrite E in E0.
  replace (a0 ++ (a ++ p ++ b) ++ b0) with ((a0 ++ a) ++ p ++ (b ++ b0)) in E0
    by (by rewrite <- !app_assoc).
  destruct (replaced_find spacesRe p _ _ _ spacesRe_consuming E0 Hp)
    as (a1 & b1 & E1 & _).
  destruct (replaced_find citationRe p _ _ _ citationRe_consuming E1 Hp)
    as (a2 & b2 & E2 & _).
  eauto.
Qed.

Lemma isSuspicious_false a :
  isSuspicious lowerOther a = false <->
  forall p, In p suspiciousPatterns ->
    includes p (toLowerCase lowerOther (urlOf a)) = false.
Proof.
  unfold isSuspicious, urlOf. rewrite <- not_true_iff_false, existsb_exists.
  split.
  - intros H p Hp. apply not_true_iff_false. intros Hi. apply H. eauto.
  - intros H (p & Hp & Hi). by rewrite (H p Hp) in Hi.
Qed.

(** The articles validation keeps. *)
Lemma validate_related data v :
  validateAndNormalizeResponse lowerOther data = Some v ->
  relatedOf v =
    List.filter (fun a => negb (isSuspicious lowerOther a))
      (firstn 10
         (List.map normArticle
            (List.filter articleOk
               (itemsOf (get data (lit "relatedArticles")))))).
Proof.
  unfold validateAndNormalizeResponse.
  destruct (_ || _); [done|]. intros [= <-].
  unfold relatedOf. change (get (mkResult ?ra _ _ _) (lit "relatedArticles"))
    with (VArr ra). simpl itemsOf.
  destruct (get data (lit "relatedArticles")); try done.
Qed.

Lemma tryParse_origin source r :
  tryParse lowerOther source = Some r ->
  exists data v,
    validateAndNormalizeResponse lowerOther data = Some v /\
    r = stripCitations v.
Proof.
  unfold tryParse. destruct (JSON.parse source) as [parsed|]; [|done].
  destruct (validateAndNormalizeResponse lowerOther parsed) as [v|] eqn:E;
    [|done].
  intros [= <-]. eauto.
Qed.

Lemma jsonTiers_origin text r :
  jsonTiers lowerOther text = Some r ->
  exists data v,
    validateAndNormalizeResponse lowerOther data = Some v /\
    r = stripCitations v.
Proof.
  unfold jsonTiers, tier.
  destruct (jsonCodeBlockMatch text) as [s1|];
    [destruct (tryParse lowerOther s1) eqn:E1;
       [intros [= <-]; by apply (tryParse_origin s1)|]|];
  (destruct (codeBlockMatch text) as [s2|];
    [destruct (tryParse lowerOther s2) eqn:E2;
       [intros [= <-]; by apply (tryParse_origin s2)|]|]);
  (destruct (jsonObjectMatch text) as [s3|];
    [destruct (tryParse lowerOther s3) eqn:E3;
       [intros [= <-]; by apply (tryParse_origin s3)|]|]);
  apply tryParse_origin.
Qed.

(** No kept URL holds a pattern, before or after [stripCitations]. *)
Lemma kept_urls_plain data v a p :
  validateAndNormalizeResponse lowerOther data = Some v ->
  In p suspiciousPatterns ->
  (In a (relatedOf v) -> includes p (urlOf a) = false) /\
  (In a (relatedOf (stripCitations v)) -> includes p (urlOf a) = false).
Proof.
  intros Hv Hp.
  assert (Hkept : forall x, In x (relatedOf v) ->
            includes p (urlOf x) = false /\ isArticle trimmedNonEmpty x).
  { intros x Hx. split.
    - rewrite (validate_related _ _ Hv) in Hx.
      apply filter_In in Hx as [_ Hx%negb_true_iff].
      apply not_true_iff_false. intros Hi%(includes_lower p _ Hp).
      by rewrite (proj1 (isSuspicious_false x) Hx p Hp) in Hi.
    - destruct (validate_wellFormed lowerOther data v Hv)
        as (ra & ds & ms & cs & -> & Hra & _).
      rewrite Forall_forall in Hra. apply Hra, list_elem_of_In, Hx. }
  split; [intros Ha; by apply Hkept|].
  destruct (validate_wellFormed lowerOther data v Hv)
    as (ra & ds & ms & cs & E & _).
  rewrite E, strip_mkResult. unfold relatedOf.
  change (get (mkResult ?x _ _ _) (lit "relatedArticles")) with (VArr x).
  simpl itemsOf. intros (x & <- & Hx)%in_map_iff.
  assert (Hx' : In x (relatedOf v)) by (by rewrite E).
  destruct (Hkept x Hx') as [Hno (t & u & -> & _)].
  change (urlOf (stripCitations (mkArticle t u))) with (stripString u).
  change (urlOf (mkArticle t u)) with u in Hno.
  apply not_true_iff_false. intros Hi.
  apply (includes_stripped p u (proj2 (pattern_plain p Hp))) in Hi. congruence.
Qed.

(** C9: validation keeps, of the first ten well-typed articles, exactly
    those whose lower-cased URL contains none of the six patterns, wherever
    in the URL: [latest.com] contains [test.com] and is dropped, and so is a
    pattern in a path.  Hence no URL of [relatedArticles] contains a
    pattern, in what validation returns, after [stripCitations], and in
    every result of [parseGeminiResponse]. *)
Theorem suspicious_urls_dropped (data v : jsval) (text : list N) :
  (validateAndNormalizeResponse lowerOther data = Some v ->
   (forall a,
      In a (relatedOf v) <->
      In a (firstn 10
              (List.map normArticle
                 (List.filter articleOk
                    (itemsOf (get data (lit "relatedArticles")))))) /\
      forall p, In p suspiciousPatterns ->
        includes p (toLowerCase lowerOther (urlOf a)) = false) /\
   (forall a p, In p suspiciousPatterns ->
      (In a (relatedOf v) -> includes p (urlOf a) = false) /\
      (In a (relatedOf (stripCitations v)) -> includes p (urlOf a) = false))) /\
  (forall a p,
     In a (relatedOf (parseGeminiResponse lowerOther text)) ->
     In p suspiciousPatterns -> includes p (urlOf a) = false) /\
  (forall title,
     isSuspicious lowerOther (mkArticle title (lit "https://latest.com/news"))
       = true /\
     isSuspicious lowerOther
       (mkArticle title (lit "https://news.org/q?src=Example.COM")) = true).
Proof.
  split; [|split].
  - intros Hv. split.
    + intros a. rewrite (validate_related _ _ Hv), filter_In, negb_true_iff.
      by rewrite isSuspicious_false.
    + intros a p Hp. by apply (kept_urls_plain data).
  - intros a p Ha Hp. unfold parseGeminiResponse in Ha.
    destruct (jsonTiers lowerOther text) as [r|] eqn:E; [|destruct Ha].
    destruct (jsonTiers_origin text r E) as (d & w & Hw & ->).
    by apply (kept_urls_plain d w a p Hw Hp).
  - intros title. split; reflexivity.
Qed.

End UrlFacts.

Lemma suspicious_urls_dropped_witness :
  includes (lit "test.com")
    (urlOf (Server.mkArticle (lit "Paper") (lit "https://journal.org/p1")))
    = false.
Proof.
  refine (proj1 (proj2 (proj1 (suspicious_urls_dropped (fun c => [c])
            sampleArticles
            (Server.mkResult
               [Server.mkArticle (lit "Paper") (lit "https://journal.org/p1")]
               [] [] [])
            []) _)
          (Server.mkArticle (lit "Paper") (lit "https://journal.org/p1"))
          (lit "test.com") _) _).
  - vm_compute. reflexivity.
  - simpl. tauto.
  - left. reflexivity.
Defined.

(** ** The [/search] selection *)

Section SearchFacts.
Import Server.

Lemma addChunks_grounded chunks : forall urls articles,
  Forall isGrounded articles ->
  Forall isGrounded (addChunks chunks urls articles).2.
Proof.
  induction chunks as [|c rest IH]; intros urls articles H; simpl; [done|].
  destruct (web c) as [[[[|u us]|] t]|]; simpl; try by apply IH.
  destruct (existsb _ urls); apply IH; [done|].
  apply Forall_app. split; [done|]. constructor; [|constructor].
  eexists _, _. split; [reflexivity|done].
Qed.

Lemma addCandidates_grounded cs : forall urls articles,
  Forall isGrounded articles ->
  Forall isGrounded (addCandidates cs urls articles).
Proof.
  induction cs as [|c rest IH]; intros urls articles H; simpl; [done|].
  destruct (groundingMetadata c) as [[[chunks|]]|]; try by apply IH.
  pose proof (addChunks_grounded chunks urls articles H) as H'.
  destruct (addChunks chunks urls articles) as [urls' articles']. simpl in H'.
  destruct (nonEmpty articles'); [done|by apply IH].
Qed.

(** What the grounding extractor returns: at most ten grounding
    articles. *)
Lemma extract_grounded response :
  Forall isGrounded (extractRelatedArticlesFromGrounding response) /\
  (length (extractRelatedArticlesFromGrounding response) <= 10)%nat.
Proof.
  unfold extractRelatedArticlesFromGrounding. split.
  - apply Forall_take, addCandidates_grounded. constructor.
  - rewrite length_take. lia.
Qed.

Variable arrayIncludes : jsval -> list N -> option bool.
Variable urlConstructs objectConverts : jsval -> bool.

Local Abbreviation isRedirect := (isRedirect arrayIncludes).
Local Abbreviation redirectShaped := (redirectShaped arrayIncludes).
Local Abbreviation selected := (selection arrayIncludes).
Local Abbreviation urlOk := (urlOk urlConstructs objectConverts).
Local Abbreviation urlKept := (urlKept urlConstructs objectConverts).
Local Abbreviation logs := (logs objectConverts).
Local Abbreviation searchArticles :=
  (searchArticles arrayIncludes urlConstructs objectConverts).

Lemma grounded_plain a : isGrounded a -> plainEntry a.
Proof. intros (t & u & -> & _). by exists t, u. Qed.

(** On an entry with a string for URL the shape test does not throw, nor
    does the URL filter; with a string for title, nor does the log. *)
Lemma plain_no_throw a :
  plainEntry a -> isRedirect a <> None /\ urlOk a <> None /\ logs a = true.
Proof.
  intros (t & u & Ht & Hu). unfold Server.isRedirect, Server.urlOk, Server.logs.
  rewrite Ht, Hu. simpl. split; [|split; [|done]].
  - by destruct u.
  - by destruct (urlConstructs (VStr u)).
Qed.

Lemma grounded_no_throw a : isGrounded a -> isRedirect a <> None.
Proof. intros H%grounded_plain. by apply plain_no_throw. Qed.

Lemma filterE_Some (p : jsval -> option bool) l :
  Forall (fun a => p a <> None) l ->
  filterE p l
    = Some (List.filter
              (fun a => match p a with Some true => true | _ => false end) l).
Proof.
  induction l as [|x l IH]; intros H; simpl; [done|].
  apply Forall_cons in H as [Hx Hl]. rewrite (IH Hl).
  destruct (p x) as [[]|]; done.
Qed.

Lemma filterE_None (p : jsval -> option bool) l :
  Exists (fun a => p a = None) l -> filterE p l = None.
Proof.
  induction 1 as [x l Hx|x l _ IH]; simpl.
  - by rewrite Hx.
  - rewrite IH. by destruct (p x).
Qed.

(** [filterE] throws exactly when the predicate throws on an element. *)
Lemma filterE_cases (p : jsval -> option bool) l :
  (Forall (fun a => p a <> None) l /\
   filterE p l
     = Some (List.filter
               (fun a => match p a with Some true => true | _ => false end) l))
  \/ (Exists (fun a => p a = None) l /\ filterE p l = None).
Proof.
  induction l as [|x l [[Hl El]|[Hl El]]]; simpl.
  - left. split; [constructor|done].
  - destruct (p x) as [b|] eqn:Ex.
    + left. split; [constructor; [by rewrite Ex|done]|].
      rewrite El. by destruct b.
    + right. split; [by left|done].
  - right. split; [by right|]. rewrite El. by destruct (p x).
Qed.

Lemma nonEmpty_filter {A} (p : A -> bool) l :
  nonEmpty (List.filter p l) = existsb p l.
Proof.
  induction l as [|x l IH]; simpl; [done|]. destruct (p x); simpl; done.
Qed.

(** The selection, when the shape test throws on no entry. *)
Lemma selectArticles_tiers grounded json :
  Forall (fun a => isRedirect a <> None) (grounded ++ json) ->
  selectArticles arrayIncludes grounded json = Some (selected grounded json).
Proof.
  intros H. unfold selectArticles, selection.
  rewrite filterE_Some by done.
  by rewrite nonEmpty_filter, List.filter_app.
Qed.

(** The handler, for grounding articles and any JSON entries. *)
Lemma searchArticles_tiers grounded json articles :
  Forall isGrounded grounded ->
  searchArticles grounded json = Some articles <->
  Forall (fun a => isRedirect a <> None) json /\
  Forall (fun a => urlOk a <> None) (selected grounded json) /\
  Forall (fun a => logs a = true)
    (firstn 3 (List.filter urlKept (selected grounded json))) /\
  articles = List.filter urlKept (selected grounded json).
Proof.
  intros Hg.
  assert (Hgr : Forall (fun a => isRedirect a <> None) grounded).
  { eapply Forall_impl; [exact Hg|]. apply grounded_no_throw. }
  unfold Server.searchArticles.
  destruct (filterE_cases isRedirect json) as [[Hj _]|[Hj _]].
  - rewrite selectArticles_tiers by (apply Forall_app; done).
    destruct (filterE_cases urlOk (selected grounded json))
      as [[Hu ->]|[Hu ->]].
    + fold urlKept.
      change (List.filter _ (selected grounded json))
        with (List.filter urlKept (selected grounded json)).
      destruct (forallb logs (firstn 3 (List.filter urlKept _))) eqn:Hl.
      * rewrite forallb_forall in Hl. split.
        -- intros [= <-]. repeat split; try done.
           apply Forall_forall. intros a Ha. by apply Hl, list_elem_of_In.
        -- by intros (_ & _ & _ & ->).
      * split; [done|]. intros (_ & _ & Hall & _). exfalso.
        assert (forallb logs
                  (firstn 3 (List.filter urlKept (selected grounded json)))
                = true); [|congruence].
        apply forallb_forall. intros a Ha%list_elem_of_In.
        rewrite Forall_forall in Hall. by apply Hall.
    + split; [done|]. intros (_ & Hall & _). exfalso.
      apply Exists_exists in Hu as (a & Ha & Hn).
      rewrite Forall_forall in Hall. by apply (Hall a).
  - unfold selectArticles. rewrite filterE_None by (apply Exists_app; by right).
    split; [done|]. intros (Hall & _). exfalso.
    apply Exists_exists in Hj as (a & Ha & Hn).
    rewrite Forall_forall in Hall. by apply (Hall a).
Qed.

Lemma selection_Forall (Q : jsval -> Prop) grounded json :
  Forall Q grounded -> Forall Q json -> Forall Q (selected grounded json).
Proof.
  intros Hg Hj. unfold selection.
  destruct (existsb _ _).
  - apply Forall_app. split; apply Forall_forall;
      intros a Ha%list_elem_of_In%filter_In;
      [rewrite Forall_forall in Hg; apply Hg|rewrite Forall_forall in Hj; apply Hj];
      apply list_elem_of_In, Ha.
  - by destruct (nonEmpty grounded).
Qed.

(** With entries that hold strings, nothing throws. *)
Lemma searchArticles_plain grounded json :
  Forall isGrounded grounded -> Forall plainEntry json ->
  searchArticles grounded json
    = Some (List.filter urlKept (selected grounded json)).
Proof.
  intros Hg Hj.
  assert (Hg' : Forall plainEntry grounded).
  { eapply Forall_impl; [exact Hg|]. apply grounded_plain. }
  assert (Hs : Forall plainEntry (selected grounded json))
    by by apply selection_Forall.
  apply searchArticles_tiers; [done|]. repeat split.
  - eapply Forall_impl; [exact Hj|]. intros a Ha. by apply plain_no_throw.
  - eapply Forall_impl; [exact Hs|]. intros a Ha. by apply plain_no_throw.
  - apply Forall_take, Forall_forall. intros a Ha%list_elem_of_In%filter_In.
    rewrite Forall_forall in Hs. apply plain_no_throw, Hs, list_elem_of_In, Ha.
Qed.

End SearchFacts.

Section SearchClaims.
Import Server.



End SearchClaims.

(** ** Further properties and examples *)

Section MorePopupFacts.
Import CacheManager Popup.

(** What a cache write of an invocation looks like. *)
Lemma cache_write_inv w storage key v :
  In (CacheSet key v) (handleDeepDiveAnalysis w storage).2 ->
  deepDiveKey w = Some key /\
  (handleDeepDiveAnalysis w storage).1 = set (clockAtWrite w) key v None storage /\
  truthy v = true.
Proof.
  unfold handleDeepDiveAnalysis, deepDiveKey, fetchAnalysis.
  destruct (isProcessing w); [quiet|].
  destruct (pageText w) as [[text url]|]; [|quiet].
  destruct (cachedValue w _ storage); [quiet|].
  destruct (analysisReply w) as [analysis|]; [|quiet].
  destruct (getE analysis (lit "definitions")); [|quiet].
  destruct (getE analysis (lit "arguments")); [|quiet].
  simpl. intros [H|[H|[H|[H|[H|H]]]]]; try done.
  injection H as <- <-. done.
Qed.

(** After an invocation that cached its result, a second one on the same
    page within the [ttl] displays the cached value and starts no remote
    call. *)
Theorem second_call_from_cache (w w2 : world)
    (storage : gmap (list N) (entry jsval)) (key : list N) (v : jsval) :
  In (CacheSet key v) (handleDeepDiveAnalysis w storage).2 ->
  isProcessing w2 = false ->
  pageText w2 = pageText w ->
  clockAtRead w2 - clockAtWrite w < 86400000 ->
  handleDeepDiveAnalysis w2 (handleDeepDiveAnalysis w storage).1
    = ((handleDeepDiveAnalysis w storage).1, [DisplayCached v]).
Proof.
  intros Hin Hp Hpage Hclock.
  destruct (cache_write_inv w storage key v Hin) as (Hk & -> & Hv).
  unfold deepDiveKey in Hk. rewrite <- Hpage in Hk.
  unfold handleDeepDiveAnalysis. rewrite Hp.
  destruct (pageText w2) as [[text url]|]; [|done].
  injection Hk as Hk. rewrite Hk.
  unfold cachedValue, isValid, get, set. rewrite lookup_insert_eq. simpl.
  destruct (Z.ltb_spec (clockAtRead w2 - clockAtWrite w) 86400000); [|lia].
  by rewrite Hv.
Qed.

End MorePopupFacts.

(** The sample invocation followed by a second one a minute later. *)
Lemma second_call_from_cache_witness :
  Popup.handleDeepDiveAnalysis
    (Popup.World false
       (Popup.Fulfilled (lit "Some article text.", lit "https://a.org/p"))
       None Popup.Rejected Popup.Rejected 60020 60030)
    (Popup.handleDeepDiveAnalysis sampleWorld ∅).1
  = ((Popup.handleDeepDiveAnalysis sampleWorld ∅).1,
     [Popup.DisplayCached
        (Popup.combinedResult (VArr []) (VArr []) (VObj []))]).
Proof.
  refine (second_call_from_cache sampleWorld _ ∅
            (CacheManager.generateCacheKey (lit "https://a.org/p")
               (lit "Some article text.") ++ Popup.DEEP_DIVE)
            _ _ _ _ _).
  - do 4 right. left. reflexivity.
  - reflexivity.
  - reflexivity.
  - simpl. lia.
Defined.

Section MoreServerFacts.
Import Server.

(** The example of the specification: one main argument [x], no
    counter-argument, no definition. *)
Theorem spec_example_reply (lowerOther : N -> list N) :
  parseGeminiResponse lowerOther specReply
    = mkResult [] [] [VStr (lit "x")] [].
Proof. vm_compute. reflexivity. Qed.

Lemma existsb_eqs url urls :
  existsb (eqs url) urls = false -> ~ In url urls.
Proof.
  intros H Hin. apply not_true_iff_false in H. apply H.
  apply existsb_exists. exists url. split; [done|]. by apply eqs_eq.
Qed.

Lemma addChunks_urls chunks : forall urls articles,
  urlsOf urls articles ->
  urlsOf (addChunks chunks urls articles).1 (addChunks chunks urls articles).2.
Proof.
  induction chunks as [|c rest IH]; intros urls articles H; simpl; [done|].
  destruct (web c) as [[[[|u us]|] t]|]; simpl; try by apply IH.
  destruct (existsb _ urls) eqn:E; apply IH; [done|].
  destruct H as [-> Hnd]. split.
  - by rewrite map_app.
  - apply NoDup_app. split; [done|]. split; [|apply NoDup_singleton].
    intros x Hx Hin%list_elem_of_singleton. subst x.
    apply list_elem_of_In in Hx. exact (existsb_eqs (u :: us) _ E Hx).
Qed.

Lemma addCandidates_urls cs : forall urls articles,
  urlsOf urls articles ->
  NoDup (List.map urlOf (addCandidates cs urls articles)).
Proof.
  induction cs as [|c rest IH]; intros urls articles H; simpl.
  { destruct H as [<- H]. done. }
  destruct (groundingMetadata c) as [[[chunks|]]|]; try by apply IH.
  pose proof (addChunks_urls chunks urls articles H) as H'.
  destruct (addChunks chunks urls articles) as [urls' articles']. simpl in H'.
  destruct (nonEmpty articles'); [|by apply IH].
  destruct H' as [<- H']. done.
Qed.

(** The grounding extractor returns at most ten articles, each a title
    with a URL that is not empty, no URL twice. *)
Theorem grounding_articles (response : responseT) :
  (length (extractRelatedArticlesFromGrounding response) <= 10)%nat /\
  Forall isGrounded (extractRelatedArticlesFromGrounding response) /\
  NoDup (List.map urlOf (extractRelatedArticlesFromGrounding response)).
Proof.
  destruct (extract_grounded response) as [Hg Hl].
  split; [done|]. split; [done|].
  unfold extractRelatedArticlesFromGrounding.
  rewrite <- firstn_map.
  eapply sublist_NoDup; [|apply sublist_take].
  apply addCandidates_urls. split; [done|constructor].
Qed.

(** The lazy capture backtracks into the whitespace before it. *)
Example jsonCodeBlockMatch_empty :
  jsonCodeBlockMatch (lit "```json" ++ [LF; LF] ++ lit "```") = Some [].
Proof. vm_compute. reflexivity. Qed.

(** The object pattern is greedy: up to the last closing brace. *)
Example jsonObjectMatch_greedy :
  jsonObjectMatch (lit "ab{c}d}e") = Some (lit "{c}d}").
Proof. vm_compute. reflexivity. Qed.

(** A string that is only a marker is left empty. *)
Example stripString_marker_only : stripString (lit " [12] ") = [].
Proof. vm_compute. reflexivity. Qed.

End MoreServerFacts.

Section MoreCacheFacts.
Import CacheManager.

(** The digest of the standard test message. *)
Example simpleHash_abc : simpleHash (lit "abc") = lit "ba7816bf8f01cfea".
Proof. vm_compute. reflexivity. Qed.

End MoreCacheFacts.

(** ** The rate limiter: identifiers, the sweep, the middleware *)

Section LimiterFrame.
Import RateLimiter.

(** A [check] touches the record of its identifier only. *)
Lemma check_other now i j l :
  i <> j -> store (check now i l).1 !! j = store l !! j.
Proof.
  intros Hij. unfold check.
  destruct (store l !! i) as [r|]; simpl.
  - destruct (resetTime r <=? now); simpl; [by rewrite lookup_insert_ne|].
    destruct (maxRequests l <=? count r); simpl; [done|].
    by rewrite lookup_insert_ne.
  - by rewrite lookup_insert_ne.
Qed.

(** The answer of a [check] depends on the record of its identifier and on
    the configuration only, and so does the record it leaves. *)
Lemma check_local now i l1 l2 :
  windowMs l1 = windowMs l2 -> maxRequests l1 = maxRequests l2 ->
  store l1 !! i = store l2 !! i ->
  (check now i l1).2 = (check now i l2).2 /\
  store (check now i l1).1 !! i = store (check now i l2).1 !! i.
Proof.
  intros Hw Hm Hs. unfold check. rewrite Hs, Hw, Hm.
  destruct (store l2 !! i) as [r|] eqn:E; simpl.
  - destruct (resetTime r <=? now); simpl.
    { by rewrite !lookup_insert_eq. }
    destruct (maxRequests l2 <=? count r); simpl.
    { by rewrite Hs. }
    by rewrite !lookup_insert_eq.
  - by rewrite !lookup_insert_eq.
Qed.

(** A sweep at [now] leaves a limiter that is [swept] at any later time. *)
Lemma cleanup_swept t now l1 l2 :
  t <= now -> swept t l1 l2 -> swept now (cleanup now l1) l2.
Proof.
  intros Ht (Hw & Hm & H). split; [done|]. split; [done|].
  intros i. unfold cleanup. simpl.
  destruct (H i) as [E|(E & r & E2 & Hr)].
  - destruct (store l2 !! i) as [r|] eqn:E2.
    + destruct (decide (resetTime r <= now)) as [Hx|Hx].
      * right. split.
        { apply map_lookup_filter_None. right. intros r' Hr'. simpl.
          rewrite E in Hr'. injection Hr' as <-. tauto. }
        exists r. done.
      * left. apply map_lookup_filter_Some. simpl. split; [done|lia].
    + left. apply map_lookup_filter_None. by left.
  - right. split.
    { apply map_lookup_filter_None. by left. }
    exists r. split; [done|lia].
Qed.

(** Two limiters that differ by sweeps answer a [check] alike, and differ
    by sweeps after it. *)
Lemma check_swept t now i l1 l2 :
  t <= now -> swept t l1 l2 ->
  (check now i l1).2 = (check now i l2).2 /\
  swept now (check now i l1).1 (check now i l2).1.
Proof.
  intros Ht (Hw & Hm & H).
  assert (Hfresh : forall l,
            (forall r, store l !! i = Some r -> resetTime r <= now) ->
            check now i l =
              (set_store l (<[i := Rec 1 (now + windowMs l)]> (store l)),
               Res true (maxRequests l - 1) (now + windowMs l))).
  { intros l Hl. unfold check. destruct (store l !! i) as [r|]; [|done].
    destruct (Z.leb_spec (resetTime r) now); [done|].
    specialize (Hl r eq_refl). lia. }
  assert (Hothers : forall j, j <> i ->
            store (check now i l1).1 !! j = store (check now i l2).1 !! j \/
            (store (check now i l1).1 !! j = None /\
             exists r, store (check now i l2).1 !! j = Some r /\
                       resetTime r <= now)).
  { intros j Hj. rewrite !check_other by done.
    destruct (H j) as [E|(E & r & E2 & Hr)]; [by left|].
    right. split; [done|]. exists r. split; [done|lia]. }
  destruct (H i) as [E|(E & r & E2 & Hr)].
  - destruct (check_local now i l1 l2 Hw Hm E) as [Hres Hst].
    split; [done|].
    pose proof (check_config now i l1) as [? ?].
    pose proof (check_config now i l2) as [? ?].
    split; [congruence|]. split; [congruence|].
    intros j. destruct (decide (j = i)) as [->|Hj]; [by left|by apply Hothers].
  - rewrite (Hfresh l1), (Hfresh l2).
    + simpl. rewrite Hw, Hm. split; [done|]. split; [done|]. split; [done|].
      intros j. destruct (decide (j = i)) as [->|Hj].
      * left. simpl. by rewrite !lookup_insert_eq.
      * simpl. rewrite !lookup_insert_ne by done.
        destruct (H j) as [Ej|(Ej & r' & Ej2 & Hr')]; [by left|].
        right. split; [done|]. exists r'. split; [done|lia].
    + intros r' Hr'. rewrite E2 in Hr'. injection Hr' as <-. lia.
    + intros r' Hr'. by rewrite E in Hr'.
Qed.

Lemma run_swept os : forall t l1 l2,
  clockFrom t os -> swept t l1 l2 ->
  (run l1 os).2 = (run l2 (List.filter (fun o => negb (isCleanup o)) os)).2.
Proof.
  induction os as [|o os IH]; intros t l1 l2 Hc Hs; [done|].
  destruct o as [now i|now|]; simpl in Hc |- *.
  - destruct Hc as [Ht Hc].
    destruct (check_swept t now i l1 l2 Ht Hs) as [Hres Hs'].
    destruct (check now i l1) as [l1' r1], (check now i l2) as [l2' r2].
    simpl in *. subst r2.
    specialize (IH now l1' l2' Hc Hs').
    destruct (run l1' os), (run l2' _). simpl in *. by subst.
  - destruct Hc as [Ht Hc].
    specialize (IH now (cleanup now l1) l2 Hc (cleanup_swept t now l1 l2 Ht Hs)).
    destruct (run (cleanup now l1) os). done.
  - assert (Hs' : swept t (reset l1) (reset l2)).
    { destruct Hs as (Hw & Hm & _). split; [done|]. split; [done|].
      intros i. by left. }
    specialize (IH t (reset l1) (reset l2) Hc Hs').
    destruct (run (reset l1) os), (run (reset l2) _). done.
Qed.

(** The periodic sweep cannot be observed: as long as the clock does not go
    back, the [check]s of a sequence of calls answer as they do in the
    sequence without its [cleanup] calls. *)
Theorem cleanup_unobservable (t : Z) (l : RateLimiter.t) (os : list op) :
  clockFrom t os ->
  (run l os).2 = (run l (List.filter (fun o => negb (isCleanup o)) os)).2.
Proof.
  intros Hc. apply (run_swept os t); [done|].
  split; [done|]. split; [done|]. intros i. by left.
Qed.

End LimiterFrame.

(** Two requests, a sweep after the window, a third request. *)
Lemma cleanup_unobservable_witness :
  (RateLimiter.run (RateLimiter.new (RateLimiter.Opt None (Some 1)))
     [RateLimiter.OpCheck 0 (lit "a"); RateLimiter.OpCheck 5 (lit "a");
      RateLimiter.OpCleanup 60000; RateLimiter.OpCheck 60001 (lit "a")]).2
  = (RateLimiter.run (RateLimiter.new (RateLimiter.Opt None (Some 1)))
       [RateLimiter.OpCheck 0 (lit "a"); RateLimiter.OpCheck 5 (lit "a");
        RateLimiter.OpCheck 60001 (lit "a")]).2.
Proof.
  apply (cleanup_unobservable 0). simpl. lia.
Defined.

Section MiddlewareFacts.
Import RateLimiter RateLimitMiddleware.

Lemma middleware_store o now later req l :
  (middleware o now later req l).1.1 = (check now (identifierOf req) l).1.
Proof.
  unfold middleware. destruct (check now (identifierOf req) l) as [l' r].
  simpl. by destruct (allowed r).
Qed.

Lemma middleware_reply o now later req l :
  (middleware o now later req l).2 =
    if allowed (check now (identifierOf req) l).2 then Next
    else TooManyRequests
           (ceilSeconds (res_resetTime (check now (identifierOf req) l).2 - later)).
Proof.
  unfold middleware. destruct (check now (identifierOf req) l) as [l' r].
  simpl. by destruct (allowed r).
Qed.

Lemma middleware_headers o now later req l :
  (middleware o now later req l).1.2 =
    let r := (check now (identifierOf req) l).2 in
    Headers (or_default (opt_maxRequests o) 10) (remaining r) (res_resetTime r)
      (if allowed r then None
       else Some (ceilSeconds (res_resetTime r - later))).
Proof.
  unfold middleware. destruct (check now (identifierOf req) l) as [l' r].
  simpl. by destruct (allowed r).
Qed.

(** The requests of other identifiers leave the record of [i] alone. *)
Lemma serve_other o i reqs : forall l,
  Forall (fun q => identifierOf q.2 <> i) reqs ->
  store (serve o l reqs).1 !! i = store l !! i /\
  windowMs (serve o l reqs).1 = windowMs l /\
  maxRequests (serve o l reqs).1 = maxRequests l.
Proof.
  induction reqs as [|[[now later] req] rest IH]; intros l H; [done|].
  apply List.Forall_cons_iff in H as [H1 H2]. simpl in H1.
  simpl.
  pose proof (middleware_store o now later req l) as Hst.
  destruct (middleware o now later req l) as [[l1 hs] r]. simpl in Hst. subst l1.
  specialize (IH (check now (identifierOf req) l).1 H2).
  destruct (serve o _ rest) as [l2 rs]. simpl in *.
  destruct IH as (E1 & E2 & E3).
  pose proof (check_config now (identifierOf req) l) as [? ?].
  rewrite E1, E2, E3. split; [by apply check_other|]. done.
Qed.

(** Every identifier has a limit of its own: the requests of other origins
    change neither the reply nor the headers a request gets. *)
Theorem other_origins_unaffected (o : options) (l : RateLimiter.t)
    (reqs : list (Z * Z * request)) (now later : Z) (req : request) :
  Forall (fun q => identifierOf q.2 <> identifierOf req) reqs ->
  (middleware o now later req (serve o l reqs).1).2
    = (middleware o now later req l).2 /\
  (middleware o now later req (serve o l reqs).1).1.2
    = (middleware o now later req l).1.2.
Proof.
  intros H.
  destruct (serve_other o (identifierOf req) reqs l H) as (E1 & E2 & E3).
  destruct (check_local now (identifierOf req) (serve o l reqs).1 l E2 E3 E1)
    as [Hres _].
  by rewrite !middleware_reply, !middleware_headers, Hres.
Qed.

Lemma ceilSeconds_bounds ms :
  ms <= 1000 * ceilSeconds ms < ms + 1000.
Proof.
  unfold ceilSeconds.
  pose proof (Z.div_mod (- ms) 1000 ltac:(lia)).
  pose proof (Z.mod_pos_bound (- ms) 1000 ltac:(lia)). lia.
Qed.

(** What a refusal means: the record of the identifier is full and its
    window open. *)
Lemma check_refused now i l :
  allowed (check now i l).2 = false ->
  (check now i l).1 = l /\
  exists r, store l !! i = Some r /\ now < resetTime r /\
    maxRequests l <= count r /\ res_resetTime (check now i l).2 = resetTime r.
Proof.
  unfold check. destruct (store l !! i) as [r|]; [|done].
  destruct (Z.leb_spec (resetTime r) now); [done|].
  destruct (Z.leb_spec (maxRequests l) (count r)); [|done].
  simpl. intros _. split; [done|]. by exists r.
Qed.

(** [Retry-After] is exact.  After a refusal, the same client is let
    through when it comes back that many seconds after the clock reading
    of the refusal, or later; one second earlier, it is refused again. *)
Theorem retry_after_exact (o : options) (now later : Z) (req : request)
    (l : RateLimiter.t) (retryAfter : Z) :
  (middleware o now later req l).2 = TooManyRequests retryAfter ->
  (forall t t', later + 1000 * retryAfter <= t ->
     (middleware o t t' req (middleware o now later req l).1.1).2 = Next) /\
  (forall t t', t <= later + 1000 * (retryAfter - 1) ->
     exists again,
       (middleware o t t' req (middleware o now later req l).1.1).2
         = TooManyRequests again).
Proof.
  rewrite middleware_reply, middleware_store.
  destruct (allowed (check now (identifierOf req) l).2) eqn:Ha; [done|].
  intros [= <-].
  destruct (check_refused _ _ _ Ha) as (-> & r & Hr & Hnow & Hfull & ->).
  pose proof (ceilSeconds_bounds (resetTime r - later)).
  split; intros t t' Ht; rewrite middleware_reply.
  - rewrite check_opens; [done|].
    intros r' Hr'. rewrite Hr in Hr'. injection Hr' as <-. lia.
  - destruct r as [k R]. simpl in *.
    rewrite (check_rejects t _ l k R); [|done|lia|done]. simpl. eauto.
Qed.

End MiddlewareFacts.

(** A client that has used up its limit, and another origin after it. *)
Lemma other_origins_unaffected_witness :
  (RateLimitMiddleware.middleware (RateLimiter.Opt None (Some 1)) 2 2
     (RateLimitMiddleware.Req (Some (lit "chrome-extension://b")) None)
     (serve (RateLimiter.Opt None (Some 1))
        (RateLimiter.new (RateLimiter.Opt None (Some 1)))
        [(0, 0, RateLimitMiddleware.Req (Some (lit "chrome-extension://a")) None);
         (1, 1, RateLimitMiddleware.Req (Some (lit "chrome-extension://a")) None)]).1).2
  = RateLimitMiddleware.Next.
Proof.
  refine (eq_trans
            (proj1 (other_origins_unaffected (RateLimiter.Opt None (Some 1))
                      (RateLimiter.new (RateLimiter.Opt None (Some 1)))
                      [(0, 0, RateLimitMiddleware.Req
                                (Some (lit "chrome-extension://a")) None);
                       (1, 1, RateLimitMiddleware.Req
                                (Some (lit "chrome-extension://a")) None)]
                      2 2
                      (RateLimitMiddleware.Req
                         (Some (lit "chrome-extension://b")) None) _)) _).
  - repeat constructor; simpl; discriminate.
  - reflexivity.
Defined.

(** Two requests of one origin against a limit of one: the second is told
    to wait 60 seconds. *)
Lemma retry_after_exact_witness :
  (RateLimitMiddleware.middleware (RateLimiter.Opt None (Some 1)) 5 10
     (RateLimitMiddleware.Req (Some (lit "chrome-extension://x")) None)
     (RateLimiter.check 0 (lit "chrome-extension://x")
        (RateLimiter.new (RateLimiter.Opt None (Some 1)))).1).2
  = RateLimitMiddleware.TooManyRequests 60 /\
  (RateLimitMiddleware.middleware (RateLimiter.Opt None (Some 1)) 60010 60011
     (RateLimitMiddleware.Req (Some (lit "chrome-extension://x")) None)
     (RateLimitMiddleware.middleware (RateLimiter.Opt None (Some 1)) 5 10
        (RateLimitMiddleware.Req (Some (lit "chrome-extension://x")) None)
        (RateLimiter.check 0 (lit "chrome-extension://x")
           (RateLimiter.new (RateLimiter.Opt None (Some 1)))).1).1.1).2
  = RateLimitMiddleware.Next.
Proof.
  split; [reflexivity|].
  refine (proj1 (retry_after_exact (RateLimiter.Opt None (Some 1)) 5 10
                   (RateLimitMiddleware.Req (Some (lit "chrome-extension://x")) None)
                   (RateLimiter.check 0 (lit "chrome-extension://x")
                      (RateLimiter.new (RateLimiter.Opt None (Some 1)))).1
                   60 _) 60010 60011 _).
  - reflexivity.
  - lia.
Defined.
(** ** CORS, the prompt and the [/analyze] handler *)

Section CorsFacts.
Import App.

(** The CORS policy.  In production with an extension id configured, the
    one origin let in is that of this extension, and a request without
    [Origin] header is turned away.  In every other configuration (another
    mode, or an id that is unset or empty) a request without [Origin]
    header, or with an empty one, and every extension origin are let in.
    An origin that is no extension origin is let in in development
    only. *)
Theorem cors_policy (e : env) (origin : option (list N)) :
  (forall id, NODE_ENV e = Some (lit "production") ->
     ALLOWED_EXTENSION_ID e = Some id -> id <> [] ->
     (corsOrigin e origin = Allow <-> origin = Some (EXTENSION ++ id))) /\
  ((NODE_ENV e <> Some (lit "production") \/ ALLOWED_EXTENSION_ID e = None
    \/ ALLOWED_EXTENSION_ID e = Some []) ->
     (origin = None \/ origin = Some [] \/
      exists rest, origin = Some (EXTENSION ++ rest)) ->
     corsOrigin e origin = Allow) /\
  (forall o, origin = Some o -> o <> [] -> startsWith EXTENSION o = false ->
     (corsOrigin e origin = Allow <-> NODE_ENV e = Some (lit "development"))).
Proof.
  split; [|split].
  - intros id Hp Hid Hne. unfold corsOrigin, nodeEnvIs. rewrite Hp, Hid.
    replace (eqs (lit "production") (lit "production")) with true by done.
    replace (eqs (lit "production") (lit "development")) with false by done.
    destruct id as [|c id]; [done|].
    split.
    + destruct origin as [[|x o]|]; cbv beta iota zeta;
        rewrite ?orb_true_l, ?orb_false_l.
      * done.
      * destruct (startsWith EXTENSION (x :: o)); [|done].
        destruct (eqs (x :: o) (EXTENSION ++ c :: id)) eqn:E; [|done].
        apply eqs_eq in E. by rewrite E.
      * done.
    + intros ->.
      assert (Hs : startsWith EXTENSION (EXTENSION ++ c :: id) = true).
      { apply startsWith_spec. by eexists. }
      assert (He : eqs (EXTENSION ++ c :: id) (EXTENSION ++ c :: id) = true).
      { by apply eqs_eq. }
      cbv zeta. rewrite Hs, He. reflexivity.
  - intros Hcfg Ho. unfold corsOrigin.
    assert (Hnone : match (if nodeEnvIs e (lit "production")
                           then ALLOWED_EXTENSION_ID e else None) with
                    | Some (_ :: _) => False
                    | _ => True
                    end).
    { unfold nodeEnvIs. destruct Hcfg as [Hn|[->| ->]];
        [|by destruct (NODE_ENV e) as [x|]; [destruct (eqs x _)|]
         |by destruct (NODE_ENV e) as [x|]; [destruct (eqs x _)|]].
      destruct (NODE_ENV e) as [x|]; [|done].
      destruct (eqs x (lit "production")) eqn:E; [|done].
      apply eqs_eq in E. by subst x. }
    destruct (if nodeEnvIs e (lit "production")
              then ALLOWED_EXTENSION_ID e else None) as [[|c id]|];
      [|done| ].
    all: destruct Ho as [->|[->|[rest ->]]]; [done|done|].
    all: assert (Hs : startsWith EXTENSION (EXTENSION ++ rest) = true)
      by (apply startsWith_spec; by eexists).
    all: cbv zeta; rewrite Hs; by rewrite orb_true_r.
  - intros o -> Hne Hs. unfold corsOrigin, nodeEnvIs.
    destruct o as [|c o]; [done|]. cbv beta iota zeta.
    rewrite Hs, orb_false_l.
    destruct (NODE_ENV e) as [x|]; [|done].
    destruct (eqs x (lit "development")) eqn:E.
    + apply eqs_eq in E. by subst x.
    + split; [done|]. intros [= ->]. by vm_compute in E.
Qed.

End CorsFacts.

Section PromptFacts.
Import App.

Lemma len_app a b : len (a ++ b) = len a + len b.
Proof. unfold len. rewrite length_app. lia. Qed.

(** The prompt quotes the article up to its 10,000th code unit and no
    further: a longer article is cut there and followed by three dots, so
    that two articles that agree up to there give the same prompt. *)
Theorem prompt_article_cap (a1 a2 : list N) (concepts : list (list N)) :
  (10000 < len a1 -> 10000 < len a2 ->
   slice0 10000 a1 = slice0 10000 a2 ->
   buildAnalysisPrompt a1 concepts = buildAnalysisPrompt a2 concepts) /\
  exists quoted,
    buildAnalysisPrompt a1 concepts
      = promptHead ++ quoted ++ promptBody ++ conceptsText concepts ++ promptTail
    /\ len quoted <= 10003
    /\ (len a1 <= 10000 -> quoted = a1)
    /\ (10000 < len a1 -> quoted = slice0 10000 a1 ++ lit "...").
Proof.
  unfold buildAnalysisPrompt, trimmedArticle, ARTICLE_MAX. split.
  - intros H1 H2 E.
    destruct (Z.ltb_spec 10000 (len a1)); [|lia].
    destruct (Z.ltb_spec 10000 (len a2)); [|lia].
    by rewrite E.
  - eexists. split; [reflexivity|].
    destruct (Z.ltb_spec 10000 (len a1)).
    + split; [|split; [lia|done]].
      rewrite len_app. unfold slice0, len. rewrite length_take.
      change (length (lit "...")) with 3%nat. lia.
    + split; [lia|]. split; [done|lia].
Qed.

End PromptFacts.

Section AnalyzeFacts.
Import Server App.

Variable lowerOther : N -> list N.
Variable generate : list N -> option (list N).

Lemma responseOf_mkResult ra ds ms cs :
  responseOf (mkResult ra ds ms cs) =
    Some (VObj [(lit "definitions", VArr ds);
                (lit "arguments",
                 VObj [(lit "main", VArr ms); (lit "counter", VArr cs)])]).
Proof. reflexivity. Qed.

Lemma parse_shape text :
  wellFormed (fun _ => True) (parseGeminiResponse lowerOther text) /\
  (jsonTiers lowerOther text <> None ->
   wellFormed trimmed (parseGeminiResponse lowerOther text) /\
   allStrings clean (parseGeminiResponse lowerOther text)).
Proof.
  unfold parseGeminiResponse.
  destruct (jsonTiers lowerOther text) as [r|] eqn:E.
  - destruct (jsonTiers_wellFormed lowerOther text r E) as [Hw Hc].
    split; [by apply (wellFormed_weaken trimmed)|done].
  - split; [apply fallback_wellFormed|done].
Qed.

Lemma conceptsError_None concepts :
  conceptsError concepts = None <->
  concepts = VUndefined \/
  exists items, concepts = VArr items /\ (length items <= 20)%nat /\
    Forall (fun c => isString c = true) items.
Proof.
  unfold conceptsError, lengthOf. split.
  - destruct concepts as [| | | | |items| |]; try done; [by left|].
    destruct (Z.ltb_spec 20 (Z.of_nat (length items))); [done|].
    destruct (forallb isString items) eqn:E; [|done].
    intros _. right. exists items. split; [done|]. split; [lia|].
    apply Forall_forall. intros x Hx. apply list_elem_of_In in Hx.
    rewrite forallb_forall in E. by apply E.
  - intros [->|(items & -> & Hl & Hf)]; [done|].
    destruct (Z.ltb_spec 20 (Z.of_nat (length items))); [lia|].
    assert (E : forallb isString items = true).
    { apply forallb_forall. intros x Hx. apply list_elem_of_In in Hx.
      rewrite Forall_forall in Hf. by apply Hf. }
    by rewrite E.
Qed.

Lemma trim_nil_len s : (len (trim s) =? 0) = false <-> trim s <> [].
Proof.
  unfold len. destruct (trim s); simpl; split; try done; lia.
Qed.

(** The checks of the handler.  The model is called exactly for the bodies
    with an article that is a string, not blank, of at most 500,000 code
    units, and with no concepts or an array of at most 20 strings; the
    prompt is then that of [buildAnalysisPrompt].  Every other body is
    answered with status 400 and an error message, but for a body that is
    [null] or absent, on which the handler throws. *)
Theorem analyze_validation (body : jsval) :
  (forall p,
     prompt (analyzeHandler lowerOther generate body) = Some p <->
     exists article concepts,
       acceptable body article concepts /\
       p = buildAnalysisPrompt article concepts) /\
  (prompt (analyzeHandler lowerOther generate body) = None ->
   (nullish body = true /\
    sent (analyzeHandler lowerOther generate body) = NextError) \/
   exists message,
     sent (analyzeHandler lowerOther generate body)
       = Json 400 (VObj [(lit "error", VStr message)])).
Proof.
  unfold analyzeHandler, acceptable.
  destruct (getE body (lit "article")) as [article|] eqn:Ea.
  2:{ split.
      - intros p. split; [done|]. by intros (? & ? & (? & _) & _).
      - intros _. left. split; [|done]. by destruct body. }
  destruct (getE body (lit "concepts")) as [concepts|] eqn:Ec.
  2:{ by destruct body. }
  destruct (truthy article) eqn:Et; simpl negb; cbv iota.
  2:{ split; [|intros _; right; by eexists].
      intros p. split; [done|].
      intros (a & cs & ([= ->] & Hn & _) & _). simpl in Et.
      destruct a; [|done]. by destruct Hn. }
  destruct article as [| | | |article| | |]; simpl isString; simpl negb; cbv iota;
    try (split; [|intros _; right; by eexists];
         intros p; split; [done|]; by intros (? & ? & (? & _) & _)).
  simpl strOf.
  destruct (len (trim article) =? 0) eqn:El.
  { split; [|intros _; right; by eexists].
    intros p. split; [done|].
    intros (a & cs & ([= <-] & Hn & _) & _).
    apply trim_nil_len in Hn. congruence. }
  apply trim_nil_len in El.
  destruct (Z.ltb_spec 500000 (len article)).
  { split; [|intros _; right; by eexists].
    intros p. split; [done|].
    intros (a & cs & ([= <-] & _ & Hl & _) & _). lia. }
  destruct (conceptsError concepts) as [message|] eqn:Ece.
  { split; [|intros _; right; by eexists].
    intros p. split; [done|].
    intros (a & cs & ([= <-] & _ & _ & Hc) & _).
    assert (conceptsError concepts = None); [|congruence].
    apply conceptsError_None.
    destruct Hc as [[[= ->] _]|(items & [= ->] & ? & ? & _)]; [by left|].
    right. by exists items. }
  apply conceptsError_None in Ece.
  assert (Hp : forall o,
            prompt (match generate (buildAnalysisPrompt article
                                      (List.map strOf (itemsOf concepts))) with
                    | Some responseText =>
                        match responseOf (parseGeminiResponse lowerOther responseText) with
                        | Some response =>
                            Outcome (Some (buildAnalysisPrompt article
                                             (List.map strOf (itemsOf concepts))))
                              (Json 200 response)
                        | None =>
                            Outcome (Some (buildAnalysisPrompt article
                                             (List.map strOf (itemsOf concepts))))
                              NextError
                        end
                    | None =>
                        Outcome (Some (buildAnalysisPrompt article
                                         (List.map strOf (itemsOf concepts))))
                          NextError
                    end) = o <->
            Some (buildAnalysisPrompt article
                    (List.map strOf (itemsOf concepts))) = o).
  { intros o. destruct (generate _); [|done]. by destruct (responseOf _). }
  split.
  - intros p. rewrite Hp. split.
    + intros [= <-]. exists article, (List.map strOf (itemsOf concepts)).
      split; [|done]. split; [done|]. split; [done|]. split; [done|].
      destruct Ece as [->|(items & -> & ? & ?)]; [by left|].
      right. by exists items.
    + intros (a & cs & ([= <-] & _ & _ & Hc) & ->).
      destruct Hc as [[[= ->] ->]|(items & [= ->] & _ & _ & ->)]; done.
  - rewrite Hp. done.
Qed.

(** What an accepted request is answered.  When the model returns a text,
    the status is 200 and the body holds the [definitions] and the
    [arguments] of [parseGeminiResponse], within its caps, and no
    [relatedArticles]; when a JSON tier parsed the text, every string is
    trimmed and free of citation markers.  When the call of the model
    throws, the error goes to the error handler. *)
Theorem analyze_response (body : jsval) (article : list N)
    (concepts : list (list N)) :
  acceptable body article concepts ->
  (forall text,
     generate (buildAnalysisPrompt article concepts) = Some text ->
     exists response,
       sent (analyzeHandler lowerOther generate body) = Json 200 response /\
       response = VObj [(lit "definitions",
                         get (parseGeminiResponse lowerOther text)
                           (lit "definitions"));
                        (lit "arguments",
                         get (parseGeminiResponse lowerOther text)
                           (lit "arguments"))] /\
       analysisBody (fun _ => True) response /\
       (jsonTiers lowerOther text <> None ->
        analysisBody trimmed response /\ allStrings clean response)) /\
  (generate (buildAnalysisPrompt article concepts) = None ->
   sent (analyzeHandler lowerOther generate body) = NextError).
Proof.
  intros Hacc.
  destruct Hacc as (Ea & Hn & Hl & Hc).
  unfold analyzeHandler. rewrite Ea.
  assert (Ec : exists c, getE body (lit "concepts") = Some c /\
                 conceptsError c = None /\
                 List.map strOf (itemsOf c) = concepts).
  { destruct Hc as [[-> ->]|(items & -> & ? & ? & ->)].
    - by exists VUndefined.
    - exists (VArr items). split; [done|]. split; [|done].
      apply conceptsError_None. right. by exists items. }
  destruct Ec as (c & -> & Hce & <-).
  assert (truthy (VStr article) = true) as ->.
  { destruct article; [|done]. by destruct Hn. }
  simpl negb. cbv iota. simpl strOf.
  apply trim_nil_len in Hn. rewrite Hn.
  destruct (Z.ltb_spec 500000 (len article)); [lia|].
  rewrite Hce.
  destruct (generate _) as [text|]; [|done].
  split; [|done]. intros ? [= <-].
  destruct (parse_shape text) as [Hw Hj].
  destruct Hw as (ra & ds & ms & cs & E & Hra & Hlra & Hds & Hlds & Hms & Hlms
                  & Hcs & Hlcs).
  rewrite E, responseOf_mkResult. eexists. split; [reflexivity|].
  split; [reflexivity|]. split.
  - exists ds, ms, cs. done.
  - intros Hne. destruct (Hj Hne) as [Hw' Hcl].
    destruct Hw' as (ra' & ds' & ms' & cs' & E' & ? & ? & ? & ? & ? & ? & ? & ?).
    rewrite E in E'. injection E' as -> -> -> ->.
    split; [exists ds', ms', cs'; done|].
    rewrite E in Hcl. simpl in Hcl. simpl. tauto.
Qed.

End AnalyzeFacts.

(** The sample request, answered with the example reply of the
    specification. *)
Lemma analyze_response_witness :
  exists response,
    App.sent (App.analyzeHandler (fun c => [c]) (fun _ => Some specReply)
                sampleRequest) = App.Json 200 response /\
    response = VObj [(lit "definitions",
                      get (Server.parseGeminiResponse (fun c => [c]) specReply)
                        (lit "definitions"));
                     (lit "arguments",
                      get (Server.parseGeminiResponse (fun c => [c]) specReply)
                        (lit "arguments"))] /\
    analysisBody (fun _ => True) response /\
    (Server.jsonTiers (fun c => [c]) specReply <> None ->
     analysisBody trimmed response /\ allStrings clean response).
Proof.
  refine (proj1 (analyze_response (fun c => [c]) (fun _ => Some specReply)
                   sampleRequest (lit "Rates rose. Markets fell.")
                   [lit "inflation"] _) specReply _).
  - split; [reflexivity|]. split; [by vm_compute|].
    split; [by vm_compute|]. right. exists [VStr (lit "inflation")].
    split; [reflexivity|]. split; [simpl; lia|].
    split; [by repeat constructor|reflexivity].
  - reflexivity.
Defined.
(** ** [ErrorHandler]: the table of errors and the retries *)

Section HandleFacts.
Import ErrorHandler.

Lemma ownEntry_In k m i : ownEntry k m = Some i -> In i (List.map snd m).
Proof.
  induction m as [|[k' i'] m IH]; simpl; [done|].
  destruct (eqs k k'); [intros [= ->]; by left|]. intros H. right. by apply IH.
Qed.

Lemma ownEntry_Some k m :
  In k (List.map fst m) -> exists i, ownEntry k m = Some i.
Proof.
  induction m as [|[k' i'] m IH]; simpl; [done|].
  intros [->|H].
  - exists i'. by rewrite (proj2 (eqs_eq k k) eq_refl).
  - destruct (eqs k k'); [by eexists|]. by apply IH.
Qed.

Ltac entry_sound :=
  split; [done|]; split;
  [split; intros H; try done; by vm_compute in H
  |vm_compute; tauto].

Lemma errorMap_sound : Forall sound (List.map snd errorMap).
Proof. repeat (apply List.Forall_cons; [entry_sound|]). constructor. Qed.

(** No name of the table is an inherited one. *)
Lemma inherited_not_own k :
  In k inheritedNames -> ownEntry k errorMap = None.
Proof.
  intros H. repeat (destruct H as [<-|H]; [reflexivity|]). done.
Qed.

Lemma existsb_eqs_In k l : existsb (eqs k) l = true <-> In k l.
Proof.
  rewrite existsb_exists. split.
  - intros (x & Hx & E). apply eqs_eq in E. by subst.
  - intros H. exists k. split; [done|]. by apply eqs_eq.
Qed.

(** [handle] is consistent.  But for an error named like a property that
    the table inherits from [Object.prototype], it returns a message that is
    not empty, one of the four actions, and [recoverable] exactly when the
    action is [retry]; an error whose name is in the table gets the entry
    of its name whatever its message says. *)
Theorem handle_consistent (e : error) :
  (handle e = None <-> In (name e) inheritedNames) /\
  (forall errorInfo, handle e = Some errorInfo ->
     message errorInfo <> [] /\
     (recoverable errorInfo = true <-> action errorInfo = lit "retry") /\
     In (action errorInfo)
        [lit "retry"; lit "reload"; lit "truncate"; lit "none"]) /\
  (forall errorInfo, ownEntry (name e) errorMap = Some errorInfo ->
     handle e = Some errorInfo).
Proof.
  unfold handle. split; [|split].
  - destruct (ownEntry (name e) errorMap) as [i|] eqn:E.
    + split; [done|]. intros H. apply inherited_not_own in H. congruence.
    + destruct (existsb (eqs (name e)) inheritedNames) eqn:Ei.
      * split; [|done]. intros _. by apply existsb_eqs_In.
      * split.
        { repeat match goal with
                 | |- (if ?c then _ else _) = None -> _ => destruct c; [done|]
                 end. done. }
        intros H. apply existsb_eqs_In in H. congruence.
  - intros errorInfo.
    destruct (ownEntry (name e) errorMap) as [i|] eqn:E.
    + intros [= <-]. apply ownEntry_In in E.
      pose proof errorMap_sound as Hs. rewrite Forall_forall in Hs.
      apply Hs. by apply list_elem_of_In.
    + destruct (existsb (eqs (name e)) inheritedNames); [done|].
      repeat match goal with
             | |- (if ?c then _ else _) = Some _ -> _ =>
                 destruct c; [intros [= <-]; entry_sound|]
             end.
      intros [= <-]. simpl. split; [by destruct (error_message e)|].
      split; [done|]. vm_compute; tauto.
  - by intros errorInfo ->.
Qed.

End HandleFacts.

Section RetryFacts.
Import ErrorHandler.

Context {V : Type}.
Variable fn : nat -> V + error.

Lemma attempts_spec maxRetries k : forall n attempt delay lastError,
  (k < n)%nat ->
  Z.of_nat (attempt + k) <= maxRetries ->
  (forall j, (j < k)%nat -> stops fn (attempt + j) = false) ->
  stops fn (attempt + k) = true \/ Z.of_nat (attempt + k) = maxRetries ->
  attempts fn n attempt maxRetries delay lastError
    = (rounds k delay ++ [Call], endOf (fn (attempt + k)), delay * 2 ^ Z.of_nat k).
Proof.
  induction k as [|k IH]; intros n attempt delay lastError Hn Hle Hgo Hstop.
  - destruct n as [|n]; [lia|]. rewrite Nat.add_0_r in *. simpl.
    unfold stops in Hstop. rewrite Z.mul_1_r.
    destruct (fn attempt) as [v|e]; [done|].
    destruct Hstop as [->| ->]; [done|].
    by rewrite Z.eqb_refl, orb_true_r.
  - destruct n as [|n]; [lia|].
    pose proof (Hgo 0%nat ltac:(lia)) as H0. rewrite Nat.add_0_r in H0.
    unfold stops in H0. simpl attempts.
    destruct (fn attempt) as [v|e]; [done|].
    apply negb_false_iff in H0. rewrite H0. simpl negb.
    destruct (Z.eqb_spec (Z.of_nat attempt) maxRetries); [lia|]. simpl orb.
    cbv iota.
    rewrite (IH n (S attempt) (delay * 2) (Some e)).
    + simpl rounds. replace (S attempt + k)%nat with (attempt + S k)%nat by lia.
      replace (delay * 2 * 2 ^ Z.of_nat k) with (delay * 2 ^ Z.of_nat (S k)).
      { done. }
      rewrite Nat2Z.inj_succ, Z.pow_succ_r by lia. lia.
    + lia.
    + lia.
    + intros j Hj. replace (S attempt + j)%nat with (attempt + S j)%nat by lia.
      apply Hgo. lia.
    + replace (S attempt + k)%nat with (attempt + S k)%nat by lia. done.
Qed.

(** The retries.  With [maxRetries >= 0], let [k] be the first call that
    returns or throws an error that is not recoverable, or the call
    numbered [maxRetries] if there is none before it.  The wrapper makes the
    calls up to [k], sleeps between them [delay], [2 * delay],
    [4 * delay], ..., and ends as call [k] did: at most [maxRetries + 1]
    calls.  It leaves [delay] doubled [k] times for its next call.  With a
    negative [maxRetries] it calls nothing and throws [undefined]. *)
Theorem withRetry_spec (maxRetries delay : Z) (k : nat) :
  (Z.of_nat k <= maxRetries ->
   (forall j, (j < k)%nat -> stops fn j = false) ->
   stops fn k = true \/ Z.of_nat k = maxRetries ->
   withRetry fn maxRetries delay
     = (rounds k delay ++ [Call], endOf (fn k), delay * 2 ^ Z.of_nat k)) /\
  (maxRetries < 0 ->
   withRetry fn maxRetries delay = ([], ThrownUndefined, delay)).
Proof.
  unfold withRetry. split.
  - intros Hk Hgo Hstop.
    apply (attempts_spec maxRetries k _ 0%nat); [lia|done|done|done].
  - intros H. replace (Z.to_nat (maxRetries + 1)) with 0%nat by lia. done.
Qed.

End RetryFacts.

(** Two timeouts, then a value: three calls, sleeps of one and two
    seconds, and a delay of four seconds left behind. *)
Lemma withRetry_spec_witness :
  ErrorHandler.withRetry flaky 3 1000
    = ([ErrorHandler.Call; ErrorHandler.Sleep 1000; ErrorHandler.Call;
        ErrorHandler.Sleep 2000; ErrorHandler.Call],
       ErrorHandler.Returned 7%nat, 4000).
Proof.
  refine (proj1 (withRetry_spec flaky 3 1000 2) _ _ _).
  - lia.
  - intros [|[|j]] Hj; [reflexivity|reflexivity|lia].
  - left. reflexivity.
Defined.
(** ** [truncateToLimit] *)

Section TruncateFacts.
Import SummarizerService.

Lemma sentenceEnd_not_space c : isSentenceEnd c = true -> isWhiteSpace c = false.
Proof.
  unfold isSentenceEnd, isCh.
  destruct (N.eqb_spec c (N_of_ascii ".")) as [->|_]; [done|].
  destruct (N.eqb_spec c (N_of_ascii "!")) as [->|_]; [done|].
  destruct (N.eqb_spec c (N_of_ascii "?")) as [->|_]; done.
Qed.

(** [exec] on the pattern of the sentence ends, unfolded. *)
Lemma exec_sentence s :
  exec sentenceEndings s =
    match s with
    | c :: d :: s' =>
        if isSentenceEnd c && isWhiteSpace d then Some ([c; d], s')
        else exec sentenceEndings (d :: s')
    | _ => None
    end.
Proof.
  destruct s as [|c [|d s']]; unfold exec; simpl.
  - done.
  - unfold group, sentenceEndings, chr. simpl. by destruct (isSentenceEnd c).
  - unfold group at 1. unfold sentenceEndings at 1. unfold chr at 1 2.
    destruct (isSentenceEnd c); simpl; [|done].
    destruct (isWhiteSpace d); simpl; [|done].
    by replace (S (S (length s')) - length s')%nat with 2%nat by lia.
Qed.

Lemma scanEnds_step c d s' i found :
  scanEnds (c :: d :: s') i found =
    scanEnds (d :: s') (i + 1)
      (if isSentenceEnd c && isWhiteSpace d then Some i else found).
Proof. reflexivity. Qed.

(** What one [exec] finds, in terms of the scan. *)
Lemma exec_scan s : forall i found,
  match exec sentenceEndings s with
  | None => scanEnds s i found = found
  | Some (whole, rest) =>
      len whole = 2 /\ (length rest < length s)%nat /\
      scanEnds s i found =
        scanEnds rest (i + (len s - len whole - len rest) + 2)
          (Some (i + (len s - len whole - len rest)))
  end.
Proof.
  induction s as [|c s IH]; intros i found; [done|].
  rewrite exec_sentence. destruct s as [|d s']; [done|].
  rewrite scanEnds_step.
  destruct (isSentenceEnd c && isWhiteSpace d) eqn:E.
  - apply andb_prop in E as [_ Hd]. split; [done|]. split; [simpl; lia|].
    replace (i + (len (c :: d :: s') - len [c; d] - len s')) with i
      by (unfold len; simpl; lia).
    destruct s' as [|e s'']; [done|].
    rewrite scanEnds_step.
    assert (isSentenceEnd d = false) as ->.
    { destruct (isSentenceEnd d) eqn:Hs; [|done].
      apply sentenceEnd_not_space in Hs. congruence. }
    simpl andb. cbv iota. by replace (i + 1 + 1) with (i + 2) by lia.
  - specialize (IH (i + 1) found).
    destruct (exec sentenceEndings (d :: s')) as [[whole rest]|]; [|done].
    destruct IH as (Hw & Hl & IH). split; [done|]. split; [simpl in *; lia|].
    rewrite IH. f_equal; [|f_equal]; unfold len; simpl length; lia.
Qed.

(** The loop over [exec] is the scan. *)
Lemma lastExec_scan fuel : forall s i found,
  (length s < fuel)%nat ->
  lastExec fuel sentenceEndings s i found = scanEnds s i found.
Proof.
  induction fuel as [|fuel IH]; intros s i found Hf; [lia|].
  simpl. pose proof (exec_scan s i found) as H.
  destruct (exec sentenceEndings s) as [[whole rest]|]; [|done].
  destruct H as (Hw & Hl & ->).
  rewrite IH by lia. f_equal. lia.
Qed.

Lemma isEndAt_cons c s n : isEndAt (c :: s) (S n) = isEndAt s n.
Proof. reflexivity. Qed.

(** What the scan answers. *)
Lemma scanEnds_spec s : forall i found,
  (scanEnds s i found = found /\ forall n, isEndAt s n = false) \/
  exists n, scanEnds s i found = Some (i + Z.of_nat n) /\ isLastEnd s n.
Proof.
  induction s as [|c s IH]; intros i found.
  { left. split; [done|]. intros n. unfold isEndAt. by rewrite drop_nil. }
  simpl scanEnds.
  set (found' := match s with
                 | d :: _ => if isSentenceEnd c && isWhiteSpace d then Some i else found
                 | [] => found
                 end).
  destruct (IH (i + 1) found') as [[E Hno]|(n & E & Hn & Hlast)].
  - assert (Hhead : isEndAt (c :: s) 0 = true /\ found' = Some i \/
                    isEndAt (c :: s) 0 = false /\ found' = found).
    { unfold isEndAt, found'. simpl. destruct s as [|d s']; [by right|].
      destruct (isSentenceEnd c && isWhiteSpace d); [by left|by right]. }
    destruct Hhead as [[H0 Hf]|[H0 Hf]].
    + right. exists 0%nat. rewrite E, Hf, Z.add_0_r. split; [done|].
      split; [done|]. intros [|m] Hm; [lia|]. by rewrite isEndAt_cons.
    + left. rewrite E, Hf. split; [done|].
      intros [|n]; [done|]. by rewrite isEndAt_cons.
  - right. exists (S n). rewrite E. split; [f_equal; lia|].
    split; [by rewrite isEndAt_cons|].
    intros [|m] Hm; [lia|]. rewrite isEndAt_cons. apply Hlast. lia.
Qed.

Lemma len_trim s : len (trim s) <= len s.
Proof.
  destruct (trim_split s) as (a & b & E & _).
  unfold len. rewrite E at 2. rewrite !length_app. lia.
Qed.

Lemma len_substringTo n s : len (substringTo n s) <= Z.max 0 n.
Proof. unfold len, substringTo. rewrite length_take. lia. Qed.

Lemma lastIndexOf_bound c s : lastIndexOf c s < len s.
Proof.
  destruct (lastIndexOf_spec c s) as [[-> _]|(H0 & Hc & _)].
  - unfold len. lia.
  - apply lookup_lt_Some in Hc. unfold len. lia.
Qed.

Lemma isEndAt_bound s n : isEndAt s n = true -> (S n < length s)%nat.
Proof.
  unfold isEndAt. intros H.
  destruct (drop n s) as [|c [|d t]] eqn:E; try done.
  apply (f_equal length) in E. rewrite length_drop in E. simpl in E. lia.
Qed.

(** What the loop of [truncateToLimit] finds in [truncated]. *)
Lemma lastMatch_spec truncated :
  (lastExec (S (length truncated)) sentenceEndings truncated 0 None = None /\
   forall n, isEndAt truncated n = false) \/
  exists n,
    lastExec (S (length truncated)) sentenceEndings truncated 0 None
      = Some (Z.of_nat n) /\ isLastEnd truncated n.
Proof.
  rewrite lastExec_scan by lia.
  destruct (scanEnds_spec truncated 0 None) as [H|(n & E & H)]; [by left|].
  right. exists n. by rewrite E, Z.add_0_l.
Qed.

Lemma truncate_short text maxChars :
  len text <= maxChars -> truncateToLimit text maxChars = text.
Proof.
  intros Ht. unfold truncateToLimit.
  by destruct (Z.leb_spec (len text) maxChars); [|lia].
Qed.

Lemma truncate_cut text maxChars :
  maxChars < len text ->
  exists n, Z.of_nat n <= Z.max 0 maxChars /\
    truncateToLimit text maxChars = trim (take n text).
Proof.
  intros Hlong. unfold truncateToLimit.
  destruct (Z.leb_spec (len text) maxChars); [lia|].
  destruct (lastMatch_spec (substringTo maxChars text))
    as [[-> _]|(n & -> & Hn & _)].
  - pose proof (lastIndexOf_bound SP (substringTo maxChars text)).
    pose proof (len_substringTo maxChars text).
    destruct (Z.ltb_spec 0 (lastIndexOf SP (substringTo maxChars text))).
    + exists (Z.to_nat (lastIndexOf SP (substringTo maxChars text))).
      split; [lia|done].
    + exists (Z.to_nat maxChars). split; [lia|done].
  - apply isEndAt_bound in Hn.
    pose proof (len_substringTo maxChars text). unfold len in *.
    exists (Z.to_nat (Z.of_nat n + 1)). split; [lia|done].
Qed.

Lemma truncate_len text maxChars :
  len (truncateToLimit text maxChars) <= Z.max 0 maxChars.
Proof.
  destruct (Z.le_gt_cases (len text) maxChars) as [H|H].
  - rewrite truncate_short by done. lia.
  - destruct (truncate_cut text maxChars ltac:(lia)) as (n & Hn & ->).
    pose proof (len_trim (take n text)).
    assert (len (take n text) <= Z.of_nat n).
    { unfold len. rewrite length_take. lia. }
    lia.
Qed.

(** The text handed on never exceeds the limit, and cutting twice is
    cutting once: a text within [maxChars] code units is returned as it is,
    a longer one is cut down to a trimmed prefix of at most [maxChars] code
    units. *)
Theorem truncate_bound (text : list N) (maxChars : Z) :
  (len text <= maxChars -> truncateToLimit text maxChars = text) /\
  len (truncateToLimit text maxChars) <= Z.max 0 maxChars /\
  (exists n, truncateToLimit text maxChars = text \/
             truncateToLimit text maxChars = trim (take n text)) /\
  truncateToLimit (truncateToLimit text maxChars) maxChars
    = truncateToLimit text maxChars.
Proof.
  pose proof (truncate_short) as Hid.
  pose proof (truncate_cut text maxChars) as Hcut.
  pose proof (truncate_len text maxChars) as Hlen.
  split; [apply Hid|]. split; [done|]. split.
  - destruct (Z.le_gt_cases (len text) maxChars) as [H|H].
    + exists 0%nat. left. by apply Hid.
    + destruct (Hcut ltac:(lia)) as (n & _ & E). exists n. by right.
  - destruct (Z.le_gt_cases 0 maxChars) as [H|H].
    + apply Hid. lia.
    + destruct (Hcut ltac:(unfold len; lia)) as (n & Hn & E).
      assert (E0 : truncateToLimit text maxChars = []).
      { rewrite E. replace n with 0%nat by lia. done. }
      rewrite E0. unfold truncateToLimit.
      destruct (Z.leb_spec (len []) maxChars); [done|].
      replace (substringTo maxChars []) with (@nil N)
        by (unfold substringTo; by rewrite take_nil).
      done.
Qed.

Lemma last_trim s c :
  last s = Some c -> isWhiteSpace c = false -> last (trim s) = Some c.
Proof.
  intros Hl Hc. unfold trim.
  destruct (trimStart_split s) as (w & E & Hw).
  assert (Ht : last (trimStart s) = Some c).
  { rewrite E in Hl. destruct (trimStart s) as [|x t] eqn:Et.
    - rewrite app_nil_r in Hl.
      apply last_Some in Hl as (w' & ->).
      rewrite forallb_app in Hw. simpl in Hw.
      rewrite Hc in Hw. by rewrite andb_false_r in Hw.
    - by rewrite last_app_cons in Hl. }
  rewrite trimEnd_id; [done|]. by rewrite Ht.
Qed.

(** A long text is cut at the last sentence end among its first
    [maxChars] code units: the text kept ends with that [.], [!] or [?].
    Without a sentence end it is cut before the last space of the prefix,
    if there is one beyond the first position, and otherwise at
    [maxChars]. *)
Theorem truncate_sentence (text : list N) (maxChars : Z) :
  maxChars < len text ->
  (forall n, isLastEnd (substringTo maxChars text) n ->
     truncateToLimit text maxChars = trim (take (S n) text) /\
     exists c, last (truncateToLimit text maxChars) = Some c /\
               isSentenceEnd c = true /\ text !! n = Some c) /\
  ((forall n, isEndAt (substringTo maxChars text) n = false) ->
   (forall i, 0 < i -> isLastIndex SP (substringTo maxChars text) i ->
      truncateToLimit text maxChars = trim (take (Z.to_nat i) text)) /\
   ((forall j, (0 < j)%nat -> substringTo maxChars text !! j <> Some SP) ->
      truncateToLimit text maxChars = trim (substringTo maxChars text))).
Proof.
  intros Hlong. unfold truncateToLimit.
  destruct (Z.leb_spec (len text) maxChars); [lia|].
  destruct (lastMatch_spec (substringTo maxChars text))
    as [[-> Hno]|(n & -> & Hn & Hlast)].
  - split.
    { intros n [Hn _]. by rewrite Hno in Hn. }
    intros _. split.
    + intros i Hi Hlasti. rewrite (lastIndexOf_last _ _ _ Hlasti).
      by destruct (Z.ltb_spec 0 i); [|lia].
    + intros Hnosp.
      destruct (lastIndexOf_spec SP (substringTo maxChars text))
        as [[-> _]|(H0 & Hc & _)]; [done|].
      destruct (Z.ltb_spec 0 (lastIndexOf SP (substringTo maxChars text)));
        [|done].
      exfalso. apply (Hnosp (Z.to_nat (lastIndexOf SP (substringTo maxChars text))));
        [lia|done].
  - split.
    2:{ intros Hno. by rewrite Hno in Hn. }
    intros m [Hm Hlastm].
    assert (m = n) as ->.
    { destruct (Nat.lt_trichotomy m n) as [Hmn|[Hmn|Hmn]]; [|done|].
      - rewrite (Hlastm n Hmn) in Hn. done.
      - rewrite (Hlast m Hmn) in Hm. done. }
    replace (substringTo (Z.of_nat n + 1) text) with (take (S n) text)
      by (unfold substringTo; f_equal; lia).
    split; [done|].
    unfold isEndAt in Hn.
    destruct (drop n (substringTo maxChars text)) as [|c [|d t]] eqn:E; try done.
    apply andb_prop in Hn as [Hc Hd].
    assert (Hnc : substringTo maxChars text !! n = Some c).
    { rewrite <- (Nat.add_0_r n), <- lookup_drop, E. done. }
    unfold substringTo in Hnc. apply lookup_take_Some in Hnc as [Hnc _].
    exists c. split; [|done].
    apply last_trim; [|by apply sentenceEnd_not_space].
    rewrite (take_S_r _ _ _ Hnc). apply last_snoc.
Qed.

End TruncateFacts.

(** A text of 26 code units at a limit of 20: cut after its second
    sentence. *)
Lemma truncate_sentence_witness :
  SummarizerService.truncateToLimit (lit "One. Two! Three is longer.") 20
    = trim (take 9 (lit "One. Two! Three is longer.")).
Proof.
  refine (proj1 (proj1 (truncate_sentence (lit "One. Two! Three is longer.")
                          20 _) 8%nat _)).
  - vm_compute. reflexivity.
  - split; [reflexivity|].
    intros m Hm. do 9 (destruct m as [|m]; [lia|]).
    do 12 (destruct m as [|m]; [reflexivity|]). reflexivity.
Defined.
(** ** The keys of the cache *)

Section KeyFacts.
Import CacheManager Popup.

Lemma key_split url text :
  exists h, generateCacheKey url text = (url ++ lit ":") ++ h /\
    length h = 16%nat /\ Forall (fun c => isLowerHex c = true) h.
Proof.
  exists (simpleHash (substring0 1000 text)).
  destruct (simpleHash_shape (substring0 1000 text)) as [Hl Hh].
  split; [|done]. unfold generateCacheKey. by rewrite <- app_assoc.
Qed.

(** [:deep-dive] is no tail of hexadecimal digits. *)
Lemma deep_dive_not_hex h :
  length h = 16%nat -> Forall (fun c => isLowerHex c = true) h ->
  forall a b, a ++ h <> b ++ DEEP_DIVE.
Proof.
  intros Hl Hh a b E.
  assert (Hsplit : h = take 6 h ++ drop 6 h) by (by rewrite take_drop).
  rewrite Hsplit in E. rewrite app_assoc in E.
  apply app_inj_2 in E as [_ E].
  2:{ rewrite length_drop, Hl. reflexivity. }
  rewrite Hsplit in Hh. apply Forall_app in Hh as [_ Hh]. rewrite E in Hh.
  apply Forall_inv in Hh. by vm_compute in Hh.
Qed.

(** The keys keep pages and kinds of entries apart.  Two pages with the same
    key have the same URL; and the key of a summary is never the key of a
    Deep-Dive result, of the same page or of another, so that a write of
    one kind leaves every entry of the other kind as it was. *)
Theorem cache_keys_separate {V : Type} (url1 text1 url2 text2 : list N) :
  (generateCacheKey url1 text1 = generateCacheKey url2 text2 -> url1 = url2) /\
  (generateCacheKey url1 text1 ++ DEEP_DIVE
     = generateCacheKey url2 text2 ++ DEEP_DIVE -> url1 = url2) /\
  generateCacheKey url1 text1 <> generateCacheKey url2 text2 ++ DEEP_DIVE /\
  (forall (storage : gmap (list N) (entry V)) now v t,
     get (generateCacheKey url2 text2 ++ DEEP_DIVE)
         (set now (generateCacheKey url1 text1) v t storage)
       = get (generateCacheKey url2 text2 ++ DEEP_DIVE) storage /\
     get (generateCacheKey url1 text1)
         (set now (generateCacheKey url2 text2 ++ DEEP_DIVE) v t storage)
       = get (generateCacheKey url1 text1) storage).
Proof.
  destruct (key_split url1 text1) as (h1 & E1 & Hl1 & Hh1).
  destruct (key_split url2 text2) as (h2 & E2 & Hl2 & Hh2).
  assert (Hsame : generateCacheKey url1 text1 = generateCacheKey url2 text2 ->
                  url1 = url2).
  { rewrite E1, E2. intros E.
    apply app_inj_2 in E as [E _]; [|congruence].
    by apply app_inj_2 in E as [E _]. }
  assert (Hne : generateCacheKey url1 text1
                <> generateCacheKey url2 text2 ++ DEEP_DIVE).
  { rewrite E1. by apply deep_dive_not_hex. }
  split; [done|]. split.
  { intros E. apply Hsame. by apply app_inv_tail in E. }
  split; [done|].
  intros storage now v t. unfold get, set.
  split; by rewrite lookup_insert_ne.
Qed.

End KeyFacts.

(** ** The settings *)

Section SettingsFacts.
Import SettingsManager.

(** The mode round-trips.  The state of the checkbox that the popup saved
    is the state it loads when it is opened again; with nothing stored the
    state is checked, the default [immediate]; a save of the mode leaves
    every other setting as it was; and for a stored value that is not
    [null], [getAll] holds what [get] returns. *)
Theorem settings_round_trip (st : storage) (checked : bool) :
  loadMode (saveMode checked st) = checked /\
  loadMode ∅ = true /\
  (forall key, key <> MODE -> get key (saveMode checked st) = get key st) /\
  (forall key v, st !! key = Some v -> nullish v = false ->
     get key st = v /\ getAll st !! key = Some v).
Proof.
  split; [|split; [|split]].
  - unfold loadMode, saveMode, get, set. rewrite lookup_insert_eq.
    by destruct checked.
  - reflexivity.
  - intros key Hk. unfold saveMode, get, set. by rewrite lookup_insert_ne.
  - intros key v Hv Hn. unfold get, getAll. rewrite Hv, Hn. split; [done|].
    by apply lookup_union_Some_l.
Qed.

End SettingsFacts.

(** ** The extraction of the page text *)

Section ExtractionFacts.
Import Content ContentScript.

Lemma pickBest_metrics els : forall best bestMetrics,
  (forall el, best = Some el -> bestMetrics = scoreElement el) ->
  forall el, (pickBest els best bestMetrics).1 = Some el ->
    (pickBest els best bestMetrics).2 = scoreElement el.
Proof.
  induction els as [|x els IH]; intros best bestMetrics H el.
  - apply H.
  - change (pickBest (x :: els) best bestMetrics)
      with (if bestMetrics.1 <? (scoreElement x).1
            then pickBest els (Some x) (scoreElement x)
            else pickBest els best bestMetrics).
    destruct (bestMetrics.1 <? (scoreElement x).1); apply IH; [|done].
    by intros ? [= <-].
Qed.

Lemma len_slice0 n s : len (slice0 n s) = Z.min (Z.max 0 n) (len s).
Proof. unfold len, slice0. rewrite length_take. lia. Qed.

(** The cap keeps a text of at least 100 code units at 100 or more, and
    brings every text down to 60,000 at most. *)
Lemma capText_bounds s :
  100 <= len s -> 100 <= len (capText s) <= 60000.
Proof.
  intros Hs. unfold capText, MAX_TEXT.
  destruct (Z.ltb_spec 60000 (len s)); [|lia].
  pose proof (len_slice0 60000 s) as Ht.
  destruct (Z.ltb_spec 1000 (lastIndexOf (N_of_ascii ".") (slice0 60000 s)));
    [|lia].
  pose proof (lastIndexOf_bound (N_of_ascii ".") (slice0 60000 s)).
  rewrite len_slice0. lia.
Qed.

Lemma bodyFallback_length p :
  bodyFallback p = [] \/ 100 <= len (bodyFallback p).
Proof.
  unfold bodyFallback, MIN_TEXT_LENGTH.
  destruct (Z.leb_spec 100 (len (trim (cleanText (body p))))); [by right|by left].
Qed.

Lemma onGetText_empty p : extractArticleText p = [] -> text (onGetText p) = [].
Proof. intros E. unfold onGetText. by rewrite E. Qed.

(** The text extracted is empty or has at least 100 code units; a text
    beyond 60,000 code units can only be the text of [document.body] that
    the fallback returns without a cap.  So the listener answers with
    [success] exactly when the extraction is not empty, and then with its
    text. *)
Theorem extract_length (p : page) :
  (extractArticleText p = [] \/ 100 <= len (extractArticleText p)) /\
  (len (extractArticleText p) <= 60000 \/
   extractArticleText p = trim (cleanText (body p))) /\
  (success (onGetText p) = true <-> extractArticleText p <> []) /\
  text (onGetText p)
    = (if success (onGetText p) then extractArticleText p else []).
Proof.
  assert (Hlen : (extractArticleText p = [] \/ 100 <= len (extractArticleText p))
                 /\ (len (extractArticleText p) <= 60000 \/
                     extractArticleText p = trim (cleanText (body p)))).
  { assert (Hfb : (bodyFallback p = [] \/ 100 <= len (bodyFallback p)) /\
                  (len (bodyFallback p) <= 60000 \/
                   bodyFallback p = trim (cleanText (body p)))).
    { split; [apply bodyFallback_length|].
      unfold bodyFallback, MIN_TEXT_LENGTH.
      destruct (Z.leb_spec 100 (len (trim (cleanText (body p)))));
        [by right|left; unfold len; simpl; lia]. }
    unfold extractArticleText.
    pose proof (pickBest_metrics (candidates p) None (0, 0)
                  ltac:(by intros ? [=])) as Hm.
    destruct (pickBest (candidates p) None (0, 0)) as [[best|] metrics];
      [|done].
    specialize (Hm best eq_refl). simpl in Hm. subst metrics.
    change MIN_TEXT_LENGTH with 100.
    destruct (Z.leb_spec 100 (scoreElement best).2) as [Hbest|_]; [|done].
    assert (100 <= len (combinedText best)).
    { unfold combinedText, MIN_TEXT_LENGTH.
      match goal with |- context [if ?c then _ else _] =>
        destruct c eqn:E end; [exact Hbest|lia]. }
    pose proof (capText_bounds (combinedText best) ltac:(done)).
    split; [right|left]; lia. }
  split; [tauto|]. split; [tauto|].
  unfold onGetText, MIN_TEXT_LENGTH.
  destruct (Z.ltb_spec (len (extractArticleText p)) 100) as [Hs|Hs]; simpl.
  - split; [|done]. split; [done|].
    intros Hne. destruct Hlen as [[E|H] _]; [done|lia].
  - split; [|done]. split; [|done]. intros _ E. rewrite E in Hs.
    unfold len in Hs. simpl in Hs. lia.
Qed.

End ExtractionFacts.

(** ** What the popup gets of the page, and what it shows of a failure *)

Section PageTextFacts.
Import ErrorHandler ContentScript DeepDiveAssistant.

(** The checks of [getPageText].  It resolves only with the response that
    the content script of a page outside the restricted protocols sent, and
    only when the text of the response, trimmed, has at least 100 code
    units.  When it rejects with a [NoContentError], whichever of its three
    messages the error carries, [handle] answers with the one message of
    the table, and no retry.  A page where the extraction is empty is such
    a case. *)
Theorem page_text_checked (tabs : option (list tab)) (send : delivery) :
  (forall r, getPageText tabs send = Resolved r ->
     send = Delivered (Some r) /\ 100 <= len (trim (text r)) /\
     exists activeTab rest url,
       tabs = Some (activeTab :: rest) /\ tab_url activeTab = Some url /\
       Forall (fun protocol => startsWith protocol url = false)
         restrictedProtocols) /\
  (forall e, getPageText tabs send = RejectedWith e ->
     (name e = lit "NoContentError" /\ handle e = Some NoContentError) \/
     (name e = lit "Error" /\
      (tabs = None \/ tabs = Some [] \/ exists m, send = LastError m))) /\
  (forall p, send = Delivered (Some (onGetText p)) ->
     extractArticleText p = [] ->
     getPageText tabs send = Pending \/
     exists e, getPageText tabs send = RejectedWith e /\
       isRecoverable e = false).
Proof.
  unfold getPageText.
  destruct tabs as [[|activeTab rest]|].
  2:{ destruct (tab_url activeTab) as [url|] eqn:Eu.
      2:{ split; [done|]. split; [done|]. intros; by left. }
      destruct (existsb (fun protocol => startsWith protocol url)
                  restrictedProtocols) eqn:Er.
      { split; [done|]. split.
        - intros e [= <-]. by left.
        - intros. right. eexists. split; [reflexivity|]. reflexivity. }
      destruct send as [m|[r|]].
      - split; [done|]. split.
        + intros e [= <-]. right. split; [done|]. right. right. by exists m.
        + by intros p [=].
      - destruct (text r) as [|c s] eqn:Et.
        { split; [done|]. split.
          - intros e [= <-]. by left.
          - intros. right. eexists. split; [reflexivity|]. reflexivity. }
        destruct (Z.ltb_spec (len (trim (c :: s))) 100).
        { split; [done|]. split.
          - intros e [= <-]. by left.
          - intros. right. eexists. split; [reflexivity|]. reflexivity. }
        split; [|split; [done|]].
        + intros r' [= <-]. split; [done|]. rewrite Et. split; [lia|].
          exists activeTab, rest, url. split; [done|]. split; [done|].
          apply Forall_forall. intros x Hx. apply list_elem_of_In in Hx.
          destruct (startsWith x url) eqn:Ex; [|done].
          assert (existsb (fun protocol => startsWith protocol url)
                    restrictedProtocols = true); [|congruence].
          apply existsb_exists. by exists x.
        + intros p [= ->] He.
          by rewrite (onGetText_empty p He) in Et.
      - split; [done|]. split.
        + intros e [= <-]. by left.
        + by intros p [=]. }
  all: split; [done|]; split;
    [intros e [= <-]; right; split; [done|tauto]
    |intros; right; eexists; split; [reflexivity|reflexivity]].
Qed.

End PageTextFacts.
(** ** What the popup shows when the analysis fails *)

Section FetchFacts.
Import ErrorHandler DeepDiveAssistant.

Variable stringOfOther : jsval -> list N.
Variable objectConverts : jsval -> bool.
Variable cannotConvert : list N.
Variable readOfNull : list N -> list N.

Local Abbreviation fetchAnalysis :=
  (fetchAnalysis stringOfOther objectConverts cannotConvert readOfNull).

Lemma newError_shown name message :
  In name [lit "RateLimitError"; lit "ServerError"; lit "NetworkError"] ->
  (converts objectConverts message = true ->
   handle (newError stringOfOther objectConverts cannotConvert name message)
     = ownEntry name errorMap /\
   isRecoverable
     (newError stringOfOther objectConverts cannotConvert name message) = true)
  /\
  (converts objectConverts message = false ->
   handle (newError stringOfOther objectConverts cannotConvert name message)
     = Some TypeError /\
   isRecoverable
     (newError stringOfOther objectConverts cannotConvert name message)
     = false).
Proof.
  intros Hn. unfold newError.
  destruct (converts objectConverts message); split; try done; intros _.
  destruct Hn as [<-|[<-|[<-|[]]]]; done.
Qed.

(** The failures of [fetchAnalysis] as [handle] shows them.  An answer with
    a status outside 200..299 is shown with the fixed message of its class
    (429, 500 and above, the rest) and a retry button, whatever text the
    server sent.  There are two exceptions, both shown as an unexpected
    error without retry: the body of the answer is the JSON [null], so that
    the read of its [error] throws; or what the body holds for message is an
    object that the constructor of [Error] cannot convert to a string.  A
    [TypeError] of [fetch] itself, the backend being out of reach, is shown
    in that same way. *)
Theorem analysis_failure_shown (r : httpResponse) :
  ok r = false ->
  (exists e,
     fetchAnalysis (Replied r) = RejectedWith e /\
     (nullish (errorDataOf r) = false ->
      converts objectConverts (get (errorDataOf r) (lit "error")) = true ->
      converts objectConverts (get (errorDataOf r) (lit "message")) = true ->
      handle e = Some (if status r =? 429 then RateLimitError
                       else if 500 <=? status r then ServerError
                       else NetworkError) /\
      isRecoverable e = true) /\
     (nullish (errorDataOf r) = false ->
      converts objectConverts (get (errorDataOf r) (lit "error")) = false ->
      handle e = Some TypeError /\ isRecoverable e = false) /\
     (nullish (errorDataOf r) = true ->
      handle e = Some TypeError /\ isRecoverable e = false)) /\
  (forall m,
     fetchAnalysis (Failed (Error (lit "TypeError") m))
       = RejectedWith (Error (lit "TypeError") m) /\
     handle (Error (lit "TypeError") m) = Some TypeError /\
     isRecoverable (Error (lit "TypeError") m) = false).
Proof.
  intros Hok. split; [|done].
  unfold DeepDiveAssistant.fetchAnalysis. rewrite Hok. simpl negb.
  cbv iota zeta. unfold get.
  destruct (getE (errorDataOf r) (lit "error")) as [e1|] eqn:E1.
  - assert (Hnn : nullish (errorDataOf r) = false)
      by (by destruct (errorDataOf r)).
    assert (E2 : exists e2, getE (errorDataOf r) (lit "message") = Some e2).
    { destruct (errorDataOf r); try done; eexists; reflexivity. }
    destruct E2 as [e2 E2]. rewrite E2.
    set (name := if status r =? 429 then lit "RateLimitError"
                 else if 500 <=? status r then lit "ServerError"
                 else lit "NetworkError").
    assert (Hname : In name [lit "RateLimitError"; lit "ServerError";
                             lit "NetworkError"]).
    { unfold name. destruct (status r =? 429); [by left|].
      destruct (500 <=? status r); [right; by left|do 2 right; by left]. }
    assert (Hentry : ownEntry name errorMap
              = Some (if status r =? 429 then RateLimitError
                      else if 500 <=? status r then ServerError
                      else NetworkError)).
    { unfold name. destruct (status r =? 429); [done|].
      by destruct (500 <=? status r). }
    eexists. split; [reflexivity|]. rewrite Hnn. split; [|split; [|done]].
    + intros _ H1 H2. rewrite <- Hentry.
      apply newError_shown; [done|].
      destruct (truthy e1); [done|]. by destruct (truthy e2).
    + intros _ H1. apply newError_shown; [done|].
      assert (Ht : truthy e1 = true) by (by destruct e1).
      by rewrite Ht.
  - assert (Hn : nullish (errorDataOf r) = true)
      by (by destruct (errorDataOf r)).
    eexists. split; [reflexivity|]. rewrite Hn. repeat split; done.
Qed.

End FetchFacts.

(** The limiter of the backend has answered 429. *)
Lemma analysis_failure_shown_witness :
  exists e,
    DeepDiveAssistant.fetchAnalysis (fun _ => []) (fun _ => true) []
      (fun _ => [])
      (DeepDiveAssistant.Replied
         (DeepDiveAssistant.Http 429
            (inr (VObj [(lit "error", VStr (lit "Too many requests"))]))))
      = DeepDiveAssistant.RejectedWith e /\
    ErrorHandler.handle e = Some ErrorHandler.RateLimitError /\
    ErrorHandler.isRecoverable e = true.
Proof.
  destruct (proj1 (analysis_failure_shown (fun _ => []) (fun _ => true) []
                     (fun _ => [])
                     (DeepDiveAssistant.Http 429
                        (inr (VObj [(lit "error",
                                     VStr (lit "Too many requests"))])))
                     eq_refl))
    as (e & He & H & _).
  exists e. split; [exact He|]. apply H; reflexivity.
Defined.

(** ** A second pass of the citation filter *)

Section TidyFacts.
Import Server.

Lemma tidy_arr items : tidy (VArr items) <-> Forall tidy items.
Proof.
  simpl. induction items as [|x l IH]; [split; constructor|].
  rewrite Forall_cons, IH. done.
Qed.

Lemma tidy_obj props :
  tidy (VObj props) <->
  Forall (fun kv => eqs kv.1 PROTO = false /\ tidy kv.2) props.
Proof.
  simpl. induction props as [|[k x] l IH]; [split; constructor|].
  rewrite Forall_cons, IH. done.
Qed.

(** A match of the citation pattern shows a marker. *)
Lemma citationRe_Some t r : citationRe t = Some r -> hasMarker t.
Proof.
  rewrite citationRe_eq.
  destruct (skipRun_split isWhiteSpace t) as (w & Ht & _).
  destruct (skipRun isWhiteSpace t) as [|b [|d rest]]; try done.
  destruct (isCh "[" b && isDigit d) eqn:E; [|done].
  apply andb_prop in E as [Hb Hd].
  destruct (skipRun_split isDigit rest) as (ds & Hr & Hds).
  destruct (skipRun isDigit rest) as [|e v]; [done|].
  destruct (isCh "]" e) eqn:He; [|done]. intros _.
  apply N.eqb_eq in Hb, He. subst b e.
  exists w, (d :: ds), v. split; [done|]. split.
  - simpl. by rewrite Hd, Hds.
  - rewrite Ht, Hr. unfold marker. simpl. by rewrite <- app_assoc.
Qed.

(** A pattern that matches nowhere leaves the string as it is. *)
Lemma replaceAll_id m rep s :
  (forall a t, s = a ++ t -> m t = None) -> replaceAll m rep s = s.
Proof.
  induction s as [|c s IH]; intros H; rewrite replaceAll_unfold.
  - by rewrite (H [] [] eq_refl).
  - rewrite (H [] (c :: s) eq_refl). f_equal. apply IH.
    intros a t ->. by apply (H (c :: a)).
Qed.

Lemma collapse_id strict s :
  spaced strict s = true -> replaceAll spacesRe [SP] s = s.
Proof.
  induction s as [|c s IH]; intros H; rewrite collapse_unfold; [done|].
  simpl in H. apply andb_prop in H as [Hc Hs].
  destruct (isWhiteSpace c) eqn:Ec.
  - apply andb_prop in Hc as [Hsp Hnext]. apply N.eqb_eq in Hsp. subst c.
    destruct s as [|d s']; [done|].
    apply negb_true_iff in Hnext. rewrite (skipRun_stop _ _ _ Hnext).
    by rewrite IH.
  - by rewrite IH.
Qed.

Lemma stripString_idem s : stripString (stripString s) = stripString s.
Proof.
  pose proof (stripString_collapsed s) as Hc.
  pose proof (stripString_trimmed s) as Ht.
  pose proof (stripString_no_marker s) as Hm.
  remember (stripString s) as u eqn:Eu. clear Eu.
  unfold wsCollapsed in Hc. apply andb_prop in Hc as [_ Hc].
  unfold stripString. rewrite (replaceAll_id citationRe).
  - by rewrite (collapse_id true).
  - intros a t E.
    destruct (citationRe t) as [r|] eqn:Er; [|done].
    exfalso. apply Hm. rewrite E.
    rewrite <- (app_nil_r t). apply hasMarker_within.
    by apply citationRe_Some in Er.
Qed.

Lemma eqs_sym a b : eqs a b = eqs b a.
Proof.
  destruct (eqs a b) eqn:E.
  - apply eqs_eq in E. subst. symmetry. by apply eqs_eq.
  - destruct (eqs b a) eqn:E'; [|done].
    apply eqs_eq in E'. subst. by rewrite (proj2 (eqs_eq a a) eq_refl) in E.
Qed.

(** The entries that the loop of [stripCitations] assigns. *)
Local Abbreviation cleanedEntries props :=
  (List.map (fun kv : list N * jsval =>
               match kv with (k, x) => (k, stripCitations x) end) props).

Local Abbreviation own entries :=
  (List.filter (fun kv : list N * jsval => negb (eqs kv.1 PROTO)) entries).

Lemma strip_obj props :
  stripCitations (VObj props) = assignAll (cleanedEntries props).
Proof. reflexivity. Qed.

Lemma strip_proto proto props :
  stripCitations (VProto proto props) = assignAll (cleanedEntries props).
Proof. reflexivity. Qed.

Lemma strip_arr items :
  stripCitations (VArr items) = VArr (List.map stripCitations items).
Proof. reflexivity. Qed.

Lemma lookup_cons k k' (x : jsval) l :
  lookup k ((k', x) :: l) = if eqs k k' then Some x else lookup k l.
Proof. reflexivity. Qed.

Lemma lookup_none props :
  Forall (fun kv : list N * jsval => eqs kv.1 PROTO = false) props ->
  lookup PROTO props = None.
Proof.
  induction props as [|[k x] l IH]; [done|].
  intros [Hk Hl]%List.Forall_cons_iff.
  change (eqs (k, x).1 PROTO) with (eqs k PROTO) in Hk.
  by rewrite lookup_cons, eqs_sym, Hk, IH.
Qed.

Lemma filter_id props :
  Forall (fun kv : list N * jsval => eqs kv.1 PROTO = false) props ->
  own props = props.
Proof.
  induction props as [|[k x] l IH]; [done|].
  intros [Hk H]%List.Forall_cons_iff.
  change (eqs (k, x).1 PROTO) with (eqs k PROTO) in Hk.
  cbn [List.filter fst]. rewrite Hk. cbn [negb]. f_equal. by apply IH.
Qed.

Lemma assignAll_plain props :
  Forall (fun kv : list N * jsval => eqs kv.1 PROTO = false) props ->
  assignAll props = VObj props.
Proof.
  intros H. unfold assignAll. by rewrite (lookup_none _ H), (filter_id _ H).
Qed.

Lemma own_plain entries :
  Forall (fun kv : list N * jsval => eqs kv.1 PROTO = false) (own entries).
Proof.
  apply Forall_forall. intros kv [_ Hk]%list_elem_of_In%filter_In.
  by apply negb_true_iff in Hk.
Qed.

Lemma cleaned_plain props :
  Forall (fun kv : list N * jsval => eqs kv.1 PROTO = false) props ->
  Forall (fun kv : list N * jsval => eqs kv.1 PROTO = false)
    (cleanedEntries props).
Proof.
  intros H. apply Forall_map. eapply Forall_impl; [exact H|]. by intros [k x].
Qed.

Lemma lookup_cleaned k props :
  lookup k (cleanedEntries props)
    = option_map stripCitations (lookup k props).
Proof.
  induction props as [|[k' x] l IH]; [done|].
  cbn [List.map]. rewrite !lookup_cons. by destruct (eqs k k').
Qed.

(** The filter keeps the type of a value. *)
Lemma strip_type v : isObjectType (stripCitations v) = isObjectType v.
Proof.
  destruct v as [| | | | | |props|proto props]; try done;
    [rewrite strip_obj|rewrite strip_proto]; unfold assignAll;
    destruct (lookup PROTO _) as [p|]; try done; by destruct (isObjectType p).
Qed.

(** A second pass over the own properties of an object that the filter
    built. *)
Lemma strip_own entries :
  stripCitations (VObj (own entries)) = VObj (cleanedEntries (own entries)).
Proof.
  rewrite strip_obj. apply assignAll_plain, cleaned_plain, own_plain.
Qed.

(** The filter leaves a tidy value as it is. *)
Lemma tidy_fixed v : tidy v -> stripCitations v = v.
Proof.
  induction v as [| | | | s | items IH | props IH | proto props _ _]
    using jsval_nested_ind; try done.
  - simpl. by intros ->.
  - intros H%tidy_arr. rewrite strip_arr. f_equal.
    induction items as [|x l IHl]; [done|].
    apply List.Forall_cons_iff in IH as [Hx IH].
    apply List.Forall_cons_iff in H as [Tx H].
    simpl. by rewrite Hx, IHl.
  - intros H%tidy_obj. rewrite strip_obj.
    assert (Hm : cleanedEntries props = props).
    { induction props as [|[k x] l IHl]; [done|].
      apply List.Forall_cons_iff in IH as [Hx IH].
      apply List.Forall_cons_iff in H as [[_ Tx] H].
      simpl in *. by rewrite Hx, IHl. }
    rewrite Hm. apply assignAll_plain.
    eapply Forall_impl; [exact H|]. by intros kv [? _].
Qed.

Lemma protoFree_arr items : protoFree (VArr items) <-> Forall protoFree items.
Proof.
  simpl. induction items as [|x l IH]; [split; constructor|].
  rewrite Forall_cons, IH. done.
Qed.

Lemma protoFree_all props :
  (fix all (l : list (list N * jsval)) : Prop :=
     match l with
     | [] => True
     | (k, x) :: l' => (eqs k PROTO = false -> protoFree x) /\ all l'
     end) props
  <-> Forall (fun kv => eqs kv.1 PROTO = false -> protoFree kv.2) props.
Proof.
  induction props as [|[k x] l IH]; [split; constructor|].
  rewrite Forall_cons, IH. done.
Qed.

Lemma protoFree_obj props :
  protoFree (VObj props) <->
  match lookup PROTO props with
  | Some proto => isObjectType proto = false
  | None => True
  end /\
  Forall (fun kv => eqs kv.1 PROTO = false -> protoFree kv.2) props.
Proof. simpl. by rewrite protoFree_all. Qed.

Lemma protoFree_proto proto props :
  protoFree (VProto proto props) <-> protoFree (VObj props).
Proof. done. Qed.

(** The object the filter builds has the prototype of an object literal
    when the entries give it no other. *)
Lemma assignAll_own props :
  match lookup PROTO props with
  | Some proto => isObjectType proto = false
  | None => True
  end ->
  assignAll (cleanedEntries props) = VObj (own (cleanedEntries props)).
Proof.
  intros H. unfold assignAll. rewrite lookup_cleaned.
  destruct (lookup PROTO props) as [p|]; [|done].
  simpl. by rewrite strip_type, H.
Qed.

(** With no prototype to set, what the filter returns is tidy. *)
Lemma strip_tidy v : protoFree v -> tidy (stripCitations v).
Proof.
  assert (Hprops : forall props,
    Forall (fun kv => protoFree kv.2 -> tidy (stripCitations kv.2)) props ->
    protoFree (VObj props) -> tidy (assignAll (cleanedEntries props))).
  { intros props IH [Hp Hall]%protoFree_obj.
    rewrite (assignAll_own _ Hp). apply tidy_obj.
    apply Forall_forall. intros [k y] [Hin Hk]%list_elem_of_In%filter_In.
    apply negb_true_iff in Hk. split; [done|].
    apply in_map_iff in Hin as ([k' x] & [= <- <-] & Hin).
    rewrite Forall_forall in IH, Hall. apply list_elem_of_In in Hin.
    apply (IH _ Hin). by apply (Hall _ Hin). }
  induction v as [| | | | s | items IH | props IH | proto props _ IH]
    using jsval_nested_ind; try (intros; exact I).
  - intros _. apply stripString_idem.
  - intros H%protoFree_arr. rewrite strip_arr. apply tidy_arr.
    apply Forall_map. apply Forall_forall. intros x Hx.
    rewrite Forall_forall in IH, H. by apply IH, H.
  - rewrite strip_obj. by apply Hprops.
  - rewrite strip_proto, protoFree_proto. by apply Hprops.
Qed.

(** What the filter returns has no prototype left to set. *)
Lemma protoFree_strip v : protoFree (stripCitations v).
Proof.
  assert (Hprops : forall props,
    Forall (fun kv => protoFree (stripCitations kv.2)) props ->
    protoFree (assignAll (cleanedEntries props))).
  { intros props IH.
    assert (H : protoFree (VObj (own (cleanedEntries props)))).
    { apply protoFree_obj. rewrite (lookup_none _ (own_plain _)).
      split; [done|].
      apply Forall_forall. intros [k y] [Hin _]%list_elem_of_In%filter_In _.
      apply in_map_iff in Hin as ([k' x] & [= <- <-] & Hin).
      rewrite Forall_forall in IH. by apply (IH (k', x)), list_elem_of_In. }
    unfold assignAll. destruct (lookup PROTO _) as [p|]; [|done].
    by destruct (isObjectType p). }
  induction v as [| | | | s | items IH | props IH | proto props _ IH]
    using jsval_nested_ind; try exact I.
  - rewrite strip_arr. apply protoFree_arr. by apply Forall_map.
  - rewrite strip_obj. by apply Hprops.
  - rewrite strip_proto. by apply Hprops.
Qed.

(** Own properties that a second pass leaves as they are. *)
Lemma own_fixed props :
  cleanedEntries (own (cleanedEntries props)) = own (cleanedEntries props) ->
  Forall (fun kv => eqs kv.1 PROTO = false ->
                    stripCitations (stripCitations kv.2) = stripCitations kv.2)
    props.
Proof.
  induction props as [|[k x] l IH]; [constructor|].
  cbn [List.map List.filter fst].
  destruct (eqs k PROTO) eqn:Ek; cbn [negb].
  - intros H. constructor; [|by apply IH].
    change (eqs (k, x).1 PROTO) with (eqs k PROTO). by rewrite Ek.
  - cbn [List.map]. intros [= Hx Hl]. constructor; [|by apply IH].
    by intros _.
Qed.

(** A second pass that changes nothing had no prototype to drop. *)
Lemma fixed_protoFree v :
  stripCitations (stripCitations v) = stripCitations v -> protoFree v.
Proof.
  assert (Hprops : forall props,
    Forall (fun kv => stripCitations (stripCitations kv.2) = stripCitations kv.2
                      -> protoFree kv.2) props ->
    stripCitations (assignAll (cleanedEntries props))
      = assignAll (cleanedEntries props) ->
    protoFree (VObj props)).
  { intros props IH H. apply protoFree_obj.
    assert (Hp : match lookup PROTO props with
                 | Some proto => isObjectType proto = false
                 | None => True
                 end).
    { destruct (lookup PROTO props) as [p|] eqn:E; [|done].
      destruct (isObjectType p) eqn:Ep; [|done]. exfalso.
      unfold assignAll in H. rewrite lookup_cleaned, E in H. simpl in H.
      rewrite strip_type, Ep in H.
      rewrite strip_proto in H.
      rewrite (assignAll_plain _ (cleaned_plain _ (own_plain _))) in H.
      discriminate H. }
    split; [done|].
    rewrite (assignAll_own _ Hp), strip_own in H. injection H as H.
    apply own_fixed in H.
    apply Forall_forall. intros kv Hin Hk.
    rewrite Forall_forall in IH, H. by apply (IH _ Hin), (H _ Hin). }
  induction v as [| | | | s | items IH | props IH | proto props _ IH]
    using jsval_nested_ind; try (intros; exact I).
  - rewrite !strip_arr. intros [= H]. apply protoFree_arr.
    induction items as [|x l IHl]; [constructor|].
    apply List.Forall_cons_iff in IH as [Hx IH].
    simpl in H. injection H as H1 H2. constructor; [by apply Hx|by apply IHl].
  - rewrite strip_obj. by apply Hprops.
  - rewrite strip_proto, protoFree_proto. by apply Hprops.
Qed.

(** A second pass of the citation filter.  It changes nothing exactly when
    no object of the input has an own property [__proto__] that holds an
    object, an array or [null]: the first pass makes of such a property the
    prototype of its copy, and the second pass, which copies own properties
    only, drops it.  A third pass never changes the result of the
    second. *)
Theorem stripCitations_second_pass (v : jsval) :
  (stripCitations (stripCitations v) = stripCitations v <-> protoFree v) /\
  stripCitations (stripCitations (stripCitations v))
    = stripCitations (stripCitations v).
Proof.
  split; [split|].
  - apply fixed_protoFree.
  - intros H. by apply tidy_fixed, strip_tidy.
  - apply tidy_fixed, strip_tidy, protoFree_strip.
Qed.

End TidyFacts.

(** ** Validation as a projection *)

Section ValidateFacts.
Import Server.

Variable lowerOther : N -> list N.

Lemma kept_list (ok : jsval -> bool) (norm : jsval -> jsval) k l :
  Forall (kept ok norm) l -> (length l <= k)%nat ->
  firstn k (List.map norm (List.filter ok l)) = l.
Proof.
  intros H Hl.
  assert (E : List.map norm (List.filter ok l) = l).
  { induction l as [|x l IH]; [done|].
    apply List.Forall_cons_iff in H as [[Hok Hn] H]. simpl.
    rewrite Hok. simpl. rewrite Hn, IH; [done|done|simpl in Hl; lia]. }
  rewrite E. by apply take_ge.
Qed.

Lemma trimmed_nonBlank s : trimmedNonEmpty s -> nonBlank (VStr s) = true.
Proof. intros [E Hne]. unfold nonBlank. simpl. rewrite E. by destruct s. Qed.

Lemma argument_kept v : isArgument trimmedNonEmpty v -> kept argOk normArg v.
Proof.
  intros (s & -> & Hs). split.
  - unfold argOk. simpl isString. by rewrite trimmed_nonBlank.
  - unfold normArg. simpl. by rewrite (proj1 Hs).
Qed.

Lemma definition_kept v :
  isDefinition trimmedNonEmpty v -> kept defOk normDef v.
Proof.
  intros (t & d & -> & Ht & Hd). split.
  - unfold defOk.
    change (get (VObj [(lit "term", VStr t); (lit "definition", VStr d)])
              (lit "term")) with (VStr t).
    change (get (VObj [(lit "term", VStr t); (lit "definition", VStr d)])
              (lit "definition")) with (VStr d).
    by rewrite !trimmed_nonBlank.
  - unfold normDef.
    change (get (VObj [(lit "term", VStr t); (lit "definition", VStr d)])
              (lit "term")) with (VStr t).
    change (get (VObj [(lit "term", VStr t); (lit "definition", VStr d)])
              (lit "definition")) with (VStr d).
    simpl strOf. by rewrite (proj1 Ht), (proj1 Hd).
Qed.

Lemma article_kept v :
  isArticle trimmedNonEmpty v -> kept articleOk normArticle v.
Proof.
  intros (t & u & -> & Ht & Hu). unfold mkArticle. split.
  - unfold articleOk.
    change (get (VObj [(lit "title", VStr t); (lit "url", VStr u)])
              (lit "title")) with (VStr t).
    change (get (VObj [(lit "title", VStr t); (lit "url", VStr u)])
              (lit "url")) with (VStr u).
    by rewrite !trimmed_nonBlank.
  - unfold normArticle.
    change (get (VObj [(lit "title", VStr t); (lit "url", VStr u)])
              (lit "title")) with (VStr t).
    change (get (VObj [(lit "title", VStr t); (lit "url", VStr u)])
              (lit "url")) with (VStr u).
    simpl strOf. by rewrite (proj1 Ht), (proj1 Hu).
Qed.

Lemma filter_all {A} (p : A -> bool) l :
  Forall (fun x => p x = true) l -> List.filter p l = l.
Proof.
  induction l as [|x l IH]; [done|].
  intros [Hx H]%List.Forall_cons_iff. simpl. by rewrite Hx, IH.
Qed.

(** A well-formed result without suspicious URL validates to itself. *)
Lemma validate_fixed ra ds ms cs :
  Forall (isArticle trimmedNonEmpty) ra -> (length ra <= 10)%nat ->
  Forall (fun a => negb (isSuspicious lowerOther a) = true) ra ->
  Forall (isDefinition trimmedNonEmpty) ds -> (length ds <= 20)%nat ->
  Forall (isArgument trimmedNonEmpty) ms -> (length ms <= 20)%nat ->
  Forall (isArgument trimmedNonEmpty) cs -> (length cs <= 20)%nat ->
  validateAndNormalizeResponse lowerOther (mkResult ra ds ms cs)
    = Some (mkResult ra ds ms cs).
Proof.
  intros Hra Lra Sra Hds Lds Hms Lms Hcs Lcs.
  unfold validateAndNormalizeResponse.
  change (isObjectType (mkResult ra ds ms cs)) with true.
  cbv beta iota zeta. simpl negb. simpl orb. cbv iota.
  change (get (mkResult ra ds ms cs) (lit "relatedArticles")) with (VArr ra).
  change (get (mkResult ra ds ms cs) (lit "definitions")) with (VArr ds).
  change (get (mkResult ra ds ms cs) (lit "arguments"))
    with (VObj [(lit "main", VArr ms); (lit "counter", VArr cs)]).
  simpl isArray. simpl itemsOf. simpl truthy. simpl isObjectType.
  simpl andb. cbv iota.
  unfold normArgs.
  change (get (VObj [(lit "main", VArr ms); (lit "counter", VArr cs)])
            (lit "main")) with (VArr ms).
  change (get (VObj [(lit "main", VArr ms); (lit "counter", VArr cs)])
            (lit "counter")) with (VArr cs).
  simpl isArray. simpl itemsOf. cbv iota.
  rewrite (kept_list articleOk normArticle 10 ra);
    [|eapply Forall_impl; [exact Hra|apply article_kept]|done].
  rewrite (kept_list defOk normDef 20 ds);
    [|eapply Forall_impl; [exact Hds|apply definition_kept]|done].
  rewrite (kept_list argOk normArg 20 ms);
    [|eapply Forall_impl; [exact Hms|apply argument_kept]|done].
  rewrite (kept_list argOk normArg 20 cs);
    [|eapply Forall_impl; [exact Hcs|apply argument_kept]|done].
  by rewrite (filter_all _ ra Sra).
Qed.

(** Validation is a projection onto the well-formed results.  It throws
    exactly on what is no object; an array, or an object without the three
    properties, gives the empty result; and what it returns validates to
    itself. *)
Theorem validate_projection (data : jsval) :
  (validateAndNormalizeResponse lowerOther data = None <->
   isObjectType data = false \/ data = VNull) /\
  (forall items,
     validateAndNormalizeResponse lowerOther (VArr items)
       = Some (mkResult [] [] [] [])) /\
  (forall v, validateAndNormalizeResponse lowerOther data = Some v ->
     validateAndNormalizeResponse lowerOther v = Some v).
Proof.
  split; [|split].
  - unfold validateAndNormalizeResponse.
    destruct data; simpl; split; try done; try tauto; intros [H|H]; done.
  - done.
  - intros v Hv.
    pose proof (validate_related lowerOther data v Hv) as Hrel.
    destruct (validate_wellFormed lowerOther data v Hv)
      as (ra & ds & ms & cs & -> & Hra & Lra & Hds & Lds & Hms & Lms & Hcs & Lcs).
    apply validate_fixed; try done.
    unfold relatedOf in Hrel.
    change (get (mkResult ra ds ms cs) (lit "relatedArticles")) with (VArr ra)
      in Hrel.
    simpl in Hrel. rewrite Hrel.
    apply Forall_forall. intros x Hx%list_elem_of_In%filter_In. apply Hx.
Qed.

End ValidateFacts.
(** ** The Instant Summary *)

Section InstantFacts.
Import ErrorHandler SummarizerService DeepDiveAssistant InstantSummary.

(** A path of the invocation that neither calls the summarizer, nor shows a
    cached summary, nor writes the cache. *)
Ltac idle :=
  solve [ simpl; repeat split; intros;
          repeat match goal with
                 | H : In _ (_ ++ _) |- _ => apply in_app_or in H
                 | H : In _ (_ :: _) |- _ => destruct H
                 | H : _ \/ _ |- _ => destruct H
                 | H : In _ [] |- _ => destruct H
                 | H : False |- _ => destruct H
                 | |- ~ _ => intro
                 end;
          try done; try congruence;
          try (rewrite last_app; done) ].

(** One click on Instant Summary.  An invocation that comes to its end
    leaves the loading state.  The summarizer is handed at most 10,000 code
    units, the page text cut by [truncateToLimit], and is not called when a
    cached summary is shown.  The cache is written once at most: after the
    API returned a summary, under the key of the page, with that summary
    and the default [ttl]; on every other path, a cached summary shown and
    every error included, the store is left as it was. *)
Theorem instant_summary_flow (w : world)
    (storage : gmap (list N) (CacheManager.entry jsval)) :
  isProcessing w = false ->
  ((handleInstantSummary w storage).2 = true ->
   last (handleInstantSummary w storage).1.2 = Some HideLoading) /\
  (forall input, In (Summarize input) (handleInstantSummary w storage).1.2 ->
     len input <= 10000 /\
     (forall s, ~ In (DisplayCached s) (handleInstantSummary w storage).1.2) /\
     exists page,
       getPageText (tabs w) (sent w) = Resolved page /\
       input = truncateToLimit (ContentScript.text page) 10000) /\
  (forall key v, In (CacheSet key v) (handleInstantSummary w storage).1.2 ->
     exists page summary,
       getPageText (tabs w) (sent w) = Resolved page /\
       key = CacheManager.generateCacheKey (ContentScript.url page)
               (ContentScript.text page) /\
       api w (truncateToLimit (ContentScript.text page) 10000) = inr summary /\
       v = VStr summary /\
       (handleInstantSummary w storage).1.1
         = CacheManager.set (clockAtWrite w) key v None storage) /\
  ((forall key v, ~ In (CacheSet key v) (handleInstantSummary w storage).1.2) ->
   (handleInstantSummary w storage).1.1 = storage).
Proof.
  intros Hp. unfold handleInstantSummary, caught. rewrite Hp.
  destruct (available (checkAvailability (summarizerPresent w) (availability w)));
    [|idle].
  destruct (userActivation w); [|idle]. simpl negb. cbv iota.
  destruct (getPageText (tabs w) (sent w)) as [page|e|]; [|idle|idle].
  cbv zeta.
  set (key := CacheManager.generateCacheKey (ContentScript.url page)
                (ContentScript.text page)).
  destruct (CacheManager.isValid (clockAtRead w) key storage).
  { destruct (CacheManager.get key storage) as [cached|]; [|idle].
    destruct (CacheManager.value cached); idle. }
  unfold summarize.
  destruct (created w) as [e|]; [idle|].
  pose proof (truncate_len (ContentScript.text page) 10000) as Hlen.
  destruct (api w (truncateToLimit (ContentScript.text page) 10000))
    as [e|summary] eqn:Ea.
  - cbn [fst snd app]. split; [done|]. split; [|split; [|done]].
    + intros input [H|[[= <-]|[H|[H|H]]]]; try done.
      split; [lia|]. split; [|by exists page].
      intros s [H|[H|[H|[H|H]]]]; done.
    + intros k v [H|[H|[H|[H|H]]]]; done.
  - cbn [fst snd app]. split; [done|]. split; [|split].
    + intros input [H|[[= <-]|[H|[H|[H|H]]]]]; try done.
      split; [lia|]. split; [|by exists page].
      intros s [H|[H|[H|[H|[H|H]]]]]; done.
    + intros k v [H|[H|[[= <- <-]|[H|[H|H]]]]]; try done.
      by exists page, summary.
    + intros Hno. exfalso. apply (Hno key (VStr summary)).
      right. right. by left.
Qed.

End InstantFacts.

(** The sample click: the summarizer is called, its summary cached and
    shown. *)
Lemma instant_summary_flow_witness :
  (InstantSummary.handleInstantSummary sampleClick ∅).1.2
  = [InstantSummary.ShowLoading;
     InstantSummary.Summarize samplePageText;
     InstantSummary.CacheSet
       (CacheManager.generateCacheKey (lit "https://a.org/p") samplePageText)
       (VStr (lit "Rates rose; markets fell."));
     InstantSummary.DisplaySummary (lit "Rates rose; markets fell.");
     InstantSummary.HideLoading] /\
  (InstantSummary.handleInstantSummary sampleClick ∅).1.1
  = CacheManager.set 20
      (CacheManager.generateCacheKey (lit "https://a.org/p") samplePageText)
      (VStr (lit "Rates rose; markets fell.")) None ∅.
Proof.
  assert (E : (InstantSummary.handleInstantSummary sampleClick ∅).1.2
              = [InstantSummary.ShowLoading;
                 InstantSummary.Summarize samplePageText;
                 InstantSummary.CacheSet
                   (CacheManager.generateCacheKey (lit "https://a.org/p")
                      samplePageText)
                   (VStr (lit "Rates rose; markets fell."));
                 InstantSummary.DisplaySummary (lit "Rates rose; markets fell.");
                 InstantSummary.HideLoading]).
  { reflexivity. }
  split; [exact E|].
  destruct (proj1 (proj2 (proj2 (instant_summary_flow sampleClick ∅ eq_refl)))
              (CacheManager.generateCacheKey (lit "https://a.org/p")
                 samplePageText)
              (VStr (lit "Rates rose; markets fell.")))
    as (page & summary & _ & _ & _ & _ & Hst).
  - rewrite E. right. right. by left.
  - exact Hst.
Defined.
(** ** [renderMarkdown] *)

Section RenderFacts.
Import Render.

(** A pattern that matches nowhere leaves the string as it is. *)
Lemma replaceEach_id m fuel : forall s,
  (forall a t, s = a ++ t -> m t = None) -> replaceEach fuel m s = s.
Proof.
  induction fuel as [|fuel IH]; intros s H; [done|]. simpl.
  rewrite (H [] s eq_refl). destruct s as [|c s]; [done|].
  f_equal. apply IH. intros a t ->. by apply (H (c :: a)).
Qed.

Lemma split_lines s : forall line,
  Forall (fun c => c <> LF) line ->
  Forall (Forall (fun c => c <> LF)) (splitFrom s line).
Proof.
  induction s as [|c s IH]; intros line Hl; simpl.
  - by constructor.
  - destruct (N.eqb_spec c 10).
    + constructor; [done|]. by apply IH.
    + apply IH. apply Forall_app. split; [done|]. by constructor.
Qed.

Lemma split_one s : forall line,
  Forall (fun c => c <> LF) s -> splitFrom s line = [line ++ s].
Proof.
  induction s as [|c s IH]; intros line H; simpl.
  - by rewrite app_nil_r.
  - apply List.Forall_cons_iff in H as [Hc H].
    destruct (N.eqb_spec c 10); [done|].
    rewrite IH by done. by rewrite <- app_assoc.
Qed.

Lemma ws_not_bullet c : isWhiteSpace c = true -> isBullet c = false.
Proof.
  unfold isBullet, isCh.
  destruct (N.eqb_spec c (N_of_ascii "-")) as [->|_]; [done|].
  destruct (N.eqb_spec c (N_of_ascii "*")) as [->|_]; done.
Qed.

(** The items of a list: what [bulletMatch] captures is the rest of the
    line, not empty and without line terminator. *)
Lemma bulletMatch_item line item :
  bulletMatch line = Some item -> item <> [] /\ forallb dot item = true.
Proof.
  unfold bulletMatch.
  rewrite star_commit.
  2:{ intros c s Hc. unfold chr. by rewrite (ws_not_bullet c Hc). }
  destruct (skipRun isWhiteSpace line) as [|b t]; [done|].
  unfold chr at 1. destruct (isBullet b); [|done].
  unfold plus at 1. unfold chr at 1.
  destruct t as [|w t]; [done|]. destruct (isWhiteSpace w); [|done].
  assert (Hk : forall s, group (plus dot) (fun i => atEnd i) s = Some item ->
                 item <> [] /\ forallb dot item = true).
  { intros s. unfold group, plus, chr.
    destruct s as [|c s]; [done|]. destruct (dot c) eqn:Hc; [|done].
    rewrite star_commit.
    2:{ intros c' s' _. done. }
    destruct (skipRun_split dot s) as (ds & Es & Hds).
    destruct (skipRun dot s) as [|x r] eqn:Er; [|done].
    unfold atEnd. intros [= <-]. rewrite app_nil_r in Es. subst ds.
    replace (length (c :: s) - length (@nil N))%nat with (length (c :: s))
      by (simpl; lia).
    rewrite firstn_all. split; [done|]. simpl. by rewrite Hc, Hds. }
  assert (Hstar : forall s,
            star isWhiteSpace (group (plus dot) (fun i => atEnd i)) s
              = Some item ->
            item <> [] /\ forallb dot item = true).
  { induction s as [|c s IH]; simpl.
    - apply Hk.
    - destruct (isWhiteSpace c).
      + destruct (star isWhiteSpace _ s) as [i|] eqn:E.
        * intros [= <-]. by apply IH.
        * apply Hk.
      + apply Hk. }
  apply Hstar.
Qed.

(** The loop writes blocks: with a list open it first finishes that
    list. *)
Lemma processLines_blocks lines :
  Forall (Forall (fun c => c <> LF)) lines ->
  (exists blocks,
     processLines lines false = List.flat_map blockLines blocks /\
     Forall wellBlock blocks) /\
  (exists items blocks,
     processLines lines true
       = List.map li items ++ UL_END :: List.flat_map blockLines blocks /\
     Forall (fun i => i <> [] /\ forallb dot i = true) items /\
     Forall wellBlock blocks).
Proof.
  induction lines as [|line rest IH]; intros Hl.
  { split; [by exists []|by exists [], []]. }
  apply List.Forall_cons_iff in Hl as [Hline Hl].
  destruct (IH Hl) as [(bs & Ebs & Hbs) (items & bs' & Ei & Hi & Hbs')].
  simpl processLines.
  destruct (bulletMatch line) as [item|] eqn:Em.
  - apply bulletMatch_item in Em.
    split.
    + exists (Bullets (item :: items) :: bs'). split.
      * rewrite Ei. simpl. by rewrite <- app_assoc.
      * constructor; [|done]. split; [done|]. by constructor.
    + exists (item :: items), bs'. rewrite Ei. split; [done|].
      split; [by constructor|done].
  - destruct (trim line) as [|c t] eqn:Et.
    + split; [by exists bs|]. exists [], bs. by rewrite Ebs.
    + assert (Hp : wellBlock (Para line)).
      { split; [by rewrite Et|done]. }
      split.
      * exists (Para line :: bs). rewrite Ebs. split; [done|by constructor].
      * exists [], (Para line :: bs). rewrite Ebs. split; [done|].
        split; [constructor|by constructor].
Qed.

(** The renderer writes paragraphs and lists only, every list opened is
    closed, and a blank line gives nothing: its output is the lines of a
    sequence of blocks, each a paragraph [<p>line</p>] of a line that is
    not blank, or [<ul>], one [<li>item</li>] or more, [</ul>]. *)
Theorem render_blocks (text : list N) :
  exists blocks,
    renderMarkdown text = join [LF] (List.flat_map blockLines blocks) /\
    Forall wellBlock blocks.
Proof.
  unfold renderMarkdown. cbv zeta.
  set (html := replaceEach _ italicRe _).
  destruct (processLines_blocks (split html)) as [(bs & E & H) _].
  { apply split_lines. constructor. }
  exists bs. by rewrite E.
Qed.

Lemma no_star_bold t :
  match t with c :: _ => c <> N_of_ascii "*" | [] => True end ->
  boldRe t = None /\ italicRe t = None.
Proof.
  unfold boldRe, italicRe. destruct t as [|c t]; [done|]. intros Hc.
  change (lit "**") with (42%N :: lit "*").
  change (lit "*") with [42%N].
  cbn [str]. unfold chr at 1 3.
  destruct (N.eqb_spec 42 c) as [<-|_]; [by destruct Hc|].
  split; [done|]. unfold chr at 1.
  by destruct (N.eqb_spec 42 c) as [<-|_]; [destruct Hc|].
Qed.

Lemma suffix_head (P : N -> Prop) s a t :
  Forall P s -> s = a ++ t -> match t with c :: _ => P c | [] => True end.
Proof.
  intros H ->. apply Forall_app in H as [_ H]. destruct t; [done|].
  by apply List.Forall_cons_iff in H as [H _].
Qed.

(** The renderer escapes nothing.  A line of text without asterisk that is
    no bullet is wrapped in [<p>] as it is, markup included. *)
Theorem render_plain (text : list N) (c : N) (rest : list N) :
  Forall (fun x => x <> N_of_ascii "*" /\ x <> LF) text ->
  trimStart text = c :: rest -> isBullet c = false ->
  renderMarkdown text = lit "<p>" ++ text ++ lit "</p>".
Proof.
  intros Hchars Hstart Hc.
  assert (Hstar : Forall (fun x => x <> N_of_ascii "*") text).
  { eapply Forall_impl; [exact Hchars|]. by intros x [? _]. }
  assert (Hlf : Forall (fun x => x <> LF) text).
  { eapply Forall_impl; [exact Hchars|]. by intros x [_ ?]. }
  unfold renderMarkdown. cbv zeta.
  rewrite (replaceEach_id boldRe).
  2:{ intros a t E. apply no_star_bold. by eapply suffix_head. }
  rewrite (replaceEach_id italicRe).
  2:{ intros a t E. apply no_star_bold. by eapply suffix_head. }
  unfold split. rewrite split_one by done. simpl app.
  simpl processLines.
  assert (Hb : bulletMatch text = None).
  { unfold bulletMatch. rewrite star_commit.
    - rewrite <- trimStart_skipRun, Hstart. unfold chr. by rewrite Hc.
    - intros x s Hx. unfold chr. by rewrite (ws_not_bullet x Hx). }
  rewrite Hb.
  assert (Ht : trim text <> []).
  { unfold trim. rewrite Hstart.
    destruct (trimEnd_split (c :: rest)) as (w & E & Hw).
    destruct (trimEnd (c :: rest)) as [|x u]; [|done].
    simpl in E. subst w. simpl in Hw.
    pose proof (trimStart_head text) as Hh. rewrite Hstart in Hh.
    by rewrite Hh in Hw. }
  destruct (trim text); [done|]. reflexivity.
Qed.

End RenderFacts.

(** A summary that carries markup. *)
Lemma render_plain_witness :
  Render.renderMarkdown (lit "<img src=x onerror=alert(1)>")
    = lit "<p>" ++ lit "<img src=x onerror=alert(1)>" ++ lit "</p>".
Proof.
  refine (render_plain (lit "<img src=x onerror=alert(1)>") 60%N
            (lit "img src=x onerror=alert(1)>") _ _ _).
  - repeat constructor; discriminate.
  - reflexivity.
  - reflexivity.
Defined.
